(** * BiliLiveBot protocol engine: a shallow embedding and its properties

    The development follows the Python sources of the repository:
    - [core/danmaku.py]: frame header, stream splitter, decompression
      dispatch, nested re-split, user-name cleaning, reconnection loop;
    - [core/interact_word_v2_parser.py]: the hand-written record decoder;
    - [core/plugin_system.py]: sequential event dispatch to plugins;
    - [core/wbi_sign.py]: mixin key and request signature.

    Conventions.  A Python [bytes]/[bytearray] is a [list byte]; a Python
    [int] is a [Z]; a Python [str] is the list of its code points; list
    positions (offsets, lengths) are [nat].  A Python exception is an
    explicit [Raise] result; a loop that needs fuel returns [option] and
    is shown to return with the fuel its caller supplies, or, where the
    code does not come back, to return with no fuel at all. *)

From Stdlib Require Import ZArith Lia DecimalString.
From Stdlib.Strings Require Import Byte.
From stdpp Require Import base option list gmap strings sorting.

Local Open Scope Z_scope.

(** ** Python values shared by all components *)

Inductive exn : Set :=
| ValueError
| StructError
| IndexError
| ImportError
| DecompressError
| OtherError.

Inductive result (A : Type) : Type :=
| Ok (a : A)
| Raise (e : exn).
Arguments Ok {A} a.
Arguments Raise {A} e.

(** The integer value of a byte, [0 <= bz b < 256]. *)
Definition bz (b : byte) : Z := Z.of_N (Byte.to_N b).

(** Python slice [l[a:b]] for [0 <= a]: empty when [b <= a]. *)
Definition slice {A} (a b : nat) (l : list A) : list A :=
  take (b - a) (drop a l).

(** Big-endian reading of an unsigned integer, most significant byte first. *)
Definition be_uint (bs : list byte) : Z :=
  fold_left (fun acc b => acc * 256 + bz b) bs 0.

(** A Python [str]: its code points. *)
Definition str : Set := list Z.

(** The code points of an ASCII literal of the source. *)
Definition lit (s : string) : str :=
  (fun a => Z.of_N (Ascii.N_of_ascii a)) <$> String.list_ascii_of_string s.

Definition in_range (lo hi x : Z) : bool := (lo <=? x) && (x <=? hi).

Definition cont (b : byte) : bool := in_range 0x80 0xBF (bz b).

(** [bytes.decode('utf-8')] with strict errors: [None] stands for
    [UnicodeDecodeError] (overlong forms, surrogates, code points above
    U+10FFFF and truncated sequences are refused). *)
Fixpoint utf8_decode (bs : list byte) : option str :=
  match bs with
  | [] => Some []
  | b0 :: r0 =>
      let x0 := bz b0 in
      if x0 <? 0x80 then cons x0 <$> utf8_decode r0
      else if in_range 0xC2 0xDF x0 then
        match r0 with
        | b1 :: r1 =>
            if cont b1
            then cons (Z.lor (Z.shiftl (Z.land x0 0x1F) 6) (Z.land (bz b1) 0x3F))
                   <$> utf8_decode r1
            else None
        | _ => None
        end
      else if in_range 0xE0 0xEF x0 then
        match r0 with
        | b1 :: b2 :: r2 =>
            let lo := if x0 =? 0xE0 then 0xA0 else 0x80 in
            let hi := if x0 =? 0xED then 0x9F else 0xBF in
            if in_range lo hi (bz b1) && cont b2
            then cons (Z.lor (Z.shiftl (Z.land x0 0x0F) 12)
                         (Z.lor (Z.shiftl (Z.land (bz b1) 0x3F) 6)
                                (Z.land (bz b2) 0x3F)))
                   <$> utf8_decode r2
            else None
        | _ => None
        end
      else if in_range 0xF0 0xF4 x0 then
        match r0 with
        | b1 :: b2 :: b3 :: r3 =>
            let lo := if x0 =? 0xF0 then 0x90 else 0x80 in
            let hi := if x0 =? 0xF4 then 0x8F else 0xBF in
            if in_range lo hi (bz b1) && cont b2 && cont b3
            then cons (Z.lor (Z.shiftl (Z.land x0 0x07) 18)
                         (Z.lor (Z.shiftl (Z.land (bz b1) 0x3F) 12)
                            (Z.lor (Z.shiftl (Z.land (bz b2) 0x3F) 6)
                                   (Z.land (bz b3) 0x3F))))
                   <$> utf8_decode r3
            else None
        | _ => None
        end
      else None
  end.

(** [str(n)] of an [int]. *)
Definition str_of_Z (n : Z) : str :=
  lit (NilZero.string_of_int (Z.to_int n)).

(** A value stored in a Python dict of the engine. *)
Inductive pyval : Set :=
| VInt (z : Z)
| VStr (s : str).

(** ** Frame header and stream splitter ([core/danmaku.py]) *)

Module Frame.

Record PacketHeader : Set := mkHeader {
  packet_length : Z;
  header_length : Z;
  protocol_version : Z;
  operation : Z;
  sequence_id : Z
}.

(** [Operation] codes the splitter looks at. *)
Definition HEARTBEAT_REPLY : Z := 3.
Definition SEND_MSG_REPLY : Z := 5.
Definition AUTH_REPLY : Z := 8.

Definition u16 (b0 b1 : byte) : Z :=
  Z.lor (Z.shiftl (bz b0) 8) (bz b1).

Definition u32 (b0 b1 b2 b3 : byte) : Z :=
  Z.lor (Z.shiftl (bz b0) 24)
    (Z.lor (Z.shiftl (bz b1) 16) (Z.lor (Z.shiftl (bz b2) 8) (bz b3))).

(** [struct.Struct('>I2H2I').unpack]: exactly 16 bytes or [struct.error]. *)
Definition unpack_be (d : list byte) : result PacketHeader :=
  match d with
  | [a0; a1; a2; a3; b0; b1; c0; c1; d0; d1; d2; d3; e0; e1; e2; e3] =>
      Ok (mkHeader (u32 a0 a1 a2 a3) (u16 b0 b1) (u16 c0 c1)
                   (u32 d0 d1 d2 d3) (u32 e0 e1 e2 e3))
  | _ => Raise StructError
  end.

(** [struct.Struct('<I2H2I').unpack], the fallback of [from_bytes]. *)
Definition unpack_le (d : list byte) : result PacketHeader :=
  match d with
  | [a0; a1; a2; a3; b0; b1; c0; c1; d0; d1; d2; d3; e0; e1; e2; e3] =>
      Ok (mkHeader (u32 a3 a2 a1 a0) (u16 b1 b0) (u16 c1 c0)
                   (u32 d3 d2 d1 d0) (u32 e3 e2 e1 e0))
  | _ => Raise StructError
  end.

(** [PacketHeader.from_bytes].  The [ValueError] of the length test is not
    a [struct.error], so it leaves the [try] unhandled. *)
Definition from_bytes (data : list byte) : result PacketHeader :=
  let attempt :=
    if (length data <? 16)%nat then Raise ValueError
    else unpack_be (take 16 data) in
  match attempt with
  | Ok h => Ok h
  | Raise StructError =>
      match unpack_le (take 16 data) with
      | Ok h => Ok h
      | Raise _ => Raise ValueError
      end
  | Raise e => Raise e
  end.

(** The header the sixteen leading bytes spell, field by field, each read
    as a big-endian unsigned integer. *)
Definition header_of (data : list byte) : PacketHeader :=
  mkHeader (be_uint (slice 0 4 data)) (be_uint (slice 4 6 data))
           (be_uint (slice 6 8 data)) (be_uint (slice 8 12 data))
           (be_uint (slice 12 16 data)).

(** The acceptance test of the splitter on a tentative header. *)
Definition valid_header (h : PacketHeader) : bool :=
  (16 <=? packet_length h) && (packet_length h <=? 10000)
  && (header_length h =? 16)
  && (0 <=? operation h) && (operation h <=? 1000).

Definition max_errors : nat := 5.

(** The inner [for sync_offset in range(n)] of [_handle_packet], started at
    [sync_offset]; a header that fails to parse is passed over by the bare
    [except: continue]. *)
Fixpoint sync_scan (buffer : list byte) (offset sync_offset n : nat)
  : option (nat * PacketHeader) :=
  match n with
  | O => None
  | S n' =>
      let test_offset := (offset + sync_offset)%nat in
      match from_bytes (drop test_offset buffer) with
      | Ok test_header =>
          if valid_header test_header then Some (test_offset, test_header)
          else sync_scan buffer offset (S sync_offset) n'
      | Raise _ => sync_scan buffer offset (S sync_offset) n'
      end
  end.

(** A frame handed to the per-operation handlers: its header and body. *)
Definition frame : Set := PacketHeader * list byte.

(** State of the [while] loop at its exit. *)
Record loop_exit : Set := mkExit {
  exit_offset : nat;
  exit_errors : nat;
  exit_frames : list frame
}.

(** A well-formed frame on the wire: a header that passes the acceptance
    test, followed by the whole body its [packet_length] announces. *)
Definition is_frame (f : list byte) : bool :=
  match from_bytes f with
  | Ok h => valid_header h && (Z.of_nat (length f) =? packet_length h)
  | Raise _ => false
  end.

(** The header and the body of a frame on the wire. *)
Definition frame_of (f : list byte) : frame := (header_of f, drop 16 f).

(** The bytes still to come after each frame of a run: every frame of
    the run must see at least 17 bytes from its start, which holds unless
    the run ends, with nothing behind it, on a frame of 16 bytes. *)
Fixpoint followed (fs : list (list byte)) (tail : list byte) : Prop :=
  match fs with
  | [] => True
  | f :: fs' => (17 <= length f + length (concat fs' ++ tail))%nat
                /\ followed fs' tail
  end.

(** A [HEARTBEAT_REPLY] frame: the header and the four bytes of the
    viewer count 42. *)
Definition heartbeat_reply_42 : list byte :=
  [x00; x00; x00; x14;  x00; x10;  x00; x01;
   x00; x00; x00; x03;  x00; x00; x00; x01;
   x00; x00; x00; x2a]%byte.

(** An [AUTH_REPLY] frame with an empty body, the case the handler of
    [_handle_packet] answers with its [else] branch: sixteen bytes. *)
Definition auth_reply_empty : list byte :=
  [x00; x00; x00; x10;  x00; x10;  x00; x01;
   x00; x00; x00; x08;  x00; x00; x00; x01]%byte.

(** A message-push frame, protocol version 0, whose body is the JSON
    text of an empty object: eighteen bytes. *)
Definition message_push_json : list byte :=
  [x00; x00; x00; x12;  x00; x10;  x00; x00;
   x00; x00; x00; x05;  x00; x00; x00; x01;
   x7b; x7d]%byte.

(** A message-push frame, protocol version 0, whose body is sixteen zero
    bytes: read as a nested header, they announce a length of 0. *)
Definition message_push_zeros : list byte :=
  [x00; x00; x00; x20;  x00; x10;  x00; x00;
   x00; x00; x00; x05;  x00; x00; x00; x01]%byte
  ++ replicate 16 x00%byte.

(** *** Decompression dispatch, nested re-split and the splitter loop *)

Section Messages.

(** [zlib.decompress]; [Raise DecompressError] stands for [zlib.error]. *)
Variable zlib_decompress : list byte -> result (list byte).

(** The [brotli] module: [None] when [import brotli] raises
    [ImportError], else its [decompress]. *)
Variable brotli : option (list byte -> result (list byte)).

(** [json.loads] followed by [_dispatch_message] on a message-push body:
    [true] when an exception other than [json.JSONDecodeError] leaves
    them (for instance a JSON value that is not an object). *)
Variable dispatch_raises : list byte -> bool.

(** The [if/elif] chain of [_handle_message] that fills [messages]. *)
Definition decompress (body : list byte) (protocol_version : Z)
  : result (list byte) :=
  if protocol_version =? 0 then Ok body
  else if protocol_version =? 2 then zlib_decompress body
  else if protocol_version =? 3 then
    match brotli with
    | None => zlib_decompress body
    | Some brotli_decompress =>
        match brotli_decompress body with
        | Raise ImportError => zlib_decompress body
        | r => r
        end
    end
  else Ok body.

(** The [while offset < len(data)] loop of [_parse_messages].  There is
    no validation of the header and no test that the body is complete;
    any exception ends the loop.  [frames] collects the frames whose
    header was read and whose body was sliced, oldest first. *)
Fixpoint parse_loop (fuel : nat) (data : list byte) (offset : nat)
    (frames : list frame) : option (list frame) :=
  if negb (offset <? length data)%nat then Some frames
  else
    match fuel with
    | O => None
    | S fuel' =>
        match from_bytes (drop offset data) with
        | Raise _ => Some frames
        | Ok header =>
            let stop := Z.to_nat (Z.of_nat offset + packet_length header) in
            let body := slice (offset + 16) stop data in
            if (operation header =? SEND_MSG_REPLY) && dispatch_raises body
            then Some (frames ++ [(header, body)])
            else parse_loop fuel' data stop (frames ++ [(header, body)])
        end
    end.

Definition parse_messages (fuel : nat) (data : list byte)
  : option (list frame) :=
  parse_loop fuel data 0 [].

(** [_handle_message]: the frames found in the decompressed payload; any
    exception of the decompression is printed and the body dropped. *)
Definition handle_message (fuel : nat) (body : list byte)
    (protocol_version : Z) : option (list frame) :=
  match decompress body protocol_version with
  | Ok msg_data => parse_messages fuel msg_data
  | Raise _ => Some []
  end.

(** The body of a frame on the wire, when it is a message-push, is
    dispatched without an exception. *)
Definition dispatches (f : list byte) : Prop :=
  (operation (header_of f) =? SEND_MSG_REPLY)
  && dispatch_raises (drop 16 f) = false.

(** The dispatch as the specification words it: an error of the
    decompressor of version 3 falls back to the next-lower scheme,
    zlib, and only an error there drops the body. *)
Definition spec_decompress (body : list byte) (protocol_version : Z)
  : result (list byte) :=
  if protocol_version =? 0 then Ok body
  else if protocol_version =? 2 then zlib_decompress body
  else if protocol_version =? 3 then
    match brotli with
    | None => zlib_decompress body
    | Some brotli_decompress =>
        match brotli_decompress body with
        | Ok d => Ok d
        | Raise _ => zlib_decompress body
        end
    end
  else Ok body.

(** [self.on_online] on the viewer count of a heartbeat reply: [true]
    when the [await] comes back, with a result or with an exception
    (which is caught), also when no callback is set; [false] when it
    never does. *)
Variable on_online : Z -> bool.

(** The [if/elif] chain on [header.operation] in the body of the loop of
    [_handle_packet].  Every branch catches its own exceptions; what is
    left to tell is whether the handler comes back: [None] when it does
    not within [msg_fuel] turns of the nested loop of [_parse_messages]
    (for a handler that never comes back, whatever the fuel). *)
Definition handle_frame (msg_fuel : nat) (fr : frame) : option unit :=
  let '(header, body) := fr in
  if operation header =? HEARTBEAT_REPLY then
    if (length body =? 4)%nat && negb (on_online (be_uint body)) then None
    else Some tt
  else if operation header =? SEND_MSG_REPLY then
    match handle_message msg_fuel body (protocol_version header) with
    | Some _ => Some tt
    | None => None
    end
  else if operation header =? AUTH_REPLY then Some tt
  else Some tt.

(** The [while offset < buffer_len and error_count < max_errors] loop.
    Every handler branch of the body catches its own exceptions, so the
    outer [except Exception] of the loop body has nothing to catch and the
    loop is the three cases below: break, skip one byte, consume a frame.
    The frame is given to its handler before the cursor moves: a handler
    that does not come back keeps the loop, and [_handle_packet], from
    returning.  [frames] collects the frames given to the handlers,
    oldest first. *)
Fixpoint handle_loop (msg_fuel fuel : nat) (buffer : list byte)
    (offset error_count : nat) (frames : list frame) {struct fuel}
  : option loop_exit :=
  let buffer_len := length buffer in
  if negb ((offset <? buffer_len)%nat && (error_count <? max_errors)%nat)
  then Some (mkExit offset error_count frames)
  else
    match fuel with
    | O => None
    | S fuel' =>
        if (buffer_len - offset <? 16)%nat
        then Some (mkExit offset error_count frames)
        else
          match sync_scan buffer offset 0
                  (Nat.min 16 (buffer_len - offset - 16)) with
          | None =>
              handle_loop msg_fuel fuel' buffer (offset + 1) (error_count + 1)
                frames
          | Some (offset', header) =>
              if Z.of_nat (buffer_len - offset') <? packet_length header
              then Some (mkExit offset' error_count frames)
              else
                let stop := Z.to_nat (Z.of_nat offset' + packet_length header) in
                let body := slice (offset' + 16) stop buffer in
                match handle_frame msg_fuel (header, body) with
                | None => None
                | Some _ =>
                    handle_loop msg_fuel fuel' buffer stop 0
                      (frames ++ [(header, body)])
                end
          end
    end.

(** [_handle_packet]: the frames processed and the buffer left behind
    ([buffer.clear()] after too many errors, else [del buffer[:offset]]);
    [None] when a handler does not come back.  The loop itself needs no
    more than one turn for each byte of the buffer. *)
Definition handle_packet (msg_fuel : nat) (buffer : list byte)
  : option (list frame * list byte) :=
  match handle_loop msg_fuel (S (length buffer)) buffer 0 0 [] with
  | None => None
  | Some e =>
      if (max_errors <=? exit_errors e)%nat then Some (exit_frames e, [])
      else if (0 <? exit_offset e)%nat
           then Some (exit_frames e, drop (exit_offset e) buffer)
           else Some (exit_frames e, buffer)
  end.

(** The handler of [_handle_packet] comes back on this frame. *)
Definition handled (msg_fuel : nat) (f : list byte) : bool :=
  match handle_frame msg_fuel (frame_of f) with
  | Some _ => true
  | None => false
  end.

End Messages.

(** Stand-ins for running the splitter on examples: a [zlib] that
    refuses every body, a dispatch that raises nothing, a callback that
    comes back. *)
Definition zlib_refuses : list byte -> result (list byte) :=
  fun _ => Raise DecompressError.

Definition dispatch_quiet : list byte -> bool := fun _ => false.

Definition online_returns : Z -> bool := fun _ => true.

End Frame.

(** ** The lite record decoder ([core/interact_word_v2_parser.py]) *)

Module LiteRecord.

(** [pb_bytes[i]], an [IndexError] out of range. *)
Definition index (pb : list byte) (i : nat) : result Z :=
  match pb !! i with
  | Some b => Ok (bz b)
  | None => Raise IndexError
  end.

(** The loop that accumulates a variable-length integer from position
    [i]: the value read and the position after it.  The same loop reads
    the varint fields and the lengths of the length-delimited fields. *)
Fixpoint read_varint (fuel : nat) (pb : list byte) (i : nat)
    (value shift : Z) : option (result (Z * nat)) :=
  if negb (i <? length pb)%nat then Some (Ok (value, i))
  else
    match fuel with
    | O => None
    | S fuel' =>
        match index pb i with
        | Raise e => Some (Raise e)
        | Ok byte_val =>
            let i := (i + 1)%nat in
            let value := Z.lor value (Z.shiftl (Z.land byte_val 0x7F) shift) in
            if Z.land byte_val 0x80 =? 0 then Some (Ok (value, i))
            else
              let shift := shift + 7 in
              if 63 <? shift then Some (Ok (value, i))
              else read_varint fuel' pb i value shift
        end
    end.

(** [while i < len(data) and (data[i] & 0x80): i += 1] of
    [_parse_user_info]. *)
Fixpoint skip_continuation (fuel : nat) (data : list byte) (i : nat)
  : option (result nat) :=
  if negb (i <? length data)%nat then Some (Ok i)
  else
    match fuel with
    | O => None
    | S fuel' =>
        match index data i with
        | Raise e => Some (Raise e)
        | Ok byte_val =>
            if Z.land byte_val 0x80 =? 0 then Some (Ok i)
            else skip_continuation fuel' data (i + 1)
        end
    end.

(** The main loop of [_parse_user_info]. *)
Fixpoint user_info_loop (fuel : nat) (data : list byte) (i : nat)
    (res : gmap string pyval) : option (result (gmap string pyval)) :=
  if negb (i <? length data)%nat then Some (Ok res)
  else
    match fuel with
    | O => None
    | S fuel' =>
        match index data i with
        | Raise e => Some (Raise e)
        | Ok field_info =>
            let i := (i + 1)%nat in
            let field_num := Z.shiftr field_info 3 in
            let wire_type := Z.land field_info 0x07 in
            if wire_type =? 0 then
              match skip_continuation (length data) data i with
              | None => None
              | Some (Raise e) => Some (Raise e)
              | Some (Ok i) =>
                  let i := if (i <? length data)%nat then (i + 1)%nat else i in
                  user_info_loop fuel' data i res
              end
            else if wire_type =? 2 then
              match read_varint (length data) data i 0 0 with
              | None => None
              | Some (Raise e) => Some (Raise e)
              | Some (Ok (len, i)) =>
                  if Z.of_nat i + len <=? Z.of_nat (length data) then
                    let stop := Z.to_nat (Z.of_nat i + len) in
                    let string_data := slice i stop data in
                    let res :=
                      match utf8_decode string_data with
                      | Some string_value =>
                          if field_num =? 1 then <["face" := VStr string_value]> res
                          else if field_num =? 2 then <["name" := VStr string_value]> res
                          else res
                      | None => res
                      end in
                    user_info_loop fuel' data stop res
                  else Some (Ok res)
              end
            else if wire_type =? 5 then
              user_info_loop fuel' data (i + 4) res
            else Some (Ok res)
        end
    end.

(** [_parse_user_info]: an exception gives the empty dict. *)
Definition parse_user_info (data : list byte) : option (gmap string pyval) :=
  match user_info_loop (S (length data)) data 0 ∅ with
  | None => None
  | Some (Ok res) => Some res
  | Some (Raise _) => Some ∅
  end.

(** Truth value of [result.get(key)]: a missing key, [0] and the empty
    string are false. *)
Definition truthy (v : option pyval) : bool :=
  match v with
  | None => false
  | Some (VInt z) => negb (z =? 0)
  | Some (VStr s) => negb (bool_decide (s = []))
  end.

(** The main loop of [_parse_simple]. *)
Fixpoint simple_loop (fuel : nat) (pb_bytes : list byte) (i : nat)
    (res : gmap string pyval) : option (result (gmap string pyval)) :=
  if negb (i <? length pb_bytes)%nat then Some (Ok res)
  else
    match fuel with
    | O => None
    | S fuel' =>
        match index pb_bytes i with
        | Raise e => Some (Raise e)
        | Ok field_info =>
            let i := (i + 1)%nat in
            let field_num := Z.shiftr field_info 3 in
            let wire_type := Z.land field_info 0x07 in
            if wire_type =? 0 then
              match read_varint (length pb_bytes) pb_bytes i 0 0 with
              | None => None
              | Some (Raise e) => Some (Raise e)
              | Some (Ok (value, i)) =>
                  let res :=
                    if field_num =? 1 then <["uid" := VInt value]> res
                    else if field_num =? 5 then <["msg_type" := VInt value]> res
                    else if field_num =? 6 then <["timestamp" := VInt value]> res
                    else res in
                  simple_loop fuel' pb_bytes i res
              end
            else if wire_type =? 2 then
              match read_varint (length pb_bytes) pb_bytes i 0 0 with
              | None => None
              | Some (Raise e) => Some (Raise e)
              | Some (Ok (len, i)) =>
                  if Z.of_nat i + len <=? Z.of_nat (length pb_bytes) then
                    let stop := Z.to_nat (Z.of_nat i + len) in
                    let data := slice i stop pb_bytes in
                    if field_num =? 3 then
                      match parse_user_info data with
                      | None => None
                      | Some user_info =>
                          let res :=
                            match user_info !! "name" with
                            | Some name =>
                                if negb (truthy (res !! "uname"))
                                then <["uname" := name]> res else res
                            | None => res
                            end in
                          let res :=
                            match user_info !! "face" with
                            | Some face => <["face" := face]> res
                            | None => res
                            end in
                          simple_loop fuel' pb_bytes stop res
                      end
                    else
                      let res :=
                        match utf8_decode data with
                        | Some string_value =>
                            if field_num =? 2 then <["uname" := VStr string_value]> res
                            else if field_num =? 4 then <["face" := VStr string_value]> res
                            else res
                        | None => res
                        end in
                      simple_loop fuel' pb_bytes stop res
                  else Some (Ok res)
              end
            else if wire_type =? 5 then
              simple_loop fuel' pb_bytes (i + 4) res
            else Some (Ok res)
        end
    end.

(** [if key not in result: result[key] = default]. *)
Definition setdefault (key : string) (default : pyval)
    (res : gmap string pyval) : gmap string pyval :=
  match res !! key with
  | Some _ => res
  | None => <[key := default]> res
  end.

Definition fill_defaults (res : gmap string pyval) : gmap string pyval :=
  setdefault "timestamp" (VInt 0)
    (setdefault "msg_type" (VInt 1)
       (setdefault "uname" (VStr [])
          (setdefault "uid" (VInt 0) res))).

(** [_parse_simple]: [Some None] is the [return None] of its
    [except Exception]; the outer [None] is the fuel running out. *)
Definition parse_simple (pb_bytes : list byte)
  : option (option (gmap string pyval)) :=
  match simple_loop (S (length pb_bytes)) pb_bytes 0 ∅ with
  | None => None
  | Some (Ok res) => Some (Some (fill_defaults res))
  | Some (Raise _) => Some None
  end.

(** The structure all of whose fields are the defaults. *)
Definition default_record : gmap string pyval :=
  fill_defaults ∅.

(** *** The wire format the decoder walks, for stating what it extracts *)

Definition byte_of_Z (z : Z) : byte :=
  default x00%byte (Byte.of_N (Z.to_N z)).

(** A variable-length integer on the wire: groups of 7 bits, the low
    groups first, the high bit set on all bytes but the last; [n] bounds
    the number of bytes that carry the continuation bit. *)
Fixpoint encode_varint (n : nat) (v : Z) : list byte :=
  match n with
  | O => [byte_of_Z v]
  | S n' =>
      if v <? 128 then [byte_of_Z v]
      else byte_of_Z (Z.lor (Z.land v 127) 128)
             :: encode_varint n' (Z.shiftr v 7)
  end.

Definition varint (v : Z) : list byte := encode_varint 9 v.

(** The first byte of a field: the field number above the wire type. *)
Definition tag (field_num wire_type : Z) : byte :=
  byte_of_Z (Z.lor (Z.shiftl field_num 3) wire_type).

(** The fields the decoder walks over. *)
Inductive field : Set :=
| FVarint (field_num : Z) (v : Z)
| FBytes (field_num : Z) (data : list byte)
| FFixed32 (field_num : Z) (b0 b1 b2 b3 : byte).

Definition encode_field (fd : field) : list byte :=
  match fd with
  | FVarint field_num v => tag field_num 0 :: varint v
  | FBytes field_num data =>
      tag field_num 2 :: varint (Z.of_nat (length data)) ++ data
  | FFixed32 field_num b0 b1 b2 b3 => [tag field_num 5; b0; b1; b2; b3]
  end.

Definition encode_record (fields : list field) : list byte :=
  concat (encode_field <$> fields).

(** A field number fits the five high bits of the first byte; values and
    lengths fit 64 bits. *)
Definition wf_field (fd : field) : Prop :=
  match fd with
  | FVarint field_num v => 0 <= field_num < 32 /\ 0 <= v < 2 ^ 64
  | FBytes field_num data =>
      0 <= field_num < 32 /\ Z.of_nat (length data) < 2 ^ 64
  | FFixed32 field_num _ _ _ _ => 0 <= field_num < 32
  end.

(** What [_parse_simple] stores for one field: the three known integers,
    the name and the avatar when they decode as UTF-8, the nested user
    record; everything else leaves the result as it is. *)
Definition store_field (res : gmap string pyval) (fd : field)
  : gmap string pyval :=
  match fd with
  | FVarint field_num value =>
      if field_num =? 1 then <["uid" := VInt value]> res
      else if field_num =? 5 then <["msg_type" := VInt value]> res
      else if field_num =? 6 then <["timestamp" := VInt value]> res
      else res
  | FBytes field_num data =>
      if field_num =? 3 then
        match parse_user_info data with
        | None => res
        | Some user_info =>
            let res :=
              match user_info !! "name" with
              | Some name =>
                  if negb (truthy (res !! "uname"))
                  then <["uname" := name]> res else res
              | None => res
              end in
            match user_info !! "face" with
            | Some face => <["face" := face]> res
            | None => res
            end
        end
      else
        match utf8_decode data with
        | Some string_value =>
            if field_num =? 2 then <["uname" := VStr string_value]> res
            else if field_num =? 4 then <["face" := VStr string_value]> res
            else res
        | None => res
        end
  | FFixed32 _ _ _ _ _ => res
  end.

(** What ends the walk: the end of the input, a byte whose wire type is
    none of 0, 2 and 5, or a length-delimited field that announces more
    bytes than are left. *)
Definition stops_walk (rest : list byte) : Prop :=
  rest = []
  \/ (exists b tail,
        rest = b :: tail
        /\ Z.land (bz b) 7 <> 0 /\ Z.land (bz b) 7 <> 2
        /\ Z.land (bz b) 7 <> 5)
  \/ (exists field_num len tail,
        rest = tag field_num 2 :: varint len ++ tail
        /\ 0 <= field_num < 32
        /\ Z.of_nat (length tail) < len < 2 ^ 64).

(** The messages of the [pure_protobuf] schema. *)
Record UserInfo : Set := mkUserInfo {
  ui_face : option str;
  ui_name : option str
}.

Record InteractWordV2 : Set := mkInteract {
  m_uid : option Z;
  m_uname : option str;
  m_uinfo : option UserInfo;
  m_timestamp : option Z;
  m_msg_type : option Z
}.

(** [v or default] on an optional integer and on an optional string. *)
Definition or_int (v : option Z) (default : Z) : Z :=
  match v with
  | Some z => if z =? 0 then default else z
  | None => default
  end.

Definition or_str (v : option str) (default : str) : str :=
  match v with
  | Some [] | None => default
  | Some s => s
  end.

Section Parse.

(** [base64.b64decode]. *)
Variable b64decode : str -> result (list byte).

(** [InteractWordV2.read_from_bytes] when the [pure_protobuf] package
    could be imported, else [None]. *)
Variable read_from_bytes : option (list byte -> result InteractWordV2).

Definition parse_with_pure_protobuf
    (read : list byte -> result InteractWordV2) (pb_bytes : list byte)
  : option (option (gmap string pyval)) :=
  match read pb_bytes with
  | Raise _ => parse_simple pb_bytes
  | Ok interact_msg =>
      let res : gmap string pyval :=
        <["timestamp" := VInt (or_int (m_timestamp interact_msg) 0)]>
          (<["msg_type" := VInt (or_int (m_msg_type interact_msg) 1)]>
             (<["uname" := VStr (or_str (m_uname interact_msg) [])]>
                (<["uid" := VInt (or_int (m_uid interact_msg) 0)]> ∅))) in
      match m_uinfo interact_msg with
      | None => Some (Some res)
      | Some uinfo =>
          let res :=
            if negb (bool_decide (or_str (ui_name uinfo) [] = []))
               && negb (truthy (res !! "uname"))
            then <["uname" := VStr (or_str (ui_name uinfo) [])]> res
            else res in
          let res :=
            if negb (bool_decide (or_str (ui_face uinfo) [] = []))
            then <["face" := VStr (or_str (ui_face uinfo) [])]> res
            else res in
          Some (Some res)
      end
  end.

(** [InteractWordV2Parser.parse]: [Some None] is its [return None]. *)
Definition parse (pb_data : str) : option (option (gmap string pyval)) :=
  match b64decode pb_data with
  | Raise _ => Some None
  | Ok pb_bytes =>
      match read_from_bytes with
      | Some read => parse_with_pure_protobuf read pb_bytes
      | None => parse_simple pb_bytes
      end
  end.

End Parse.

End LiteRecord.

(** ** The reconnection loop ([DanmakuClient._reconnect_loop]) *)

Module Reconnect.

(** What one call of [connect()] does: it returns [True] (and has set
    [running] and a socket), returns [False] (leaving a socket behind or
    not), or lets an exception out. *)
Inductive connect_result : Set :=
| Connected
| Refused (socket_left : bool)
| Crashed.

(** What the loop does to the outside, in order. *)
Inductive event : Set :=
| Sleep (seconds : Z)
| CloseSocket
| Connect
| Notify (reason : string).

Record client : Set := mkClient {
  auto_reconnect : bool;
  max_reconnect_attempts : Z;
  reconnect_attempts : Z;
  running : bool;
  ws : bool;
  on_disconnect : bool
}.

Definition set_attempts (n : Z) (c : client) : client :=
  mkClient (auto_reconnect c) (max_reconnect_attempts c) n
           (running c) (ws c) (on_disconnect c).

Definition set_ws (b : bool) (c : client) : client :=
  mkClient (auto_reconnect c) (max_reconnect_attempts c)
           (reconnect_attempts c) (running c) b (on_disconnect c).

Definition set_running (b : bool) (c : client) : client :=
  mkClient (auto_reconnect c) (max_reconnect_attempts c)
           (reconnect_attempts c) b (ws c) (on_disconnect c).

(** The retry delay configured in [core/config.py]
    ([reconnect.retry_delay_seconds]); [_reconnect_loop] does not read it. *)
Definition retry_delay_seconds : Z := 5.

Section Loop.

(** The outcome of the [n]-th call of [connect()] of this run, counted
    from 0. *)
Variable connect : nat -> connect_result.

(** The [while] loop; [calls] counts the [connect()] calls made so far.
    Its result is the client at the exit, the events in order, and
    whether the loop was left by [return] (a successful reconnect). *)
Fixpoint retry_loop (fuel : nat) (c : client) (calls : nat)
    (trace : list event) : option (client * list event * bool) :=
  if negb ((reconnect_attempts c <? max_reconnect_attempts c)
           && negb (running c))
  then Some (c, trace, false)
  else
    match fuel with
    | O => None
    | S fuel' =>
        let c := set_attempts (reconnect_attempts c + 1) c in
        let wait_time := Z.min (2 ^ reconnect_attempts c) 60 in
        let trace := trace ++ [Sleep wait_time] in
        let trace := if ws c then trace ++ [CloseSocket] else trace in
        let c := set_ws false c in
        let trace := trace ++ [Connect] in
        match connect calls with
        | Connected =>
            let c := set_running true (set_ws true c) in
            Some (set_attempts 0 c, trace, true)
        | Refused socket_left =>
            retry_loop fuel' (set_ws socket_left c) (S calls) trace
        | Crashed =>
            retry_loop fuel' c (S calls) trace
        end
    end.

(** [_reconnect_loop]. *)
Definition reconnect_loop (c : client) : option (client * list event) :=
  if negb (auto_reconnect c) then Some (c, [])
  else
    let c := set_attempts 0 c in
    match retry_loop (Z.to_nat (max_reconnect_attempts c)) c 0 [] with
    | None => None
    | Some (c, trace, true) => Some (c, trace)
    | Some (c, trace, false) =>
        if negb (running c) && on_disconnect c
        then Some (c, trace ++ [Notify "max_reconnect_attempts_reached"])
        else Some (c, trace)
    end.

End Loop.

(** Projections of a trace. *)
Definition sleeps (trace : list event) : list Z :=
  omap (fun e => match e with Sleep s => Some s | _ => None end) trace.

Definition connects (trace : list event) : nat :=
  length (omap (fun e => match e with Connect => Some tt | _ => None end) trace).

Definition notifications (trace : list event) : list string :=
  omap (fun e => match e with Notify r => Some r | _ => None end) trace.

(** The delays of the first [n] attempts when attempt number [k],
    counted from 1, waits [min(2^k, 60)] seconds. *)
Definition delays (n : nat) : list Z :=
  (fun attempt => Z.min (2 ^ Z.of_nat attempt) 60) <$> seq 1 n.

(** The events of one turn of the loop for a client whose counter is
    [a]: the sleep, the closing of an old socket, the call. *)
Definition turn (a : Z) (socket : bool) : list event :=
  [Sleep (Z.min (2 ^ (a + 1)) 60)]
  ++ (if socket then [CloseSocket] else []) ++ [Connect].

(** The delays of [m] more attempts after [a] attempts. *)
Definition delays_from (a : Z) (m : nat) : list Z :=
  (fun k => Z.min (2 ^ (a + Z.of_nat k)) 60) <$> seq 1 m.

(** Whether a socket is left over when the attempt of index [k] begins,
    for attempts that start at index [start] with the socket [first]:
    after the first one, what the failed call before it left behind. *)
Definition socket_at (connect : nat -> connect_result) (first : bool)
    (start k : nat) : bool :=
  if (k =? start)%nat then first
  else match connect (k - 1)%nat with
       | Refused socket_left => socket_left
       | _ => false
       end.

(** The events of [m] attempts in a row from index [start], in the order
    they happen: for each attempt its [turn], that is the sleep, then the
    closing of a left-over socket, then the call of [connect()]. *)
Definition attempts_from (connect : nat -> connect_result) (first : bool)
    (start m : nat) : list event :=
  concat ((fun k => turn (Z.of_nat k) (socket_at connect first start k))
            <$> seq start m).

(** The events of the first [n] attempts of a run that starts with the
    client [c]. *)
Definition attempts (connect : nat -> connect_result) (c : client) (n : nat)
  : list event :=
  attempts_from connect (ws c) 0 n.

(** A client that has lost its connection, with the defaults of
    [__init__] and a callback registered. *)
Definition lost_client : client :=
  mkClient true 5 0 false true true.

(** The delay the specification gives for a base delay and an attempt. *)
Definition spec_delay (base_delay attempt : Z) : Z :=
  Z.min (base_delay * 2 ^ attempt) 60.

End Reconnect.

(** ** The event bus ([PluginManager.process_event]) *)

Module Bus.

(** Dict objects live in a store and are named by their position in it:
    a handler gets the reference of the payload, may change any object
    in place and may create new ones. *)
Definition loc : Set := nat.
Definition heap : Type := list (gmap string pyval).

Inductive outcome : Set :=
| Returns (processed : option loc)
| Raises.

Definition handler : Type := loc -> heap -> heap * outcome.

Record plugin : Type := mkPlugin {
  name : string;
  enabled : bool;
  on_danmaku : handler;
  on_gift : handler;
  on_guard : handler;
  on_superchat : handler;
  on_interact : handler;
  on_online : handler
}.

(** The [if/elif] chain on [event_type]: the method that is called, or
    [None] for an event type the bus does not know. *)
Definition method (p : plugin) (event_type : string) : option handler :=
  if String.eqb event_type "danmaku" then Some (on_danmaku p)
  else if String.eqb event_type "gift" then Some (on_gift p)
  else if String.eqb event_type "guard" then Some (on_guard p)
  else if String.eqb event_type "superchat" then Some (on_superchat p)
  else if String.eqb event_type "interact" then Some (on_interact p)
  else if String.eqb event_type "online" then Some (on_online p)
  else None.

(** One handler call as the plugin sees it: who was called, with which
    reference, and what that object held at the call. *)
Record call : Type := mkCall {
  callee : string;
  arg : loc;
  seen : option (gmap string pyval)
}.

(** The [for plugin in self.plugins.values()] loop, the plugins in the
    insertion order of the dict. *)
Fixpoint dispatch (plugins : list plugin) (event_type : string)
    (result_data : loc) (h : heap) (log : list call)
  : heap * loc * list call :=
  match plugins with
  | [] => (h, result_data, log)
  | p :: rest =>
      if negb (enabled p) then dispatch rest event_type result_data h log
      else
        match method p event_type with
        | None => dispatch rest event_type result_data h log
        | Some f =>
            let log := log ++ [mkCall (name p) result_data (h !! result_data)] in
            match f result_data h with
            | (h, Returns (Some processed)) =>
                dispatch rest event_type processed h log
            | (h, Returns None) =>
                dispatch rest event_type result_data h log
            | (h, Raises) =>
                dispatch rest event_type result_data h log
            end
        end
  end.

(** [process_event]: [data.copy()] is a new object of the store. *)
Definition process_event (plugins : list plugin) (event_type : string)
    (data : loc) (h : heap) : heap * loc * list call :=
  let result_data := length h in
  dispatch plugins event_type result_data (h ++ [default ∅ (h !! data)]) [].

(** The payload the next plugin gets after a handler is done: the
    returned object, or the one passed in when the handler returned
    [None] or raised. *)
Definition next (result_data : loc) (o : outcome) : loc :=
  match o with
  | Returns (Some processed) => processed
  | Returns None | Raises => result_data
  end.

(** Three plugins for the examples: one that returns its payload as it
    is, one that writes a mark into the payload and then raises, one
    that returns [None]. *)
Definition returns_same : handler := fun r h => (h, Returns (Some r)).

Definition marks_then_raises : handler :=
  fun r h =>
    (<[r := <["filtered" := VInt 1]> (default ∅ (h !! r))]> h, Raises).

Definition returns_none : handler := fun r h => (h, Returns None).

Definition plugin_of (n : string) (f : handler) : plugin :=
  mkPlugin n true f f f f f f.

End Bus.

(** ** User names of the normalizer ([_clean_username], [_trigger_user_enter]) *)

Module Normalizer.

(** [str.isspace] on one character: the white space of Unicode. *)
Definition is_space (c : Z) : bool :=
  in_range 0x09 0x0D c || in_range 0x1C 0x20 c
  || (c =? 0x85) || (c =? 0xA0) || (c =? 0x1680)
  || in_range 0x2000 0x200A c
  || (c =? 0x2028) || (c =? 0x2029) || (c =? 0x202F)
  || (c =? 0x205F) || (c =? 0x3000).

Fixpoint lstrip (s : str) : str :=
  match s with
  | [] => []
  | c :: r => if is_space c then lstrip r else s
  end.

Definition rstrip (s : str) : str := reverse (lstrip (reverse s)).

Definition strip (s : str) : str := rstrip (lstrip s).

(** [s.split()]: the maximal runs without white space; [cur] is the run
    being read. *)
Fixpoint split_ws (s : str) (cur : str) : list str :=
  match s with
  | [] => match cur with [] => [] | _ => [cur] end
  | c :: r =>
      if is_space c
      then match cur with [] => split_ws r [] | _ => cur :: split_ws r [] end
      else split_ws r (cur ++ [c])
  end.

Definition split (s : str) : list str := split_ws s [].

(** [sep.join(parts)]. *)
Fixpoint join (sep : str) (parts : list str) : str :=
  match parts with
  | [] => []
  | [p] => p
  | p :: ps => p ++ sep ++ join sep ps
  end.

Fixpoint starts_with (sub s : str) : bool :=
  match sub, s with
  | [], _ => true
  | _ :: _, [] => false
  | a :: sub', b :: s' => (a =? b) && starts_with sub' s'
  end.

(** [s] is the part of the string from position [pos] on. *)
Fixpoint find_at (sub s : str) (pos : nat) : option nat :=
  if starts_with sub s then Some pos
  else match s with
       | [] => None
       | _ :: s' => find_at sub s' (S pos)
       end.

(** [s.find(sub, start)], [None] for [-1]. *)
Definition find (sub s : str) (start : nat) : option nat :=
  find_at sub (drop start s) start.

(** [sub in s]. *)
Definition contains (sub s : str) : bool :=
  bool_decide (is_Some (find sub s 0)).

(** [s.isspace()]. *)
Definition isspace (s : str) : bool :=
  negb (bool_decide (s = [])) && forallb is_space s.

Definition extensions : list str :=
  [lit ".jpg"; lit ".png"; lit ".jpeg"; lit ".gif"; lit ".webp"].

(** The [for ext in [...]] loop: the end of the first extension, in the
    order of the list, that occurs from [http_start] on. *)
Fixpoint find_url_end (exts : list str) (cleaned : str) (http_start : nat)
  : option nat :=
  match exts with
  | [] => None
  | ext :: rest =>
      match find ext cleaned http_start with
      | Some ext_end => Some (ext_end + length ext)%nat
      | None => find_url_end rest cleaned http_start
      end
  end.

(** The placeholder of the last test of [_clean_username]. *)
Definition placeholder : str := [0x7528; 0x6237].

(** The removal of an avatar URL. *)
Definition remove_url (cleaned : str) : str :=
  if contains (lit "http") cleaned && contains (lit "bfs/face/") cleaned then
    match find (lit "http") cleaned 0 with
    | None => cleaned
    | Some http_start =>
        match find_url_end extensions cleaned http_start with
        | Some url_end =>
            let before_url := rstrip (take http_start cleaned) in
            let after_url := lstrip (drop url_end cleaned) in
            match after_url with
            | [] => before_url
            | _ => before_url ++ lit " " ++ after_url
            end
        | None =>
            match find (lit " ") cleaned http_start with
            | Some space_end =>
                rstrip (take http_start cleaned) ++ drop space_end cleaned
            | None => rstrip (take http_start cleaned)
            end
        end
    end
  else cleaned.

(** The name before the last test: control characters removed, URL
    removed, white space normalised, cut at 20 characters. *)
Definition cleaned_name (username : str) : str :=
  let cleaned :=
    List.filter (fun c => (32 <=? c) || (c =? 9) || (c =? 10) || (c =? 13))
                username in
  let cleaned := remove_url cleaned in
  let cleaned := join (lit " ") (split cleaned) in
  let cleaned := strip cleaned in
  if (20 <? length cleaned)%nat then rstrip (take 20 cleaned) else cleaned.

(** [_clean_username]. *)
Definition clean_username (username : str) : str :=
  match username with
  | [] => username
  | _ =>
      let cleaned := cleaned_name username in
      if bool_decide (cleaned = []) || isspace cleaned then placeholder
      else cleaned
  end.

(** The event [_trigger_user_enter] gives to the plugins. *)
Record enter_data : Set := mkEnter {
  enter_uid : Z;
  enter_uname : str;
  enter_source : str
}.

(** [_trigger_user_enter]: the new [user_enter_history] and the event, if
    one is sent. *)
Definition trigger_user_enter (user_enter_history : gset str)
    (user_name : str) (user_uid : Z) (source : str)
  : gset str * option enter_data :=
  let clean_name := clean_username user_name in
  let key := str_of_Z user_uid ++ lit ":" ++ clean_name in
  if bool_decide (key ∈ user_enter_history) then (user_enter_history, None)
  else ({[key]} ∪ user_enter_history,
        Some (mkEnter user_uid clean_name source)).


End Normalizer.

(** ** The request signer ([core/wbi_sign.py]) *)

Module Wbi.

Definition MIXIN_KEY_ENC_TAB : list nat :=
  [46; 47; 18; 2; 53; 8; 23; 32; 15; 50; 10; 31; 58; 3; 45; 35; 27; 43; 5; 49;
   33; 9; 42; 19; 29; 28; 14; 39; 12; 38; 41; 13; 37; 48; 7; 16; 24; 55; 40;
   61; 26; 17; 0; 1; 60; 51; 30; 4; 22; 25; 54; 21; 56; 59; 6; 63; 57; 62; 11;
   36; 20; 34; 44; 52]%nat.

(** [orig_key[i]], an [IndexError] out of range. *)
Definition char_at (orig_key : str) (i : nat) : result str :=
  match orig_key !! i with
  | Some c => Ok [c]
  | None => Raise IndexError
  end.

(** [_get_mixin_key]: [reduce(lambda s, i: s + orig_key[i], TAB, "")[:32]]. *)
Definition get_mixin_key (orig_key : str) : result str :=
  match
    fold_left
      (fun (acc : result str) (i : nat) =>
         match acc with
         | Raise e => Raise e
         | Ok s =>
             match char_at orig_key i with
             | Ok c => Ok (s ++ c)
             | Raise e => Raise e
             end
         end)
      MIXIN_KEY_ENC_TAB (Ok [])
  with
  | Ok s => Ok (take 32 s)
  | Raise e => Raise e
  end.


(** A dict with [str] keys, in insertion order. *)
Definition odict (V : Type) : Type := list (str * V).

(** [d[key] = value]: in place when the key is there, else at the end. *)
Fixpoint dict_set {V} (key : str) (value : V) (d : odict V) : odict V :=
  match d with
  | [] => [(key, value)]
  | (k, v) :: rest =>
      if bool_decide (k = key) then (k, value) :: rest
      else (k, v) :: dict_set key value rest
  end.

Fixpoint dict_get {V} (key : str) (d : odict V) : option V :=
  match d with
  | [] => None
  | (k, v) :: rest => if bool_decide (k = key) then Some v else dict_get key rest
  end.

(** Order of [str]: by code points, a proper prefix first. *)
Fixpoint str_leb (a b : str) : bool :=
  match a, b with
  | [], _ => true
  | _ :: _, [] => false
  | x :: a', y :: b' => (x <? y) || ((x =? y) && str_leb a' b')
  end.

(** [sorted(params.items())]: the keys of a dict differ, so the order of
    the pairs is the order of their keys. *)
Fixpoint insert_sorted {V} (item : str * V) (l : odict V) : odict V :=
  match l with
  | [] => [item]
  | x :: rest =>
      if str_leb (fst item) (fst x) then item :: l
      else x :: insert_sorted item rest
  end.

Definition sorted {V} (d : odict V) : odict V :=
  foldr insert_sorted [] d.

(** [str(v)]. *)
Definition to_str (v : pyval) : str :=
  match v with
  | VInt z => str_of_Z z
  | VStr s => s
  end.

(** ["".join(filter(lambda chr: chr not in "!()*", str(v)))]. *)
Definition strip_chars (v : pyval) : str :=
  List.filter (fun c => negb (bool_decide (c ∈ lit "!()*"))) (to_str v).

Section Sign.

(** [urllib.parse.urlencode] on a dict of strings. *)
Variable urlencode : odict str -> str.

(** [hashlib.md5(s.encode()).hexdigest()]. *)
Variable md5_hexdigest : str -> str.

(** The sorted and filtered parameters that are signed. *)
Definition signed_params (params : odict pyval) (curr_time : Z) : odict str :=
  (fun kv => (fst kv, strip_chars (snd kv)))
    <$> sorted (dict_set (lit "wts") (VInt curr_time) params).

(** [sign_params] once the two keys and the time are known. *)
Definition sign_params (img_key sub_key : str) (curr_time : Z)
    (params : odict pyval) : result (odict str) :=
  match get_mixin_key (img_key ++ sub_key) with
  | Raise e => Raise e
  | Ok mixin_key =>
      let params := signed_params params curr_time in
      let query := urlencode params in
      let wbi_sign := md5_hexdigest (query ++ mixin_key) in
      Ok (dict_set (lit "w_rid") wbi_sign params)
  end.

End Sign.

(** Stand-ins for the two library functions, for running [sign_params]
    on an example: [key=value] pairs joined by [&] without escaping, and
    a digest that is its input. *)
Definition plain_urlencode (params : odict str) : str :=
  concat ((fun kv => kv.1 ++ lit "=" ++ kv.2 ++ lit "&") <$> params).

Definition plain_digest (s : str) : str := s.

(** Two keys of 32 characters each. *)
Definition sample_img_key : str := lit "7cd084941338484aae1ad9425b84077c".
Definition sample_sub_key : str := lit "4932caff0ff746eab6f01bf08b70ac45".

(** The order of two items of a dict: the order of their keys. *)
Definition key_le {V} (a b : str * V) : Prop := str_leb a.1 b.1 = true.



End Wbi.

(** ** Serialising headers, sending packets, the receive loop
    ([core/danmaku.py]) *)

Module Wire.
Import Frame.

(** A value [struct.pack] accepts for an unsigned field of [bits] bits. *)
Definition fits (bits x : Z) : bool := (0 <=? x) && (x <? 2 ^ bits).

Definition byte_at (x shift : Z) : byte :=
  LiteRecord.byte_of_Z (Z.land (Z.shiftr x shift) 255).

Definition pack_u16 (x : Z) : list byte := [byte_at x 8; byte_at x 0].

Definition pack_u32 (x : Z) : list byte :=
  [byte_at x 24; byte_at x 16; byte_at x 8; byte_at x 0].

(** [PacketHeader.to_bytes]: [struct.Struct('>I2H2I').pack], which raises
    [struct.error] on a field that does not fit. *)
Definition to_bytes (h : PacketHeader) : result (list byte) :=
  if fits 32 (packet_length h) && fits 16 (header_length h)
     && fits 16 (protocol_version h) && fits 32 (operation h)
     && fits 32 (sequence_id h)
  then Ok (pack_u32 (packet_length h) ++ pack_u16 (header_length h)
           ++ pack_u16 (protocol_version h) ++ pack_u32 (operation h)
           ++ pack_u32 (sequence_id h))
  else Raise StructError.

(** The fields [struct.pack] accepts. *)
Definition packable (h : PacketHeader) : Prop :=
  0 <= packet_length h < 2 ^ 32 /\ 0 <= header_length h < 2 ^ 16
  /\ 0 <= protocol_version h < 2 ^ 16 /\ 0 <= operation h < 2 ^ 32
  /\ 0 <= sequence_id h < 2 ^ 32.

(** The header [_send_packet] builds for a body of [n] bytes. *)
Definition send_header (operation : Z) (n : nat) : PacketHeader :=
  mkHeader (Z.of_nat n + 16) 16 1 operation 1.

Section Send.

(** [str.encode('utf-8')]. *)
Variable encode : str -> list byte.

(** [_send_packet]: the bytes given to [ws.send]. *)
Definition send_packet (operation : Z) (body : str) : result (list byte) :=
  let body_bytes := encode body in
  match to_bytes (send_header operation (length body_bytes)) with
  | Ok header => Ok (header ++ body_bytes)
  | Raise e => Raise e
  end.

End Send.

(** A stand-in for the encoding of a text of ASCII characters. *)
Definition ascii_encode (s : str) : list byte := LiteRecord.byte_of_Z <$> s.

Section Receive.

Variable zlib_decompress : list byte -> result (list byte).
Variable brotli : option (list byte -> result (list byte)).
Variable dispatch_raises : list byte -> bool.
Variable on_online : Z -> bool.

(** One turn of [_receive_loop] in which [recv] returns [data]:
    [self.buffer.extend(data)], then [_handle_packet(self.buffer)];
    [None] when a handler does not come back. *)
Definition receive (msg_fuel : nat) (buffer data : list byte)
  : option (list frame * list byte) :=
  handle_packet zlib_decompress brotli dispatch_raises on_online msg_fuel
    (buffer ++ data).

(** The turns of [_receive_loop] for the successive results of [recv]:
    all the frames processed, in order, and the buffer at the end. *)
Fixpoint receive_all (msg_fuel : nat) (buffer : list byte)
    (reads : list (list byte)) : option (list frame * list byte) :=
  match reads with
  | [] => Some ([], buffer)
  | data :: reads' =>
      match receive msg_fuel buffer data with
      | None => None
      | Some (frames, buffer') =>
          match receive_all msg_fuel buffer' reads' with
          | None => None
          | Some (frames', buffer'') => Some (frames ++ frames', buffer'')
          end
      end
  end.

End Receive.

(** A frame the splitter hands over lies in the buffer: it is the
    well-formed frame that starts at some [offset]. *)
Definition frame_in (buffer : list byte) (fr : frame) : Prop :=
  exists offset f,
    f = slice offset (offset + length f) buffer
    /\ (offset + length f <= length buffer)%nat
    /\ is_frame f = true
    /\ fr = frame_of f.

End Wire.

(** ** The nested user record of the decoder *)

Module UserInfo.
Import LiteRecord.

(** What [_parse_user_info] stores for one field: the avatar (field 1)
    and the name (field 2) when they decode as UTF-8. *)
Definition store_user_field (res : gmap string pyval) (fd : field)
  : gmap string pyval :=
  match fd with
  | FBytes field_num data =>
      match utf8_decode data with
      | Some string_value =>
          if field_num =? 1 then <["face" := VStr string_value]> res
          else if field_num =? 2 then <["name" := VStr string_value]> res
          else res
      | None => res
      end
  | FVarint _ _ | FFixed32 _ _ _ _ _ => res
  end.

End UserInfo.

(** ** The plugin table of the bus ([core/plugin_system.py]) *)

Module Plugins.
Import Bus.

(** The event types of the [if/elif] chain of [process_event]. *)
Definition known_events : list string :=
  ["danmaku"; "gift"; "guard"; "superchat"; "interact"; "online"].

(** [plugin.enabled = enabled]. *)
Definition set_enabled (b : bool) (p : plugin) : plugin :=
  mkPlugin (name p) b (on_danmaku p) (on_gift p) (on_guard p)
           (on_superchat p) (on_interact p) (on_online p).

(** [get_plugin]: [self.plugins.get(plugin_name)]; the dict is keyed by
    the names of the plugins, in the order of their loading. *)
Definition get_plugin (plugins : list plugin) (plugin_name : string)
  : option plugin :=
  snd <$> list_find (fun p => String.eqb (name p) plugin_name = true) plugins.

(** [toggle_plugin]: the plugins, the stored states and the returned
    flag.  The [on_enable] and [on_disable] hooks belong to the plugin
    and are left out. *)
Definition toggle_plugin (plugins : list plugin)
    (plugin_states : gmap string bool) (plugin_name : string) (enabled : bool)
  : list plugin * gmap string bool * bool :=
  match get_plugin plugins plugin_name with
  | Some _ =>
      ((fun p => if String.eqb (name p) plugin_name
                 then set_enabled enabled p else p) <$> plugins,
       <[plugin_name := enabled]> plugin_states, true)
  | None => (plugins, plugin_states, false)
  end.

End Plugins.

(** ** The shape of a cleaned user name *)

Module NameShape.
Import Normalizer.

(** A string that does not begin with white space. *)
Definition head_ok (s : str) : Prop :=
  match s with
  | [] => True
  | c :: _ => is_space c = false
  end.

(** A character [_clean_username] lets through: no control character,
    and no white space but the plain space. *)
Definition shown_char (c : Z) : Prop :=
  32 <= c /\ (is_space c = true -> c = 32).

(** A word: not empty, and without white space. *)
Definition nonspace (w : str) : Prop := Forall (fun c => is_space c = false) w.

Definition word_ok (w : str) : Prop := w <> [] /\ nonspace w.

(** Words with one plain space between them. *)
Definition normal (s : str) : Prop :=
  exists ws, Forall word_ok ws /\ s = join (lit " ") ws.

End NameShape.

(** ** The ids of the bot's own messages ([PluginBase]) *)

Module BotMessages.

(** [v1 or v2] on two optional texts: the first that is there and not
    empty. *)
Definition or_text (v1 v2 : option str) : option str :=
  match v1 with
  | Some (_ :: _) => v1
  | _ => v2
  end.

(** [is_bot_message], from the values of the keys [msg_id] and [id] of
    the event. *)
Definition is_bot_message (bot_messages : gset str)
    (msg_id id : option str) : bool :=
  match or_text msg_id id with
  | Some (c :: s) => bool_decide (c :: s ∈ bot_messages)
  | _ => false
  end.

Section Mark.

(** [list(self.bot_messages)]: the elements of the set in the order the
    interpreter walks it. *)
Variable enumerate : gset str -> list str.

(** [mark_as_bot_message]. *)
Definition mark_as_bot_message (bot_messages : gset str) (msg_id : str)
  : gset str :=
  let bot_messages := {[msg_id]} ∪ bot_messages in
  if (1000 <? size bot_messages)%nat
  then list_to_set (drop 500 (enumerate bot_messages))
  else bot_messages.

End Mark.

End BotMessages.

(** * Properties *)

(** ** Bytes and big-endian integers *)

Lemma bz_range (b : byte) : 0 <= bz b < 256.
Proof.
  unfold bz. pose proof (Byte.to_N_bounded b) as Hb. lia.
Qed.

Lemma lor_shiftl_small (a b n : Z) :
  0 <= n -> 0 <= b < 2 ^ n -> Z.lor (Z.shiftl a n) b = a * 2 ^ n + b.
Proof.
  intros Hn Hb.
  rewrite <- Z.shiftl_mul_pow2 by lia.
  rewrite <- Z.add_lor_land.
  assert (Hland : Z.land (Z.shiftl a n) b = 0).
  { apply Z.bits_inj'. intros k Hk.
    rewrite Z.land_spec, Z.bits_0.
    destruct (Z.lt_ge_cases k n) as [Hlt | Hge].
    - rewrite Z.shiftl_spec_low by lia. reflexivity.
    - rewrite <- (Z.mod_small b (2 ^ n)) by lia.
      rewrite Z.mod_pow2_bits_high by lia.
      apply andb_false_r. }
  rewrite Hland. lia.
Qed.

Lemma u16_value (b0 b1 : byte) :
  Frame.u16 b0 b1 = bz b0 * 256 + bz b1.
Proof.
  unfold Frame.u16.
  pose proof (bz_range b1).
  rewrite lor_shiftl_small by lia. lia.
Qed.

Lemma u32_value (b0 b1 b2 b3 : byte) :
  Frame.u32 b0 b1 b2 b3
  = ((bz b0 * 256 + bz b1) * 256 + bz b2) * 256 + bz b3.
Proof.
  unfold Frame.u32.
  pose proof (bz_range b0). pose proof (bz_range b1).
  pose proof (bz_range b2). pose proof (bz_range b3).
  rewrite (lor_shiftl_small (bz b2) (bz b3) 8) by lia.
  rewrite (lor_shiftl_small (bz b1) _ 16) by lia.
  rewrite (lor_shiftl_small (bz b0) _ 24) by lia.
  lia.
Qed.

(** ** The frame header *)

Module FrameFacts.
Import Frame.

Lemma unpack_be_take (data : list byte) :
  (16 <= length data)%nat ->
  unpack_be (take 16 data) = Ok (header_of data).
Proof.
  intros Hlen.
  do 16 (destruct data as [| ? data]; [simpl in Hlen; lia |]).
  cbn [take unpack_be].
  rewrite firstn_O.
  unfold header_of, slice, be_uint. cbn [take drop fold_left Nat.sub].
  rewrite !u32_value, !u16_value. f_equal.
Qed.

Lemma from_bytes_ok (data : list byte) :
  (16 <= length data)%nat -> from_bytes data = Ok (header_of data).
Proof.
  intros Hlen. unfold from_bytes.
  assert (Hlt : (length data <? 16)%nat = false) by (apply Nat.ltb_ge; lia).
  rewrite Hlt, unpack_be_take by exact Hlen. reflexivity.
Qed.

Lemma from_bytes_short (data : list byte) :
  (length data < 16)%nat -> from_bytes data = Raise ValueError.
Proof.
  intros Hlen. unfold from_bytes.
  apply Nat.ltb_lt in Hlen. rewrite Hlen. reflexivity.
Qed.

(** C10.  [PacketHeader.from_bytes] raises [ValueError] exactly on inputs
    shorter than 16 bytes; on every longer input, whatever its bytes, it
    returns the header whose five fields are the big-endian u32, u16,
    u16, u32, u32 readings of the first 16 bytes. *)
Theorem from_bytes_total (data : list byte) :
  from_bytes data =
  if (length data <? 16)%nat then Raise ValueError
  else Ok (header_of data).
Proof.
  destruct (length data <? 16)%nat eqn:Hlen.
  - apply from_bytes_short, Nat.ltb_lt, Hlen.
  - apply from_bytes_ok, Nat.ltb_ge, Hlen.
Qed.

End FrameFacts.

(** ** The stream splitter *)

Module SplitterFacts.
Import Frame FrameFacts.

Lemma header_of_app (f rest : list byte) :
  (16 <= length f)%nat -> header_of (f ++ rest) = header_of f.
Proof.
  intros Hlen. unfold header_of, slice.
  rewrite !drop_app_le by lia.
  rewrite !take_app_le by (rewrite length_drop; lia).
  reflexivity.
Qed.

Lemma is_frame_spec (f : list byte) :
  is_frame f = true ->
  (16 <= length f)%nat /\ valid_header (header_of f) = true
  /\ packet_length (header_of f) = Z.of_nat (length f).
Proof.
  unfold is_frame. intros H.
  destruct (Nat.lt_ge_cases (length f) 16) as [Hlt | Hge].
  - rewrite from_bytes_short in H by exact Hlt. discriminate.
  - rewrite from_bytes_ok in H by exact Hge.
    apply andb_true_iff in H as [Hv Hl]. apply Z.eqb_eq in Hl.
    auto.
Qed.

(** What the scan returns is an accepted header, found less than [n]
    positions after the first one tried. *)
Lemma sync_scan_found (buffer : list byte) (offset : nat) :
  forall n sync_offset offset' h,
    sync_scan buffer offset sync_offset n = Some (offset', h) ->
    valid_header h = true
    /\ from_bytes (drop offset' buffer) = Ok h
    /\ (offset + sync_offset <= offset' < offset + sync_offset + n)%nat.
Proof.
  induction n as [| n IH]; intros sync_offset offset' h Hscan;
    [discriminate |].
  cbn [sync_scan] in Hscan.
  destruct (from_bytes (drop (offset + sync_offset) buffer)) as [th | e] eqn:Hfb.
  - destruct (valid_header th) eqn:Hv.
    + inversion Hscan; subst. repeat split; auto; lia.
    + apply IH in Hscan as (? & ? & ?). repeat split; auto; lia.
  - apply IH in Hscan as (? & ? & ?). repeat split; auto; lia.
Qed.

(** A scan that starts on an accepted header stops there. *)
Lemma sync_scan_here (buffer : list byte) (offset n : nat) (h : PacketHeader) :
  from_bytes (drop offset buffer) = Ok h ->
  valid_header h = true ->
  sync_scan buffer offset 0 (S n) = Some (offset, h).
Proof.
  intros Hfb Hv. cbn [sync_scan].
  rewrite Nat.add_0_r, Hfb, Hv. reflexivity.
Qed.

Lemma valid_header_length (h : PacketHeader) :
  valid_header h = true -> 16 <= packet_length h <= 10000.
Proof.
  unfold valid_header. rewrite !andb_true_iff. lia.
Qed.

Lemma slice_frame_body (pre f rest : list byte) :
  (16 <= length f)%nat ->
  slice (length pre + 16) (length pre + length f) (pre ++ f ++ rest)
  = drop 16 f.
Proof.
  intros Hlen. unfold slice.
  rewrite <- drop_drop, drop_app_length.
  rewrite drop_app_le by lia.
  rewrite take_app_le by (rewrite length_drop; lia).
  apply take_ge. rewrite length_drop. lia.
Qed.

Lemma frames_length (fs : list (list byte)) :
  Forall (fun f => is_frame f = true) fs ->
  (length fs <= length (concat fs))%nat.
Proof.
  induction 1 as [| f fs Hf _ IH]; [simpl; lia |].
  apply is_frame_spec in Hf as (H16 & _).
  cbn [concat length]. rewrite length_app. lia.
Qed.

(** The scan looks at no more than 16 positions. *)
Lemma sync_scan_window (buffer : list byte) (offset m offset' : nat)
    (h : PacketHeader) :
  sync_scan buffer offset 0 (Nat.min 16 m) = Some (offset', h) ->
  (offset <= offset' < offset + 16)%nat /\ valid_header h = true.
Proof.
  intros Hscan. apply sync_scan_found in Hscan as (Hv & _ & Hoff).
  split; [lia | exact Hv].
Qed.

(** The byte before a well-formed frame never completes an accepted
    header: its [header_length] field is a multiple of 256. *)
Lemma shifted_header_invalid (c : byte) (f : list byte) :
  is_frame f = true -> valid_header (header_of (c :: f)) = false.
Proof.
  intros Hf. apply is_frame_spec in Hf as (H16 & Hv & _).
  do 16 (destruct f as [| ? f]; [simpl in H16; lia |]).
  unfold valid_header in *. rewrite !andb_true_iff in Hv.
  destruct Hv as [[[_ Hhl] _] _]. apply Z.eqb_eq in Hhl.
  unfold header_of, slice, be_uint in *.
  cbn [take drop fold_left Nat.sub header_length] in *.
  match goal with
  | |- context [?x =? 16] =>
      assert (Hne : (x =? 16) = false); [| rewrite Hne]
  end.
  - apply Z.eqb_neq.
    match type of Hhl with
    | (_ + bz ?x) * 256 + bz ?y = 16 =>
        pose proof (bz_range x); pose proof (bz_range y)
    end.
    match goal with
    | |- (_ + bz ?x) * 256 + _ <> 16 => pose proof (bz_range x)
    end.
    lia.
  - rewrite andb_false_r. reflexivity.
Qed.

Section Loop.

Variable zlib : list byte -> result (list byte).
Variable brotli : option (list byte -> result (list byte)).
Variable raises : list byte -> bool.
Variable online : Z -> bool.
Variable msg_fuel : nat.

Lemma handled_spec (f : list byte) :
  handled zlib brotli raises online msg_fuel f = true ->
  handle_frame zlib brotli raises online msg_fuel (header_of f, drop 16 f)
  = Some tt.
Proof.
  unfold handled, frame_of.
  destruct (handle_frame _ _ _ _ _ _) as [[] |]; [reflexivity | discriminate].
Qed.

(** The loop itself ends: each turn breaks or moves the cursor forward.
    It returns when the handlers it calls come back. *)
Lemma handle_loop_returns (buffer : list byte) :
  (forall fr,
      is_Some (handle_frame zlib brotli raises online msg_fuel fr)) ->
  forall fuel offset error_count frames,
    (length buffer - offset < fuel)%nat ->
    is_Some (handle_loop zlib brotli raises online msg_fuel fuel buffer offset
               error_count frames).
Proof.
  intros Hback.
  induction fuel as [| fuel IH]; intros offset error_count frames Hfuel;
    [lia |].
  cbn [handle_loop].
  destruct (negb _); [eauto |].
  destruct (length buffer - offset <? 16)%nat eqn:Hshort; [eauto |].
  apply Nat.ltb_ge in Hshort.
  destruct (sync_scan _ _ _ _) as [[offset' header] |] eqn:Hscan.
  - apply sync_scan_found in Hscan as (Hv & _ & Hoff).
    apply valid_header_length in Hv.
    destruct (_ <? packet_length header); [eauto |].
    destruct (Hback (header,
                     slice (offset' + 16)
                       (Z.to_nat (Z.of_nat offset' + packet_length header))
                       buffer)) as [u ->].
    apply IH. lia.
  - apply IH. lia.
Qed.

(** [_handle_packet] returns on every buffer when the handlers come
    back. *)
Lemma handle_packet_returns (buffer : list byte) :
  (forall fr,
      is_Some (handle_frame zlib brotli raises online msg_fuel fr)) ->
  is_Some (handle_packet zlib brotli raises online msg_fuel buffer).
Proof.
  intros Hback. unfold handle_packet.
  destruct (handle_loop_returns buffer Hback (S (length buffer)) 0 0 [])
    as [e He]; [lia |].
  rewrite He.
  destruct (_ <=? _)%nat; [eauto |].
  destruct (_ <? _)%nat; eauto.
Qed.

(** One turn of the loop on a well-formed frame that is followed by at
    least one more byte, or is itself longer than its header, and whose
    handler comes back. *)
Lemma handle_loop_frame (fuel : nat) (pre f rest : list byte)
    (error_count : nat) (frames : list frame) :
  is_frame f = true ->
  handled zlib brotli raises online msg_fuel f = true ->
  (17 <= length f + length rest)%nat ->
  (error_count < max_errors)%nat ->
  handle_loop zlib brotli raises online msg_fuel (S fuel) (pre ++ f ++ rest)
    (length pre) error_count frames
  = handle_loop zlib brotli raises online msg_fuel fuel (pre ++ f ++ rest)
      (length pre + length f) 0 (frames ++ [frame_of f]).
Proof.
  intros Hf Hh Hlen Hec.
  apply is_frame_spec in Hf as (H16 & Hv & Hpl).
  apply handled_spec in Hh.
  cbn [handle_loop]. rewrite !length_app.
  assert (Hcond : ((length pre <? length pre + (length f + length rest))%nat
                   && (error_count <? max_errors)%nat) = true).
  { apply andb_true_iff. split; apply Nat.ltb_lt; lia. }
  rewrite Hcond. cbn [negb].
  assert (Hshort : (length pre + (length f + length rest) - length pre <? 16)%nat
                   = false) by (apply Nat.ltb_ge; lia).
  rewrite Hshort.
  destruct (Nat.min 16 _) as [| n] eqn:Hmin; [lia |].
  rewrite (sync_scan_here _ _ n (header_of f)).
  - rewrite Hpl.
    assert (Hfull : (Z.of_nat (length pre + (length f + length rest) - length pre)
                     <? Z.of_nat (length f)) = false) by (apply Z.ltb_ge; lia).
    rewrite Hfull.
    replace (Z.to_nat (Z.of_nat (length pre) + Z.of_nat (length f)))
      with (length pre + length f)%nat by lia.
    rewrite slice_frame_body by exact H16. rewrite Hh. reflexivity.
  - rewrite drop_app_length, from_bytes_ok by (rewrite length_app; lia).
    rewrite header_of_app by exact H16. reflexivity.
  - exact Hv.
Qed.

(** The same turn when the handler does not come back: the loop does
    not return. *)
Lemma handle_loop_stuck (fuel : nat) (pre f rest : list byte)
    (error_count : nat) (frames : list frame) :
  is_frame f = true ->
  handled zlib brotli raises online msg_fuel f = false ->
  (17 <= length f + length rest)%nat ->
  (error_count < max_errors)%nat ->
  handle_loop zlib brotli raises online msg_fuel (S fuel) (pre ++ f ++ rest)
    (length pre) error_count frames
  = None.
Proof.
  intros Hf Hh Hlen Hec.
  apply is_frame_spec in Hf as (H16 & Hv & Hpl).
  unfold handled, frame_of in Hh.
  cbn [handle_loop]. rewrite !length_app.
  assert (Hcond : ((length pre <? length pre + (length f + length rest))%nat
                   && (error_count <? max_errors)%nat) = true).
  { apply andb_true_iff. split; apply Nat.ltb_lt; lia. }
  rewrite Hcond. cbn [negb].
  assert (Hshort : (length pre + (length f + length rest) - length pre <? 16)%nat
                   = false) by (apply Nat.ltb_ge; lia).
  rewrite Hshort.
  destruct (Nat.min 16 _) as [| n] eqn:Hmin; [lia |].
  rewrite (sync_scan_here _ _ n (header_of f)).
  - rewrite Hpl.
    assert (Hfull : (Z.of_nat (length pre + (length f + length rest) - length pre)
                     <? Z.of_nat (length f)) = false) by (apply Z.ltb_ge; lia).
    rewrite Hfull.
    replace (Z.to_nat (Z.of_nat (length pre) + Z.of_nat (length f)))
      with (length pre + length f)%nat by lia.
    rewrite slice_frame_body by exact H16.
    destruct (handle_frame _ _ _ _ _ _); [discriminate | reflexivity].
  - rewrite drop_app_length, from_bytes_ok by (rewrite length_app; lia).
    rewrite header_of_app by exact H16. reflexivity.
  - exact Hv.
Qed.

(** A run of well-formed frames is consumed frame by frame, in order. *)
Lemma handle_loop_frames (fs : list (list byte)) :
  forall fuel pre tail error_count frames,
    Forall (fun f => is_frame f = true) fs ->
    Forall (fun f => handled zlib brotli raises online msg_fuel f = true) fs ->
    followed fs tail ->
    (error_count < max_errors)%nat ->
    fs <> [] ->
    handle_loop zlib brotli raises online msg_fuel (length fs + fuel)
      (pre ++ concat fs ++ tail) (length pre) error_count frames
    = handle_loop zlib brotli raises online msg_fuel fuel
        (pre ++ concat fs ++ tail)
        (length pre + length (concat fs)) 0 (frames ++ (frame_of <$> fs)).
Proof.
  induction fs as [| f fs IH];
    intros fuel pre tail error_count frames Hfs Hhs Hfol Hec Hne; [done |].
  inversion Hfs as [| ? ? Hf Hfs']; subst.
  inversion Hhs as [| ? ? Hh Hhs']; subst.
  destruct Hfol as [Hlen Hfol].
  cbn [concat length Nat.add]. rewrite <- !app_assoc.
  rewrite handle_loop_frame by done.
  destruct fs as [| g fs].
  - cbn [concat fmap list_fmap app length Nat.add].
    rewrite app_nil_r. reflexivity.
  - specialize (IH fuel (pre ++ f) tail 0%nat (frames ++ [frame_of f])).
    rewrite <- !app_assoc, length_app in IH.
    rewrite IH by (done || (unfold max_errors; lia)).
    f_equal. rewrite length_app. lia.
Qed.

(** The loop on what is left after the last whole frame: a part of a
    frame shorter than a header stays where it is. *)
Lemma handle_loop_short_tail (fuel : nat) (pre tail : list byte)
    (error_count : nat) (frames : list frame) :
  (length tail < 16)%nat ->
  handle_loop zlib brotli raises online msg_fuel (S fuel) (pre ++ tail)
    (length pre) error_count frames
  = Some (mkExit (length pre) error_count frames).
Proof.
  intros Hlen. cbn [handle_loop]. rewrite length_app.
  destruct (negb _); [reflexivity |].
  assert (Hshort : (length pre + length tail - length pre <? 16)%nat = true)
    by (apply Nat.ltb_lt; lia).
  rewrite Hshort. reflexivity.
Qed.

(** A part of a frame that holds the header and at least one more byte,
    but not the whole body, stays where it is too. *)
Lemma handle_loop_long_tail (fuel k : nat) (pre g : list byte)
    (error_count : nat) (frames : list frame) :
  is_frame g = true ->
  (17 <= k < length g)%nat ->
  (error_count < max_errors)%nat ->
  handle_loop zlib brotli raises online msg_fuel (S fuel) (pre ++ take k g)
    (length pre) error_count frames
  = Some (mkExit (length pre) error_count frames).
Proof.
  intros Hg Hk Hec.
  apply is_frame_spec in Hg as (H16 & Hv & Hpl).
  assert (Hlen : length (take k g) = k) by (rewrite length_take; lia).
  assert (Hhead : header_of (take k g) = header_of g).
  { rewrite <- (take_drop k g) at 2.
    rewrite header_of_app by lia. reflexivity. }
  cbn [handle_loop]. rewrite length_app, Hlen.
  assert (Hcond : ((length pre <? length pre + k)%nat
                   && (error_count <? max_errors)%nat) = true).
  { apply andb_true_iff. split; apply Nat.ltb_lt; lia. }
  rewrite Hcond. cbn [negb].
  assert (Hshort : (length pre + k - length pre <? 16)%nat = false)
    by (apply Nat.ltb_ge; lia).
  rewrite Hshort.
  destruct (Nat.min 16 _) as [| n] eqn:Hmin; [lia |].
  rewrite (sync_scan_here _ _ n (header_of g)).
  - rewrite Hpl.
    assert (Hpart : (Z.of_nat (length pre + k - length pre)
                     <? Z.of_nat (length g)) = true) by (apply Z.ltb_lt; lia).
    rewrite Hpart. reflexivity.
  - rewrite drop_app_length, from_bytes_ok, Hhead by lia. reflexivity.
  - exact Hv.
Qed.

(** The splitter on a run of well-formed frames followed by a part of one
    more, when the handlers come back on the frames of the run: all the
    frames of the run are processed, in order, and the part stays in the
    buffer.  The two cases left out are those where exactly 16 bytes
    remain at a frame start. *)
Lemma handle_packet_frames (fs : list (list byte)) (g : list byte) (k : nat) :
  Forall (fun f => is_frame f = true) fs ->
  Forall (fun f => handled zlib brotli raises online msg_fuel f = true) fs ->
  is_frame g = true ->
  (k < length g)%nat ->
  k <> 16%nat ->
  followed fs (take k g) ->
  handle_packet zlib brotli raises online msg_fuel (concat fs ++ take k g)
  = Some (frame_of <$> fs, take k g).
Proof.
  intros Hfs Hhs Hg Hk H16 Hfol.
  pose proof (frames_length fs Hfs) as Hcount.
  assert (Htail : forall fuel frames,
             handle_loop zlib brotli raises online msg_fuel (S fuel)
               (concat fs ++ take k g) (length (concat fs)) 0 frames
             = Some (mkExit (length (concat fs)) 0 frames)).
  { intros fuel frames.
    destruct (Nat.lt_ge_cases k 16) as [Hlt | Hge].
    - apply handle_loop_short_tail. rewrite length_take. lia.
    - apply handle_loop_long_tail; [done | lia | unfold max_errors; lia]. }
  unfold handle_packet.
  destruct fs as [| f fs].
  - cbn [concat app length] in *. rewrite Htail. cbn.
    reflexivity.
  - replace (S (length (concat (f :: fs) ++ take k g)))
      with (length (f :: fs)
            + S (length (concat (f :: fs) ++ take k g) - length (f :: fs)))%nat
      by (rewrite length_app; lia).
    pose proof (handle_loop_frames (f :: fs)
                  (S (length (concat (f :: fs) ++ take k g) - length (f :: fs)))
                  [] (take k g) 0 []) as Hrun.
    cbn [app length Nat.add] in Hrun.
    cbn [length Nat.add].
    rewrite Hrun by (done || (unfold max_errors; lia)).
    rewrite Htail.
    cbn [exit_errors exit_offset exit_frames app].
    assert (Hpos : (0 <? length (concat (f :: fs)))%nat = true).
    { apply Nat.ltb_lt. cbn [length] in Hcount. lia. }
    rewrite Hpos. cbn. rewrite drop_app_length. reflexivity.
Qed.

(** The error counter never passes [max_errors]. *)
Lemma handle_loop_errors (buffer : list byte) :
  forall fuel offset error_count frames e,
    (error_count <= max_errors)%nat ->
    handle_loop zlib brotli raises online msg_fuel fuel buffer offset
      error_count frames = Some e ->
    (exit_errors e <= max_errors)%nat.
Proof.
  induction fuel as [| fuel IH]; intros offset error_count frames e Hec Hrun.
  - cbn [handle_loop] in Hrun.
    destruct (negb _); [| discriminate].
    inversion Hrun; subst. exact Hec.
  - cbn [handle_loop] in Hrun.
    destruct (negb _) eqn:Hcond.
    { inversion Hrun; subst. exact Hec. }
    apply negb_false_iff, andb_true_iff in Hcond as [_ Hlt].
    apply Nat.ltb_lt in Hlt.
    destruct (_ <? 16)%nat.
    { inversion Hrun; subst. exact Hec. }
    destruct (sync_scan _ _ _ _) as [[offset' header] |].
    + destruct (_ <? packet_length header).
      * inversion Hrun; subst. exact Hec.
      * destruct (handle_frame _ _ _ _ _ _); [| discriminate].
        eapply IH; [| exact Hrun]. unfold max_errors. lia.
    + eapply IH; [| exact Hrun]. lia.
Qed.

(** After [max_errors] skips in a row the whole buffer is thrown away. *)
Lemma handle_packet_discards (buffer : list byte) (e : loop_exit) :
  handle_loop zlib brotli raises online msg_fuel (S (length buffer)) buffer
    0 0 [] = Some e ->
  (max_errors <= exit_errors e)%nat ->
  handle_packet zlib brotli raises online msg_fuel buffer
  = Some (exit_frames e, []).
Proof.
  intros Hrun Herr. unfold handle_packet. rewrite Hrun.
  apply Nat.leb_le in Herr. rewrite Herr. reflexivity.
Qed.

Lemma handle_packet_discards_zeros :
  handle_packet zlib brotli raises online msg_fuel (replicate 24 x00%byte)
  = Some ([], []).
Proof. reflexivity. Qed.

(** The same happens to a part of a frame that is exactly its header:
    the part does not stay untouched in the buffer. *)
Lemma handle_packet_header_part :
  handle_packet zlib brotli raises online msg_fuel
    (take 16 (auth_reply_empty ++ [x00]%byte))
  = Some ([], drop 1 auth_reply_empty).
Proof. reflexivity. Qed.

(** One turn of the loop that finds an accepted header with its whole
    frame in the buffer, and whose handler comes back. *)
Lemma handle_loop_found (fuel : nat) (buffer : list byte)
    (offset error_count : nat) (frames : list frame)
    (offset' : nat) (header : PacketHeader) :
  (offset < length buffer)%nat ->
  (error_count < max_errors)%nat ->
  (16 <= length buffer - offset)%nat ->
  sync_scan buffer offset 0 (Nat.min 16 (length buffer - offset - 16))
  = Some (offset', header) ->
  packet_length header <= Z.of_nat (length buffer - offset') ->
  handle_frame zlib brotli raises online msg_fuel
    (header,
     slice (offset' + 16) (Z.to_nat (Z.of_nat offset' + packet_length header))
       buffer)
  = Some tt ->
  handle_loop zlib brotli raises online msg_fuel (S fuel) buffer offset
    error_count frames
  = handle_loop zlib brotli raises online msg_fuel fuel buffer
      (Z.to_nat (Z.of_nat offset' + packet_length header)) 0
      (frames ++ [(header,
                   slice (offset' + 16)
                     (Z.to_nat (Z.of_nat offset' + packet_length header))
                     buffer)]).
Proof.
  intros Hoff Hec Hlen Hscan Hfull Hback.
  cbn [handle_loop].
  apply Nat.ltb_lt in Hoff, Hec. rewrite Hoff, Hec. cbn [andb negb].
  apply Nat.ltb_ge in Hlen. rewrite Hlen, Hscan.
  apply Z.ltb_ge in Hfull. rewrite Hfull, Hback. reflexivity.
Qed.

(** The loop stops once the cursor is at the end of the buffer. *)
Lemma handle_loop_end (fuel : nat) (buffer : list byte)
    (offset error_count : nat) (frames : list frame) :
  (length buffer <= offset)%nat ->
  handle_loop zlib brotli raises online msg_fuel fuel buffer offset
    error_count frames
  = Some (mkExit offset error_count frames).
Proof.
  intros Hoff. apply Nat.ltb_ge in Hoff.
  destruct fuel; cbn [handle_loop]; rewrite Hoff; reflexivity.
Qed.

(** One stray byte before a well-formed frame longer than its header:
    the frame is found and processed, the stray byte is dropped. *)
Lemma handle_packet_resync (c : byte) (f : list byte) :
  is_frame f = true ->
  handled zlib brotli raises online msg_fuel f = true ->
  (17 <= length f)%nat ->
  handle_packet zlib brotli raises online msg_fuel (c :: f)
  = Some ([frame_of f], []).
Proof.
  intros Hf Hh Hlen.
  pose proof (shifted_header_invalid c f Hf) as Hbad.
  apply is_frame_spec in Hf as (H16 & Hv & Hpl).
  apply handled_spec in Hh.
  assert (Hscan : sync_scan (c :: f) 0 0
                    (Nat.min 16 (length (c :: f) - 0 - 16))
                  = Some (1%nat, header_of f)).
  { cbn [length].
    destruct (Nat.min 16 _) as [| [| n]] eqn:Hmin; [lia | lia |].
    cbn [sync_scan Nat.add drop].
    rewrite (from_bytes_ok (c :: f)) by (cbn [length]; lia).
    rewrite Hbad, drop_0, from_bytes_ok, Hv by lia. reflexivity. }
  pose proof (slice_frame_body [c] f [] H16) as Hbody.
  cbn [length app Nat.add] in Hbody. rewrite app_nil_r in Hbody.
  unfold handle_packet.
  rewrite (handle_loop_found _ _ _ _ _ 1 (header_of f));
    [| cbn [length]; lia | unfold max_errors; lia | cbn [length]; lia
     | exact Hscan | rewrite Hpl; cbn [length]; lia
     | rewrite Hpl;
       replace (Z.to_nat (Z.of_nat 1 + Z.of_nat (length f)))
         with (S (length f)) by lia;
       cbn [Nat.add]; rewrite Hbody; exact Hh ].
  rewrite Hpl.
  replace (Z.to_nat (Z.of_nat 1 + Z.of_nat (length f))) with (S (length f))
    by lia.
  rewrite handle_loop_end by (cbn [length]; lia).
  cbn [exit_errors exit_offset exit_frames app Nat.leb Nat.ltb max_errors].
  cbn [Nat.add]. rewrite Hbody.
  cbn [drop]. rewrite drop_all. reflexivity.
Qed.

End Loop.

(** C1, at a buffer the claim covers: one well-formed frame (an
    [AUTH_REPLY] with an empty body) and nothing behind it.  The claim
    asks for this frame to be processed and the buffer to be left empty;
    the splitter processes no frame, and deletes the first byte of the
    frame from the buffer, because the scan for a header tries
    [min(16, buffer_len - offset - 16)] positions, which is none when
    exactly 16 bytes remain.  No handler is reached, so this holds
    whatever the handlers do. *)
Theorem handle_packet_sixteen_bytes
    (zlib : list byte -> result (list byte))
    (brotli : option (list byte -> result (list byte)))
    (raises : list byte -> bool) (online : Z -> bool) (msg_fuel : nat) :
  is_frame auth_reply_empty = true
  /\ handle_packet zlib brotli raises online msg_fuel auth_reply_empty
     = Some ([], drop 1 auth_reply_empty)
  /\ handle_packet zlib brotli raises online msg_fuel auth_reply_empty
     <> Some (frame_of <$> [auth_reply_empty], []).
Proof.
  split; [| split]; [reflexivity | reflexivity |].
  vm_compute. discriminate.
Qed.

(** C2, at a buffer the claim covers: one corrupted byte in front of a
    well-formed, complete frame (an [AUTH_REPLY] with an empty body).
    The claim asks for the frame to be recovered; the splitter processes
    no frame and deletes the corrupted byte and the first byte of the
    frame, for the reason given for C1: with 16 bytes left the scan tries
    no position at all.  No handler is reached, so this holds whatever
    the handlers do. *)
Theorem handle_packet_resync_sixteen_bytes
    (zlib : list byte -> result (list byte))
    (brotli : option (list byte -> result (list byte)))
    (raises : list byte -> bool) (online : Z -> bool) (msg_fuel : nat) :
  is_frame auth_reply_empty = true
  /\ handle_packet zlib brotli raises online msg_fuel
       (xff%byte :: auth_reply_empty)
     = Some ([], drop 1 auth_reply_empty)
  /\ handle_packet zlib brotli raises online msg_fuel
       (xff%byte :: auth_reply_empty)
     <> Some ([frame_of auth_reply_empty], []).
Proof.
  split; [| split]; [reflexivity | reflexivity |].
  vm_compute. discriminate.
Qed.

End SplitterFacts.

(** ** Decompression dispatch and nested re-split *)

Module MessageFacts.
Import Frame FrameFacts SplitterFacts.

(** C3, as stated, fails: with a [brotli] module that is installed and
    refuses the body, and a [zlib] that would inflate it, the claim has
    the body inflated by zlib; [_handle_message] drops it. *)
Lemma decompress_no_fallback :
  let zlib := fun b : list byte => Ok b in
  let brotli := Some (fun _ : list byte => Raise DecompressError) in
  spec_decompress zlib brotli [x01]%byte 3 = Ok [x01]%byte
  /\ decompress zlib brotli [x01]%byte 3 = Raise DecompressError
  /\ handle_message zlib brotli (fun _ => false) 1 [x01]%byte 3 = Some [].
Proof. repeat split. Qed.

(** C3, amended.  Version 0 gives the body unchanged, version 2 what
    zlib gives, version 3 what brotli gives, or what zlib gives when the
    brotli module cannot be imported, every other version the body
    unchanged; when the decompressor chosen this way fails, no other
    scheme is tried: the body is dropped, no frame is dispatched and
    [_handle_message] returns normally. *)
Theorem decompress_dispatch
    (zlib : list byte -> result (list byte))
    (brotli : option (list byte -> result (list byte)))
    (dispatch_raises : list byte -> bool)
    (body : list byte) (protocol_version : Z) :
  (protocol_version = 0 -> decompress zlib brotli body protocol_version = Ok body)
  /\ (protocol_version = 2 ->
      decompress zlib brotli body protocol_version = zlib body)
  /\ (protocol_version = 3 -> brotli = None ->
      decompress zlib brotli body protocol_version = zlib body)
  /\ (forall brotli_decompress,
        protocol_version = 3 -> brotli = Some brotli_decompress ->
        brotli_decompress body <> Raise ImportError ->
        decompress zlib brotli body protocol_version = brotli_decompress body)
  /\ (protocol_version <> 0 -> protocol_version <> 2 -> protocol_version <> 3 ->
      decompress zlib brotli body protocol_version = Ok body)
  /\ (forall e fuel,
        decompress zlib brotli body protocol_version = Raise e ->
        handle_message zlib brotli dispatch_raises fuel body protocol_version
        = Some []).
Proof.
  unfold handle_message, decompress.
  repeat split.
  - intros ->. reflexivity.
  - intros ->. reflexivity.
  - intros -> ->. reflexivity.
  - intros f -> -> Hf. cbn.
    destruct (f body) as [d | []]; congruence.
  - intros H0 H2 H3.
    apply Z.eqb_neq in H0, H2, H3. rewrite H0, H2, H3. reflexivity.
  - intros e fuel ->. reflexivity.
Qed.

Lemma decompress_dispatch_witness :
  let zlib := fun b : list byte => Ok b in
  let brotli := Some (fun _ : list byte => Raise DecompressError) in
  decompress zlib brotli [x01]%byte 3 = Raise DecompressError
  /\ handle_message zlib brotli (fun _ => false) 1 [x01]%byte 3 = Some [].
Proof.
  intros zlib brotli.
  destruct (decompress_dispatch zlib brotli (fun _ => false) [x01]%byte 3)
    as (_ & _ & _ & Hbr & _ & Hdrop).
  split.
  - apply (Hbr (fun _ => Raise DecompressError)); [reflexivity | reflexivity |].
    discriminate.
  - apply (Hdrop DecompressError). reflexivity.
Defined.

Section Resplit.

Variable dispatch_raises : list byte -> bool.

Lemma parse_loop_end (fuel : nat) (data : list byte) (offset : nat)
    (frames : list frame) :
  (length data <= offset)%nat ->
  parse_loop dispatch_raises fuel data offset frames = Some frames.
Proof.
  intros Hoff. apply Nat.ltb_ge in Hoff.
  destruct fuel; cbn [parse_loop]; rewrite Hoff; reflexivity.
Qed.

Lemma parse_loop_frame (fuel : nat) (pre f rest : list byte)
    (frames : list frame) :
  is_frame f = true ->
  dispatches dispatch_raises f ->
  parse_loop dispatch_raises (S fuel) (pre ++ f ++ rest) (length pre) frames
  = parse_loop dispatch_raises fuel (pre ++ f ++ rest)
      (length pre + length f) (frames ++ [frame_of f]).
Proof.
  intros Hf Hd.
  apply is_frame_spec in Hf as (H16 & Hv & Hpl).
  cbn [parse_loop]. rewrite !length_app.
  assert (Hoff : (length pre <? length pre + (length f + length rest))%nat
                 = true) by (apply Nat.ltb_lt; lia).
  rewrite Hoff. cbn [negb].
  rewrite drop_app_length, from_bytes_ok by (rewrite length_app; lia).
  rewrite header_of_app by exact H16.
  rewrite Hpl.
  replace (Z.to_nat (Z.of_nat (length pre) + Z.of_nat (length f)))
    with (length pre + length f)%nat by lia.
  rewrite slice_frame_body by exact H16.
  unfold dispatches in Hd. rewrite Hd. reflexivity.
Qed.

Lemma parse_loop_frames (fs : list (list byte)) :
  forall fuel pre frames,
    Forall (fun f => is_frame f = true) fs ->
    Forall (dispatches dispatch_raises) fs ->
    parse_loop dispatch_raises (length fs + fuel) (pre ++ concat fs)
      (length pre) frames
    = Some (frames ++ (frame_of <$> fs)).
Proof.
  induction fs as [| f fs IH]; intros fuel pre frames Hfs Hd.
  - cbn [concat fmap list_fmap]. rewrite !app_nil_r.
    apply parse_loop_end. lia.
  - inversion Hfs as [| ? ? Hf Hfs']; subst.
    inversion Hd as [| ? ? Hdf Hd']; subst.
    cbn [concat length Nat.add].
    rewrite parse_loop_frame by done.
    specialize (IH fuel (pre ++ f) (frames ++ [frame_of f]) Hfs' Hd').
    rewrite <- !app_assoc, length_app in IH.
    rewrite IH. reflexivity.
Qed.

(** On a header that announces a length of 0 the loop does not move its
    cursor. *)
Lemma parse_loop_zero_length (data : list byte) :
  (16 <= length data)%nat ->
  packet_length (header_of data) = 0 ->
  (operation (header_of data) =? SEND_MSG_REPLY) && dispatch_raises [] = false ->
  forall fuel frames, parse_loop dispatch_raises fuel data 0 frames = None.
Proof.
  intros Hlen Hzero Hquiet.
  assert (Hlt : (0 <? length data)%nat = true) by (apply Nat.ltb_lt; lia).
  induction fuel as [| n IH]; intros frames; cbn [parse_loop]; rewrite Hlt;
    [reflexivity |].
  cbn [negb].
  rewrite drop_0, from_bytes_ok, Hzero by exact Hlen.
  change (Z.to_nat (Z.of_nat 0 + 0)) with 0%nat.
  change (slice (0 + 16) 0 data) with (@nil byte).
  rewrite Hquiet. apply IH.
Qed.

End Resplit.

(** C4, as stated, fails: on a payload that ends in the middle of a
    frame (a header that announces 20 bytes, 18 bytes present) the nested
    re-split hands over a frame with a cut body, the top-level splitter
    hands over nothing and keeps the bytes. *)
Lemma resplit_differs_on_partial_frame :
  parse_messages dispatch_quiet 19 (take 18 heartbeat_reply_42)
  = Some [(header_of heartbeat_reply_42, [x00; x00]%byte)]
  /\ handle_packet zlib_refuses None dispatch_quiet online_returns 19
       (take 18 heartbeat_reply_42)
     = Some ([], take 18 heartbeat_reply_42)
  /\ parse_messages dispatch_quiet 19 (take 18 heartbeat_reply_42)
     <> fst <$> handle_packet zlib_refuses None dispatch_quiet online_returns
                  19 (take 18 heartbeat_reply_42).
Proof.
  split; [| split]; [reflexivity | reflexivity |].
  vm_compute. discriminate.
Qed.

(** The nested re-split accepts a header the splitter refuses (here
    [header_length = 0]). *)
Lemma resplit_differs_on_invalid_header :
  let data := [x00; x00; x00; x14;  x00; x00;  x00; x01;
               x00; x00; x00; x03;  x00; x00; x00; x01;
               x00; x00; x00; x2a]%byte in
  parse_messages dispatch_quiet 21 data
  = Some [(header_of data, [x00; x00; x00; x2a]%byte)]
  /\ handle_packet zlib_refuses None dispatch_quiet online_returns 21 data
     = Some ([], []).
Proof. split; reflexivity. Qed.

(** On a header that announces a length of 0 the nested re-split does
    not move its cursor: no amount of fuel lets it return. *)
Lemma parse_messages_zero_length (fuel : nat) :
  parse_messages dispatch_quiet fuel (replicate 16 x00%byte) = None.
Proof.
  unfold parse_messages. generalize (@nil frame).
  induction fuel as [| fuel IH]; intros frames; [reflexivity |].
  cbn. apply IH.
Qed.

(** The two treat a message-push frame differently: [_parse_messages]
    gives its body to the JSON dispatch, [_handle_packet] decompresses
    and re-splits it, and does not come back when the body starts with a
    header that announces a length of 0: there the nested re-split
    extracts the frame and [_handle_packet] extracts nothing, whatever
    the fuel. *)
Lemma resplit_differs_on_nested_zero_length (fuel msg_fuel : nat) :
  is_frame message_push_zeros = true
  /\ parse_messages dispatch_quiet (S fuel) message_push_zeros
     = Some [frame_of message_push_zeros]
  /\ handle_packet zlib_refuses None dispatch_quiet online_returns msg_fuel
       (message_push_zeros ++ heartbeat_reply_42)
     = None.
Proof.
  assert (Hframe : is_frame message_push_zeros = true) by reflexivity.
  split; [exact Hframe |]. split.
  - unfold parse_messages.
    pose proof (parse_loop_frames dispatch_quiet [message_push_zeros] fuel
                  [] []) as Hrun.
    cbn [concat app length Nat.add fmap list_fmap] in Hrun.
    rewrite app_nil_r in Hrun. apply Hrun; repeat constructor.
  - assert (Hstuck : handled zlib_refuses None dispatch_quiet online_returns
                       msg_fuel message_push_zeros = false).
    { unfold handled, frame_of, handle_frame.
      change (operation (header_of message_push_zeros)) with 5.
      change (protocol_version (header_of message_push_zeros)) with 0.
      change (drop 16 message_push_zeros) with (replicate 16 x00%byte).
      cbn [Z.eqb Pos.eqb HEARTBEAT_REPLY SEND_MSG_REPLY].
      unfold handle_message, decompress. cbn [Z.eqb].
      rewrite parse_messages_zero_length. reflexivity. }
    unfold handle_packet.
    rewrite (handle_loop_stuck zlib_refuses None dispatch_quiet online_returns
               msg_fuel _ [] message_push_zeros heartbeat_reply_42 0 []);
      [reflexivity | exact Hframe | exact Hstuck | cbn; lia
       | unfold max_errors; lia].
Qed.

(** C4, amended.  [_parse_messages] is a loop of its own, without the
    header validation, the resynchronisation and the partial-frame test of
    [_handle_packet]; the two extract the same frames, in the same order,
    from a payload that is a run of well-formed complete frames in which
    no frame starts with exactly 16 bytes left, when the dispatch of the
    message-push bodies raises nothing and the handlers [_handle_packet]
    calls on these frames come back. *)
Theorem resplit_agrees_on_frames
    (zlib : list byte -> result (list byte))
    (brotli : option (list byte -> result (list byte)))
    (dispatch_raises : list byte -> bool) (online : Z -> bool)
    (fs : list (list byte)) (fuel msg_fuel : nat) :
  Forall (fun f => is_frame f = true) fs ->
  followed fs [] ->
  Forall (dispatches dispatch_raises) fs ->
  Forall (fun f => handled zlib brotli dispatch_raises online msg_fuel f = true)
    fs ->
  (length fs <= fuel)%nat ->
  parse_messages dispatch_raises fuel (concat fs) = Some (frame_of <$> fs)
  /\ handle_packet zlib brotli dispatch_raises online msg_fuel (concat fs)
     = Some (frame_of <$> fs, []).
Proof.
  intros Hfs Hfol Hd Hh Hfuel. split.
  - unfold parse_messages.
    replace fuel with (length fs + (fuel - length fs))%nat by lia.
    apply (parse_loop_frames dispatch_raises fs _ [] [] Hfs Hd).
  - pose proof (handle_packet_frames zlib brotli dispatch_raises online
                  msg_fuel fs auth_reply_empty 0 Hfs Hh) as Hsplit.
    cbn [take] in Hsplit. rewrite app_nil_r in Hsplit.
    apply Hsplit; [reflexivity | cbn; lia | lia | exact Hfol].
Qed.

Lemma resplit_agrees_on_frames_witness :
  parse_messages dispatch_quiet 3
    (concat [auth_reply_empty; message_push_json; heartbeat_reply_42])
  = Some (frame_of
            <$> [auth_reply_empty; message_push_json; heartbeat_reply_42])
  /\ handle_packet zlib_refuses None dispatch_quiet online_returns 3
       (concat [auth_reply_empty; message_push_json; heartbeat_reply_42])
     = Some (frame_of
               <$> [auth_reply_empty; message_push_json; heartbeat_reply_42],
             []).
Proof.
  apply (resplit_agrees_on_frames zlib_refuses None dispatch_quiet
           online_returns
           [auth_reply_empty; message_push_json; heartbeat_reply_42] 3 3).
  - repeat constructor.
  - cbn. lia.
  - repeat constructor.
  - repeat constructor.
  - cbn. lia.
Defined.

End MessageFacts.

(** ** The lite record decoder *)

Module LiteRecordFacts.
Import LiteRecord.

Lemma index_in_range (pb : list byte) (i : nat) :
  (i < length pb)%nat -> exists b, pb !! i = Some b /\ index pb i = Ok (bz b).
Proof.
  intros Hi. unfold index.
  destruct (pb !! i) as [b |] eqn:Hb; [eauto |].
  apply lookup_ge_None in Hb. lia.
Qed.

Lemma group_nonneg (value byte_val shift : Z) :
  0 <= value -> 0 <= byte_val -> 0 <= shift ->
  0 <= Z.lor value (Z.shiftl (Z.land byte_val 127) shift).
Proof.
  intros Hv Hb Hs. apply Z.lor_nonneg. split; [exact Hv |].
  apply Z.shiftl_nonneg, Z.land_nonneg. right. lia.
Qed.

(** The varint loop neither raises nor runs out of fuel; it moves
    forward, by at least one byte when there is one, and reads a
    non-negative value. *)
Lemma read_varint_ok (pb : list byte) :
  forall fuel i value shift,
    (length pb - i <= fuel)%nat -> 0 <= value -> 0 <= shift ->
    exists v j,
      read_varint fuel pb i value shift = Some (Ok (v, j))
      /\ 0 <= v /\ (i <= j)%nat.
Proof.
  induction fuel as [| fuel IH]; intros i value shift Hfuel Hv Hs.
  - cbn [read_varint].
    assert (Hend : (i <? length pb)%nat = false) by (apply Nat.ltb_ge; lia).
    rewrite Hend. cbn. eauto.
  - cbn [read_varint].
    destruct (i <? length pb)%nat eqn:Hi; cbn [negb]; [| eauto].
    apply Nat.ltb_lt in Hi.
    destruct (index_in_range pb i Hi) as (b & _ & ->).
    pose proof (bz_range b) as Hb.
    pose proof (group_nonneg value (bz b) shift Hv ltac:(lia) Hs) as Hg.
    destruct (Z.land (bz b) 128 =? 0); [do 2 eexists; split; [reflexivity | split; [done | lia]] |].
    destruct (63 <? shift + 7); [do 2 eexists; split; [reflexivity | split; [done | lia]] |].
    destruct (IH (i + 1)%nat _ (shift + 7) ltac:(lia) Hg ltac:(lia))
      as (v & j & -> & Hv' & Hj).
    exists v, j. repeat split; [done | lia].
Qed.

Lemma skip_continuation_ok (data : list byte) :
  forall fuel i,
    (length data - i <= fuel)%nat ->
    exists j, skip_continuation fuel data i = Some (Ok j) /\ (i <= j)%nat.
Proof.
  induction fuel as [| fuel IH]; intros i Hfuel.
  - cbn [skip_continuation].
    assert (Hend : (i <? length data)%nat = false) by (apply Nat.ltb_ge; lia).
    rewrite Hend. cbn. eauto.
  - cbn [skip_continuation].
    destruct (i <? length data)%nat eqn:Hi; cbn [negb]; [| eauto].
    apply Nat.ltb_lt in Hi.
    destruct (index_in_range data i Hi) as (b & _ & ->).
    destruct (Z.land (bz b) 128 =? 0); [eauto |].
    destruct (IH (i + 1)%nat ltac:(lia)) as (j & -> & Hj).
    exists j. split; [done | lia].
Qed.

(** [_parse_user_info] never takes its [except] branch. *)
Lemma user_info_loop_ok (data : list byte) :
  forall fuel i res,
    (length data - i < fuel)%nat ->
    exists r, user_info_loop fuel data i res = Some (Ok r).
Proof.
  induction fuel as [| fuel IH]; intros i res Hfuel; [lia |].
  cbn [user_info_loop].
  destruct (i <? length data)%nat eqn:Hi; cbn [negb]; [| eauto].
  apply Nat.ltb_lt in Hi.
  destruct (index_in_range data i Hi) as (b & _ & ->).
  destruct (Z.land (bz b) 7 =? 0).
  { destruct (skip_continuation_ok data (length data) (i + 1) ltac:(lia))
      as (j & -> & Hj).
    apply IH. destruct (j <? length data)%nat; lia. }
  destruct (Z.land (bz b) 7 =? 2).
  { destruct (read_varint_ok data (length data) (i + 1) 0 0
                ltac:(lia) ltac:(lia) ltac:(lia))
      as (len & j & -> & Hlen & Hj).
    destruct (Z.of_nat j + len <=? Z.of_nat (length data)); [| eauto].
    apply IH. lia. }
  destruct (Z.land (bz b) 7 =? 5); [| eauto].
  apply IH. lia.
Qed.

Lemma parse_user_info_ok (data : list byte) :
  is_Some (parse_user_info data).
Proof.
  unfold parse_user_info.
  destruct (user_info_loop_ok data (S (length data)) 0 ∅ ltac:(lia))
    as (r & ->).
  eauto.
Qed.

(** The main loop never raises and never runs out of fuel. *)
Lemma simple_loop_ok (pb : list byte) :
  forall fuel i res,
    (length pb - i < fuel)%nat ->
    exists r, simple_loop fuel pb i res = Some (Ok r).
Proof.
  induction fuel as [| fuel IH]; intros i res Hfuel; [lia |].
  cbn [simple_loop].
  destruct (i <? length pb)%nat eqn:Hi; cbn [negb]; [| eauto].
  apply Nat.ltb_lt in Hi.
  destruct (index_in_range pb i Hi) as (b & _ & ->).
  destruct (Z.land (bz b) 7 =? 0).
  { destruct (read_varint_ok pb (length pb) (i + 1) 0 0
                ltac:(lia) ltac:(lia) ltac:(lia))
      as (v & j & -> & Hv & Hj).
    apply IH. lia. }
  destruct (Z.land (bz b) 7 =? 2).
  { destruct (read_varint_ok pb (length pb) (i + 1) 0 0
                ltac:(lia) ltac:(lia) ltac:(lia))
      as (len & j & -> & Hlen & Hj).
    destruct (Z.of_nat j + len <=? Z.of_nat (length pb)); [| eauto].
    destruct (Z.shiftr (bz b) 3 =? 3).
    - destruct (parse_user_info_ok
                  (slice j (Z.to_nat (Z.of_nat j + len)) pb)) as [ui ->].
      apply IH. lia.
    - apply IH. lia. }
  destruct (Z.land (bz b) 7 =? 5); [| eauto].
  apply IH. lia.
Qed.

(** *** Bits of the wire format *)

Lemma bz_byte_of_Z (z : Z) : 0 <= z < 256 -> bz (byte_of_Z z) = z.
Proof.
  intros Hz. unfold bz, byte_of_Z.
  destruct (Byte.of_N (Z.to_N z)) as [b |] eqn:Hb.
  - apply Byte.to_of_N in Hb. simpl. rewrite Hb. lia.
  - apply Byte.of_N_None_iff in Hb. lia.
Qed.

Lemma land_127_small (v : Z) : 0 <= v < 128 -> Z.land v 127 = v.
Proof.
  intros Hv. change 127 with (Z.ones 7).
  rewrite Z.land_ones by lia. apply Z.mod_small. lia.
Qed.

Lemma land_127_range (v : Z) : 0 <= Z.land v 127 < 128.
Proof.
  change 127 with (Z.ones 7). rewrite Z.land_ones by lia.
  apply Z.mod_pos_bound. lia.
Qed.

Lemma continuation_byte (v : Z) :
  let x := Z.lor (Z.land v 127) 128 in
  0 <= x < 256 /\ Z.land x 127 = Z.land v 127 /\ Z.land x 128 = 128.
Proof.
  intros x. subst x. pose proof (land_127_range v) as Hm.
  repeat split.
  - apply Z.lor_nonneg. lia.
  - rewrite Z.lor_comm. change 128 with (Z.shiftl 1 7).
    rewrite lor_shiftl_small by lia. lia.
  - rewrite Z.land_lor_distr_l, <- Z.land_assoc.
    change (Z.land 127 127) with 127. change (Z.land 128 127) with 0.
    apply Z.lor_0_r.
  - rewrite Z.land_lor_distr_l, <- Z.land_assoc.
    change (Z.land 127 128) with 0. change (Z.land 128 128) with 128.
    rewrite Z.land_0_r. reflexivity.
Qed.

Lemma last_byte (v : Z) :
  0 <= v < 128 -> Z.land v 127 = v /\ Z.land v 128 = 0.
Proof.
  intros Hv. split; [apply land_127_small; exact Hv |].
  rewrite <- (land_127_small v Hv), <- Z.land_assoc.
  change (Z.land 127 128) with 0. apply Z.land_0_r.
Qed.

(** A value is its low 7 bits below its other bits. *)
Lemma split_group (v s : Z) :
  0 <= s ->
  Z.lor (Z.shiftl (Z.land v 127) s) (Z.shiftl (Z.shiftr v 7) (s + 7))
  = Z.shiftl v s.
Proof.
  intros Hs. apply Z.bits_inj'. intros k Hk.
  rewrite Z.lor_spec, !Z.shiftl_spec by lia.
  destruct (Z.lt_ge_cases (k - s) 0) as [Hneg | Hpos].
  - rewrite !Z.testbit_neg_r by lia. reflexivity.
  - rewrite Z.land_spec. change 127 with (Z.ones 7).
    destruct (Z.lt_ge_cases (k - s) 7) as [Hlow | Hhigh].
    + rewrite Z.ones_spec_low by lia.
      rewrite (Z.testbit_neg_r _ (k - (s + 7))) by lia.
      rewrite andb_true_r, orb_false_r. reflexivity.
    + rewrite Z.ones_spec_high by lia.
      rewrite Z.shiftr_spec by lia.
      rewrite andb_false_r, orb_false_l. f_equal. lia.
Qed.

Lemma tag_value (field_num wire_type : Z) :
  0 <= field_num < 32 -> 0 <= wire_type < 8 ->
  Z.shiftr (bz (tag field_num wire_type)) 3 = field_num
  /\ Z.land (bz (tag field_num wire_type)) 7 = wire_type.
Proof.
  intros Hf Hw. unfold tag.
  rewrite lor_shiftl_small by lia.
  rewrite bz_byte_of_Z by lia.
  split.
  - rewrite Z.shiftr_div_pow2 by lia.
    change (2 ^ 3) with 8. rewrite Z.div_add_l by lia.
    rewrite Z.div_small by lia. lia.
  - change 7 with (Z.ones 3). rewrite Z.land_ones by lia.
    change (2 ^ 3) with 8.
    rewrite Z.add_comm, Z.mod_add by lia. apply Z.mod_small. lia.
Qed.

(** The varint loop reads back what [encode_varint] wrote. *)
Lemma read_varint_encode (n : nat) :
  forall fuel pre v rest acc shift,
    0 <= v < 2 ^ (7 * (Z.of_nat n + 1)) ->
    0 <= shift -> shift + 7 * Z.of_nat n <= 63 ->
    (length (encode_varint n v) <= fuel)%nat ->
    read_varint fuel (pre ++ encode_varint n v ++ rest) (length pre) acc shift
    = Some (Ok (Z.lor acc (Z.shiftl v shift),
                (length pre + length (encode_varint n v))%nat)).
Proof.
  assert (Hlast : forall fuel pre v rest acc shift,
             0 <= v < 128 -> (1 <= fuel)%nat ->
             read_varint fuel (pre ++ [byte_of_Z v] ++ rest) (length pre)
               acc shift
             = Some (Ok (Z.lor acc (Z.shiftl v shift), (length pre + 1)%nat))).
  { intros fuel pre v rest acc shift Hv Hfuel.
    destruct fuel as [| fuel]; [lia |].
    cbn [read_varint]. rewrite length_app.
    assert (Hi : (length pre <? length pre + length ([byte_of_Z v] ++ rest))%nat
                 = true) by (apply Nat.ltb_lt; cbn [length app]; lia).
    rewrite Hi. cbn [negb]. unfold index.
    rewrite lookup_app_r, Nat.sub_diag by lia. cbn [app lookup list_lookup].
    rewrite bz_byte_of_Z by lia.
    destruct (last_byte v Hv) as [-> ->]. reflexivity. }
  induction n as [| n IH]; intros fuel pre v rest acc shift Hv Hs Hsh Hfuel.
  - cbn [encode_varint length] in *. apply Hlast; [| lia].
    change (2 ^ (7 * (Z.of_nat 0 + 1))) with 128 in Hv. exact Hv.
  - cbn [encode_varint] in *.
    destruct (v <? 128) eqn:Hsmall.
    + apply Z.ltb_lt in Hsmall. cbn [length] in *. apply Hlast; lia.
    + apply Z.ltb_ge in Hsmall. cbn [length] in Hfuel |- *.
      destruct fuel as [| fuel]; [lia |].
      cbn [read_varint]. rewrite length_app.
      assert (Hi : (length pre
                    <? length pre
                       + length ((byte_of_Z (Z.lor (Z.land v 127) 128)
                                  :: encode_varint n (Z.shiftr v 7)) ++ rest))%nat
                   = true) by (apply Nat.ltb_lt; cbn [length app]; lia).
      rewrite Hi. cbn [negb]. unfold index.
      rewrite lookup_app_r, Nat.sub_diag by lia. cbn [app lookup list_lookup].
      destruct (continuation_byte v) as (Hrange & Hlow & Hhigh).
      rewrite bz_byte_of_Z by exact Hrange.
      rewrite Hlow, Hhigh. cbn [Z.eqb].
      assert (Hgo : (63 <? shift + 7) = false) by (apply Z.ltb_ge; lia).
      rewrite Hgo.
      specialize (IH fuel (pre ++ [byte_of_Z (Z.lor (Z.land v 127) 128)])
                    (Z.shiftr v 7) rest
                    (Z.lor acc (Z.shiftl (Z.land v 127) shift)) (shift + 7)).
      rewrite <- app_assoc, length_app in IH. cbn [app length] in IH.
      rewrite IH.
      * rewrite <- Z.lor_assoc, split_group by lia.
        do 3 f_equal. lia.
      * rewrite Z.shiftr_div_pow2 by lia. split.
        -- apply Z.div_pos; lia.
        -- apply Z.div_lt_upper_bound; [lia |].
           rewrite <- Z.pow_add_r by lia.
           replace (7 + 7 * (Z.of_nat n + 1)) with (7 * (Z.of_nat (S n) + 1))
             by lia.
           lia.
      * lia.
      * lia.
      * lia.
Qed.

Lemma read_varint_field (fuel : nat) (pre rest : list byte) (t : byte) (v : Z) :
  0 <= v < 2 ^ 64 ->
  (length (varint v) <= fuel)%nat ->
  read_varint fuel (pre ++ (t :: varint v) ++ rest) (length pre + 1) 0 0
  = Some (Ok (v, (length pre + 1 + length (varint v))%nat)).
Proof.
  intros Hv Hfuel.
  replace (pre ++ (t :: varint v) ++ rest)
    with ((pre ++ [t]) ++ encode_varint 9 v ++ rest)
    by (rewrite <- app_assoc; reflexivity).
  replace (length pre + 1)%nat with (length (pre ++ [t]))
    by (rewrite length_app; reflexivity).
  rewrite read_varint_encode.
  - rewrite Z.shiftl_0_r, Z.lor_0_l. reflexivity.
  - change (2 ^ (7 * (Z.of_nat 9 + 1))) with (2 ^ 70).
    assert (2 ^ 64 < 2 ^ 70) by reflexivity. lia.
  - lia.
  - cbn. lia.
  - exact Hfuel.
Qed.

(** One turn of the main loop on an encoded field. *)
Lemma simple_loop_field (fuel : nat) (pre rest : list byte) (fd : field)
    (res : gmap string pyval) :
  wf_field fd ->
  simple_loop (S fuel) (pre ++ encode_field fd ++ rest) (length pre) res
  = simple_loop fuel (pre ++ encode_field fd ++ rest)
      (length pre + length (encode_field fd)) (store_field res fd).
Proof.
  intros Hwf.
  assert (Hi : (length pre <? length (pre ++ encode_field fd ++ rest))%nat
               = true).
  { apply Nat.ltb_lt. rewrite !length_app. destruct fd; cbn [encode_field length]; lia. }
  cbn [simple_loop]. rewrite Hi. cbn [negb]. unfold index.
  rewrite lookup_app_r, Nat.sub_diag by lia.
  destruct fd as [fn v | fn data | fn b0 b1 b2 b3];
    cbn [encode_field app lookup list_lookup wf_field store_field] in *.
  - destruct Hwf as [Hfn Hv].
    destruct (tag_value fn 0 Hfn ltac:(lia)) as [-> ->]. cbn [Z.eqb].
    rewrite (read_varint_field _ pre rest (tag fn 0) v Hv)
      by (rewrite !length_app; cbn [length]; rewrite length_app; lia).
    cbn [length]. f_equal. lia.
  - destruct Hwf as [Hfn Hlen].
    destruct (tag_value fn 2 Hfn ltac:(lia)) as [-> ->]. cbn [Z.eqb].
    pose proof (read_varint_field
                  (length (pre ++ (tag fn 2 :: varint (Z.of_nat (length data))
                                   ++ data) ++ rest))
                  pre (data ++ rest) (tag fn 2)
                  (Z.of_nat (length data)) ltac:(lia)) as Hread.
    cbn [app] in Hread |- *. rewrite <- app_assoc in Hread |- *.
    rewrite Hread
      by (rewrite !length_app; cbn [length]; rewrite length_app; lia).
    clear Hread.
    set (j := (length pre + 1 + length (varint (Z.of_nat (length data))))%nat).
    set (pb := pre ++ tag fn 2 :: varint (Z.of_nat (length data)) ++ data ++ rest).
    assert (Hpb : pb = (pre ++ tag fn 2 :: varint (Z.of_nat (length data)))
                       ++ data ++ rest).
    { subst pb. rewrite <- app_assoc. reflexivity. }
    assert (Hj : j = length (pre ++ tag fn 2 :: varint (Z.of_nat (length data)))).
    { subst j. rewrite length_app. cbn [length]. lia. }
    assert (Hfit : (Z.of_nat j + Z.of_nat (length data) <=? Z.of_nat (length pb))
                   = true).
    { apply Z.leb_le. rewrite Hpb, Hj, !length_app. lia. }
    rewrite Hfit.
    replace (Z.to_nat (Z.of_nat j + Z.of_nat (length data)))
      with (j + length data)%nat by lia.
    assert (Hdata : slice j (j + length data) pb = data).
    { unfold slice. rewrite Hpb, Hj, drop_app_length.
      replace (length (pre ++ tag fn 2 :: varint (Z.of_nat (length data)))
               + length data
               - length (pre ++ tag fn 2 :: varint (Z.of_nat (length data))))%nat
        with (length data) by lia.
      apply take_app_length. }
    rewrite Hdata.
    assert (Hnext : (length pre
                     + length (tag fn 2 :: varint (Z.of_nat (length data)) ++ data)
                     = j + length data)%nat).
    { subst j. cbn [length]. rewrite length_app. lia. }
    rewrite Hnext.
    destruct (fn =? 3); [| reflexivity].
    destruct (parse_user_info_ok data) as [ui ->]. reflexivity.
  - destruct (tag_value fn 5 Hwf ltac:(lia)) as [_ ->]. cbn [Z.eqb length].
    f_equal. lia.
Qed.

Lemma encode_field_length (fd : field) : (1 <= length (encode_field fd))%nat.
Proof. destruct fd; cbn [encode_field length]; lia. Qed.

(** The main loop on a run of encoded fields. *)
Lemma simple_loop_fields (fields : list field) :
  forall fuel pre rest res,
    Forall wf_field fields ->
    simple_loop (length fields + fuel) (pre ++ encode_record fields ++ rest)
      (length pre) res
    = simple_loop fuel (pre ++ encode_record fields ++ rest)
        (length pre + length (encode_record fields))
        (foldl store_field res fields).
Proof.
  induction fields as [| fd fields IH]; intros fuel pre rest res Hwf.
  - cbn. rewrite Nat.add_0_r. reflexivity.
  - inversion Hwf as [| ? ? Hfd Hfields]; subst.
    unfold encode_record in *. cbn [fmap list_fmap concat length Nat.add foldl].
    rewrite <- !app_assoc.
    rewrite simple_loop_field by exact Hfd.
    specialize (IH fuel (pre ++ encode_field fd) rest (store_field res fd)
                  Hfields).
    rewrite <- !app_assoc, length_app in IH.
    rewrite IH. f_equal. rewrite length_app. lia.
Qed.

(** The walk ends, without an error, at the end of the input, at a byte
    whose wire type is not 0, 2 or 5, and at a length that runs past the
    end of the input. *)
Lemma simple_loop_stops (fuel : nat) (pre rest : list byte)
    (res : gmap string pyval) :
  stops_walk rest ->
  simple_loop (S fuel) (pre ++ rest) (length pre) res = Some (Ok res).
Proof.
  intros [-> | [(b & tail & -> & H0 & H2 & H5)
               | (fn & len & tail & -> & Hfn & Hlen)]];
    cbn [simple_loop]; rewrite length_app.
  - cbn [length]. rewrite Nat.add_0_r, Nat.ltb_irrefl. reflexivity.
  - assert (Hi : (length pre <? length pre + length (b :: tail))%nat = true)
      by (apply Nat.ltb_lt; cbn [length]; lia).
    rewrite Hi. cbn [negb]. unfold index.
    rewrite lookup_app_r, Nat.sub_diag by lia. cbn [lookup list_lookup].
    apply Z.eqb_neq in H0, H2, H5. rewrite H0, H2, H5. reflexivity.
  - assert (Hi : (length pre
                  <? length pre + length (tag fn 2 :: varint len ++ tail))%nat
                 = true) by (apply Nat.ltb_lt; cbn [length]; lia).
    rewrite Hi. cbn [negb]. unfold index.
    rewrite lookup_app_r, Nat.sub_diag by lia. cbn [lookup list_lookup].
    destruct (tag_value fn 2 Hfn ltac:(lia)) as [_ ->]. cbn [Z.eqb].
    pose proof (read_varint_field
                  (length pre + length (tag fn 2 :: varint len ++ tail))
                  pre tail (tag fn 2) len ltac:(lia)) as Hread.
    cbn [app] in Hread. rewrite Hread
      by (cbn [length]; rewrite length_app; lia).
    assert (Hover : (Z.of_nat (length pre + 1 + length (varint len)) + len
                     <=? Z.of_nat (length pre
                                   + length (tag fn 2 :: varint len ++ tail)))
                    = false).
    { apply Z.leb_gt. cbn [length]. rewrite length_app. lia. }
    rewrite Hover. reflexivity.
Qed.

Lemma encode_record_length (fields : list field) :
  (length fields <= length (encode_record fields))%nat.
Proof.
  unfold encode_record.
  induction fields as [| fd fields IH]; [cbn; lia |].
  cbn [fmap list_fmap concat length]. rewrite length_app.
  pose proof (encode_field_length fd). fold (fmap encode_field fields). lia.
Qed.

(** The decoder on a run of encoded fields, followed by nothing or by a
    byte of another wire type: each field is stored as [store_field]
    says and the missing ones of the four get their defaults. *)
Lemma parse_simple_fields (fields : list field) (rest : list byte) :
  Forall wf_field fields ->
  stops_walk rest ->
  parse_simple (encode_record fields ++ rest)
  = Some (Some (fill_defaults (foldl store_field ∅ fields))).
Proof.
  intros Hwf Hstop. unfold parse_simple.
  pose proof (encode_record_length fields) as Hlen.
  replace (S (length (encode_record fields ++ rest)))
    with (length fields
          + S (length (encode_record fields ++ rest) - length fields))%nat
    by (rewrite length_app; lia).
  pose proof (simple_loop_fields fields
                (S (length (encode_record fields ++ rest) - length fields))
                [] rest ∅ Hwf) as Hrun.
  cbn [app length Nat.add] in Hrun. rewrite Hrun.
  pose proof (simple_loop_stops
                (length (encode_record fields ++ rest) - length fields)
                (encode_record fields) rest
                (foldl store_field ∅ fields) Hstop) as Hend.
  rewrite Hend. reflexivity.
Qed.

(** [parse] returns on every input, with a result or with [None]:
    the exceptions of the base64 decoding and of the library parser are
    caught. *)
Lemma parse_returns
    (b64decode : str -> result (list byte))
    (read_from_bytes : option (list byte -> result InteractWordV2))
    (pb_data : str) :
  is_Some (parse b64decode read_from_bytes pb_data).
Proof.
  unfold parse, parse_with_pure_protobuf.
  assert (Hsimple : forall pb, is_Some (parse_simple pb)).
  { intros pb. unfold parse_simple.
    destruct (simple_loop_ok pb (S (length pb)) 0 ∅ ltac:(lia)) as (r & ->).
    eauto. }
  destruct (b64decode pb_data) as [pb_bytes |]; [| eauto].
  destruct read_from_bytes as [read |]; [| apply Hsimple].
  destruct (read pb_bytes) as [m |]; [| apply Hsimple].
  destruct (m_uinfo m); eauto.
Qed.

Lemma setdefault_lookup (key : string) (d : pyval)
    (res : gmap string pyval) (k : string) :
  setdefault key d res !! k
  = if decide (key = k) then Some (default d (res !! k)) else res !! k.
Proof.
  unfold setdefault.
  destruct (decide (key = k)) as [-> | Hne].
  - destruct (res !! k) as [v |] eqn:Hk.
    + rewrite Hk. reflexivity.
    + rewrite lookup_insert_eq. reflexivity.
  - destruct (res !! key); [reflexivity |].
    apply lookup_insert_ne. exact Hne.
Qed.

(** After [fill_defaults] the four fields are there: the decoded value,
    or 0, the empty name, 1 and 0. *)
Lemma fill_defaults_lookup (res : gmap string pyval) :
  fill_defaults res !! "uid" = Some (default (VInt 0) (res !! "uid"))
  /\ fill_defaults res !! "uname" = Some (default (VStr []) (res !! "uname"))
  /\ fill_defaults res !! "msg_type" = Some (default (VInt 1) (res !! "msg_type"))
  /\ fill_defaults res !! "timestamp" = Some (default (VInt 0) (res !! "timestamp")).
Proof.
  unfold fill_defaults. rewrite !setdefault_lookup.
  repeat split; repeat case_decide; try done.
Qed.

(** C5, as stated, fails: a field of wire type 1 (a 64-bit number) is not
    passed over, it ends the walk, so that the valid [uid] field behind
    it is not extracted; and an anomaly behind a decoded field leaves
    that field in the result, which is then not the all-default
    structure. *)
Lemma unknown_wire_type_ends_walk :
  parse_simple [x08; x05]%byte
  = Some (Some (<["uid" := VInt 5]> default_record))
  /\ parse_simple ([x09; x00; x00; x00; x00; x00; x00; x00; x00]
                   ++ [x08; x05])%byte
     = Some (Some default_record)
  /\ parse_simple [x08; x05; x07]%byte
     = Some (Some (<["uid" := VInt 5]> default_record)).
Proof.
  repeat split; vm_compute; reflexivity.
Qed.

(** C5, amended.  On every byte sequence [_parse_simple] returns a result
    (no exception, no [None]) in which the four fields are present, each
    with the value the walk stored or else its default (0, empty name, 1,
    0).  On a run of encoded fields of wire types 0, 2 and 5 the known
    fields are extracted and the fields of unknown number are passed
    over, as [store_field] says; the walk ends there, without an error and
    whatever follows, at the end of the input, at a byte of another wire
    type, or at a length that runs past the input. *)
Theorem parse_simple_contract (pb_bytes : list byte) :
  (exists res,
      parse_simple pb_bytes = Some (Some (fill_defaults res))
      /\ fill_defaults res !! "uid" = Some (default (VInt 0) (res !! "uid"))
      /\ fill_defaults res !! "uname"
         = Some (default (VStr []) (res !! "uname"))
      /\ fill_defaults res !! "msg_type"
         = Some (default (VInt 1) (res !! "msg_type"))
      /\ fill_defaults res !! "timestamp"
         = Some (default (VInt 0) (res !! "timestamp")))
  /\ (forall fields rest,
        pb_bytes = encode_record fields ++ rest ->
        Forall wf_field fields ->
        stops_walk rest ->
        parse_simple pb_bytes
        = Some (Some (fill_defaults (foldl store_field ∅ fields)))).
Proof.
  split.
  - unfold parse_simple.
    destruct (simple_loop_ok pb_bytes (S (length pb_bytes)) 0 ∅ ltac:(lia))
      as (r & ->).
    exists r. split; [reflexivity | apply fill_defaults_lookup].
  - intros fields rest -> Hwf Hstop.
    apply parse_simple_fields; assumption.
Qed.

Lemma parse_simple_contract_witness :
  parse_simple
    (encode_record [FVarint 1 5; FVarint 9 7; FBytes 2 [x68; x69]%byte;
                    FFixed32 4 x00 x00 x00 x00; FVarint 6 1700000000]
     ++ [x0b; x08; x2a]%byte)
  = Some (Some (<["uid" := VInt 5]>
                  (<["uname" := VStr [104; 105]]>
                     (<["msg_type" := VInt 1]>
                        (<["timestamp" := VInt 1700000000]> ∅))))).
Proof.
  pose proof (parse_simple_contract
                (encode_record [FVarint 1 5; FVarint 9 7;
                                FBytes 2 [x68; x69]%byte;
                                FFixed32 4 x00 x00 x00 x00;
                                FVarint 6 1700000000]
                 ++ [x0b; x08; x2a]%byte)) as [_ Hfields].
  rewrite (Hfields [FVarint 1 5; FVarint 9 7; FBytes 2 [x68; x69]%byte;
                    FFixed32 4 x00 x00 x00 x00; FVarint 6 1700000000]
                   [x0b; x08; x2a]%byte).
  - vm_compute. reflexivity.
  - reflexivity.
  - repeat constructor; cbn; lia.
  - right. left. exists x0b%byte, [x08; x2a]%byte.
    repeat split; discriminate.
Defined.

End LiteRecordFacts.

(** ** The reconnection loop *)

Module ReconnectFacts.
Import Reconnect.

Lemma sleeps_app (t1 t2 : list event) : sleeps (t1 ++ t2) = sleeps t1 ++ sleeps t2.
Proof. apply omap_app. Qed.

Lemma connects_app (t1 t2 : list event) :
  connects (t1 ++ t2) = (connects t1 + connects t2)%nat.
Proof. unfold connects. rewrite omap_app, length_app. reflexivity. Qed.

Lemma notifications_app (t1 t2 : list event) :
  notifications (t1 ++ t2) = notifications t1 ++ notifications t2.
Proof. apply omap_app. Qed.

Lemma turn_trace (trace : list event) (a : Z) (socket : bool) :
  (if socket then (trace ++ [Sleep (Z.min (2 ^ (a + 1)) 60)]) ++ [CloseSocket]
   else trace ++ [Sleep (Z.min (2 ^ (a + 1)) 60)]) ++ [Connect]
  = trace ++ turn a socket.
Proof. unfold turn. destruct socket; rewrite <- ?app_assoc; reflexivity. Qed.

Lemma turn_facts (a : Z) (socket : bool) :
  sleeps (turn a socket) = [Z.min (2 ^ (a + 1)) 60]
  /\ connects (turn a socket) = 1%nat
  /\ notifications (turn a socket) = [].
Proof. destruct socket; repeat split. Qed.

Lemma delays_from_S (a : Z) (m : nat) :
  delays_from a (S m) = Z.min (2 ^ (a + 1)) 60 :: delays_from (a + 1) m.
Proof.
  unfold delays_from. cbn [seq fmap list_fmap]. f_equal.
  rewrite <- fmap_S_seq, <- list_fmap_compose.
  apply list_fmap_ext. intros i k _. cbn. do 2 f_equal. lia.
Qed.

Section Loop.

Variable connect : nat -> connect_result.

(** [m] failed attempts in a row bring the counter to the maximum and
    end the loop by its condition. *)
Lemma retry_loop_all_fail (m : nat) :
  forall fuel c calls trace,
    running c = false ->
    reconnect_attempts c + Z.of_nat m = max_reconnect_attempts c ->
    (m <= fuel)%nat ->
    (forall n, (calls <= n < calls + m)%nat -> connect n <> Connected) ->
    exists c' tr,
      retry_loop connect fuel c calls trace = Some (c', trace ++ tr, false)
      /\ sleeps tr = delays_from (reconnect_attempts c) m
      /\ connects tr = m
      /\ notifications tr = []
      /\ reconnect_attempts c' = max_reconnect_attempts c
      /\ running c' = false
      /\ on_disconnect c' = on_disconnect c.
Proof.
  induction m as [| m IH]; intros fuel c calls trace Hrun Hmax Hfuel Hfail.
  - exists c, []. rewrite app_nil_r.
    assert (Hstop : (reconnect_attempts c <? max_reconnect_attempts c) = false)
      by (apply Z.ltb_ge; lia).
    destruct fuel; cbn [retry_loop]; rewrite Hstop; cbn;
      repeat split; first [reflexivity | lia | assumption].
  - destruct fuel as [| fuel]; [lia |].
    cbn [retry_loop].
    assert (Hgo : (reconnect_attempts c <? max_reconnect_attempts c) = true)
      by (apply Z.ltb_lt; lia).
    rewrite Hgo, Hrun. cbn [andb negb].
    cbn [set_attempts set_ws reconnect_attempts ws auto_reconnect
         max_reconnect_attempts running on_disconnect].
    rewrite turn_trace.
    pose proof (Hfail calls ltac:(lia)) as Hnow.
    destruct (turn_facts (reconnect_attempts c) (ws c)) as (Hs & Hc & Hn).
    destruct (connect calls) as [| socket_left |]; [done | |].
    + edestruct (IH fuel) as (c' & tr & -> & Hs' & Hc' & Hn' & Ha & Hr & Hd);
        [| | | | exists c', (turn (reconnect_attempts c) (ws c) ++ tr)].
      * cbn. exact Hrun.
      * cbn. lia.
      * lia.
      * intros n Hn'. apply Hfail. lia.
      * rewrite sleeps_app, connects_app, notifications_app, Hs, Hc, Hn.
        rewrite delays_from_S, <- app_assoc.
        cbn in *. repeat split; congruence.
    + edestruct (IH fuel) as (c' & tr & -> & Hs' & Hc' & Hn' & Ha & Hr & Hd);
        [| | | | exists c', (turn (reconnect_attempts c) (ws c) ++ tr)].
      * cbn. exact Hrun.
      * cbn. lia.
      * lia.
      * intros n Hn'. apply Hfail. lia.
      * rewrite sleeps_app, connects_app, notifications_app, Hs, Hc, Hn.
        rewrite delays_from_S, <- app_assoc.
        cbn in *. repeat split; congruence.
Qed.

(** [k] failed attempts and then a successful one: the loop returns
    with the counter back at 0. *)
Lemma retry_loop_success (k : nat) :
  forall fuel c calls trace,
    running c = false ->
    reconnect_attempts c + Z.of_nat k < max_reconnect_attempts c ->
    (k < fuel)%nat ->
    (forall n, (calls <= n < calls + k)%nat -> connect n <> Connected) ->
    connect (calls + k)%nat = Connected ->
    exists c' tr,
      retry_loop connect fuel c calls trace = Some (c', trace ++ tr, true)
      /\ sleeps tr = delays_from (reconnect_attempts c) (S k)
      /\ connects tr = S k
      /\ notifications tr = []
      /\ reconnect_attempts c' = 0
      /\ running c' = true.
Proof.
  induction k as [| k IH]; intros fuel c calls trace Hrun Hmax Hfuel Hfail Hok;
    (destruct fuel as [| fuel]; [lia |]);
    cbn [retry_loop];
    assert (Hgo : (reconnect_attempts c <? max_reconnect_attempts c) = true)
      by (apply Z.ltb_lt; lia);
    rewrite Hgo, Hrun; cbn [andb negb];
    cbn [set_attempts set_ws reconnect_attempts ws auto_reconnect
         max_reconnect_attempts running on_disconnect];
    rewrite turn_trace;
    destruct (turn_facts (reconnect_attempts c) (ws c)) as (Hs & Hc & Hn).
  - rewrite Nat.add_0_r in Hok. rewrite Hok.
    exists (set_attempts 0
              (set_running true
                 (set_ws true
                    (mkClient (auto_reconnect c) (max_reconnect_attempts c)
                       (reconnect_attempts c + 1) (running c) false
                       (on_disconnect c))))),
      (turn (reconnect_attempts c) (ws c)).
    rewrite delays_from_S. cbn. repeat split; assumption.
  - pose proof (Hfail calls ltac:(lia)) as Hnow.
    replace (calls + S k)%nat with (S calls + k)%nat in Hok by lia.
    destruct (connect calls) as [| socket_left |]; [done | |].
    + edestruct (IH fuel) as (c' & tr & -> & Hs' & Hc' & Hn' & Ha & Hr);
        [| | | | exact Hok
         | exists c', (turn (reconnect_attempts c) (ws c) ++ tr)].
      * cbn. exact Hrun.
      * cbn. lia.
      * lia.
      * intros n Hn'. apply Hfail. lia.
      * rewrite sleeps_app, connects_app, notifications_app, Hs, Hc, Hn.
        rewrite (delays_from_S _ (S k)), <- app_assoc.
        cbn in *. repeat split; congruence.
    + edestruct (IH fuel) as (c' & tr & -> & Hs' & Hc' & Hn' & Ha & Hr);
        [| | | | exact Hok
         | exists c', (turn (reconnect_attempts c) (ws c) ++ tr)].
      * cbn. exact Hrun.
      * cbn. lia.
      * lia.
      * intros n Hn'. apply Hfail. lia.
      * rewrite sleeps_app, connects_app, notifications_app, Hs, Hc, Hn.
        rewrite (delays_from_S _ (S k)), <- app_assoc.
        cbn in *. repeat split; congruence.
Qed.

End Loop.

Lemma delays_from_0 (n : nat) : delays_from 0 n = delays n.
Proof. reflexivity. Qed.

(** *** The trace of a run, event by event *)

Section Trace.

Variable connect : nat -> connect_result.

Lemma attempts_from_S (first : bool) (start m : nat) :
  attempts_from connect first start (S m)
  = turn (Z.of_nat start) first
    ++ attempts_from connect
         (match connect start with
          | Refused socket_left => socket_left
          | _ => false
          end) (S start) m.
Proof.
  unfold attempts_from. cbn [seq fmap list_fmap concat].
  unfold socket_at at 1. rewrite Nat.eqb_refl. f_equal. f_equal.
  apply list_fmap_ext. intros i k Hk.
  apply lookup_seq in Hk as [-> Hi].
  unfold socket_at.
  destruct (Nat.eqb_spec (S start + i) start) as [Heq | _]; [lia |].
  destruct (Nat.eqb_spec (S start + i) (S start)) as [Heq | Hne];
    [| reflexivity].
  replace (S start + i - 1)%nat with start by lia. reflexivity.
Qed.

Lemma attempts_from_snoc (first : bool) (start m : nat) :
  attempts_from connect first start (S m)
  = attempts_from connect first start m
    ++ turn (Z.of_nat (start + m)) (socket_at connect first start (start + m)).
Proof.
  unfold attempts_from. rewrite seq_S, fmap_app, concat_app.
  cbn [fmap list_fmap concat]. rewrite app_nil_r. reflexivity.
Qed.

Lemma attempts_from_facts (m : nat) :
  forall first start,
    sleeps (attempts_from connect first start m)
    = delays_from (Z.of_nat start) m
    /\ connects (attempts_from connect first start m) = m
    /\ notifications (attempts_from connect first start m) = [].
Proof.
  induction m as [| m IH]; intros first start; [repeat split |].
  rewrite attempts_from_S, sleeps_app, connects_app, notifications_app.
  destruct (turn_facts (Z.of_nat start) first) as (-> & -> & ->).
  destruct (IH (match connect start with
                | Refused socket_left => socket_left
                | _ => false
                end) (S start)) as (-> & -> & ->).
  rewrite delays_from_S.
  replace (Z.of_nat (S start)) with (Z.of_nat start + 1) by lia.
  repeat split.
Qed.

(** [m] failed attempts in a row: the events, in order. *)
Lemma retry_loop_fail_trace (m : nat) :
  forall fuel c calls trace,
    running c = false ->
    reconnect_attempts c = Z.of_nat calls ->
    reconnect_attempts c + Z.of_nat m = max_reconnect_attempts c ->
    (m <= fuel)%nat ->
    (forall n, (calls <= n < calls + m)%nat -> connect n <> Connected) ->
    exists c',
      retry_loop connect fuel c calls trace
      = Some (c', trace ++ attempts_from connect (ws c) calls m, false)
      /\ running c' = false
      /\ on_disconnect c' = on_disconnect c.
Proof.
  induction m as [| m IH]; intros fuel c calls trace Hrun Hcalls Hmax Hfuel Hfail.
  - exists c. unfold attempts_from. cbn [seq fmap list_fmap concat].
    rewrite app_nil_r.
    assert (Hstop : (reconnect_attempts c <? max_reconnect_attempts c) = false)
      by (apply Z.ltb_ge; lia).
    destruct fuel; cbn [retry_loop]; rewrite Hstop; cbn;
      repeat split; first [reflexivity | assumption].
  - destruct fuel as [| fuel]; [lia |].
    cbn [retry_loop].
    assert (Hgo : (reconnect_attempts c <? max_reconnect_attempts c) = true)
      by (apply Z.ltb_lt; lia).
    rewrite Hgo, Hrun. cbn [andb negb].
    cbn [set_attempts set_ws reconnect_attempts ws auto_reconnect
         max_reconnect_attempts running on_disconnect].
    rewrite turn_trace, attempts_from_S, Hcalls, app_assoc.
    pose proof (Hfail calls ltac:(lia)) as Hnow.
    destruct (connect calls) as [| socket_left |]; [done | |].
    + edestruct (IH fuel
                   (set_ws socket_left
                      (mkClient (auto_reconnect c) (max_reconnect_attempts c)
                         (Z.of_nat calls + 1) (running c) false
                         (on_disconnect c)))
                   (S calls) (trace ++ turn (Z.of_nat calls) (ws c)))
        as (c' & Hloop & Hr & Hd).
      * exact Hrun.
      * cbn. lia.
      * cbn. lia.
      * lia.
      * intros n Hn. apply Hfail. lia.
      * exists c'. split; [exact Hloop | split; assumption].
    + edestruct (IH fuel
                   (mkClient (auto_reconnect c) (max_reconnect_attempts c)
                      (Z.of_nat calls + 1) (running c) false
                      (on_disconnect c))
                   (S calls) (trace ++ turn (Z.of_nat calls) (ws c)))
        as (c' & Hloop & Hr & Hd).
      * exact Hrun.
      * cbn. lia.
      * cbn. lia.
      * lia.
      * intros n Hn. apply Hfail. lia.
      * exists c'. split; [exact Hloop | split; assumption].
Qed.

(** [k] failed attempts and then a successful one: the events, in
    order. *)
Lemma retry_loop_success_trace (k : nat) :
  forall fuel c calls trace,
    running c = false ->
    reconnect_attempts c = Z.of_nat calls ->
    reconnect_attempts c + Z.of_nat k < max_reconnect_attempts c ->
    (k < fuel)%nat ->
    (forall n, (calls <= n < calls + k)%nat -> connect n <> Connected) ->
    connect (calls + k)%nat = Connected ->
    exists c',
      retry_loop connect fuel c calls trace
      = Some (c', trace ++ attempts_from connect (ws c) calls (S k), true)
      /\ reconnect_attempts c' = 0
      /\ running c' = true.
Proof.
  induction k as [| k IH];
    intros fuel c calls trace Hrun Hcalls Hmax Hfuel Hfail Hok;
    (destruct fuel as [| fuel]; [lia |]);
    cbn [retry_loop];
    assert (Hgo : (reconnect_attempts c <? max_reconnect_attempts c) = true)
      by (apply Z.ltb_lt; lia);
    rewrite Hgo, Hrun; cbn [andb negb];
    cbn [set_attempts set_ws reconnect_attempts ws auto_reconnect
         max_reconnect_attempts running on_disconnect];
    rewrite turn_trace, attempts_from_S, Hcalls.
  - rewrite Nat.add_0_r in Hok. rewrite Hok.
    unfold attempts_from. cbn [seq fmap list_fmap concat]. rewrite app_nil_r.
    eexists. split; [reflexivity |]. split; reflexivity.
  - pose proof (Hfail calls ltac:(lia)) as Hnow.
    replace (calls + S k)%nat with (S calls + k)%nat in Hok by lia.
    rewrite app_assoc.
    destruct (connect calls) as [| socket_left |]; [done | |].
    + edestruct (IH fuel
                   (set_ws socket_left
                      (mkClient (auto_reconnect c) (max_reconnect_attempts c)
                         (Z.of_nat calls + 1) (running c) false
                         (on_disconnect c)))
                   (S calls) (trace ++ turn (Z.of_nat calls) (ws c)))
        as (c' & Hloop & Ha & Hr).
      * exact Hrun.
      * cbn. lia.
      * cbn. lia.
      * lia.
      * intros n Hn. apply Hfail. lia.
      * exact Hok.
      * exists c'. split; [exact Hloop | split; assumption].
    + edestruct (IH fuel
                   (mkClient (auto_reconnect c) (max_reconnect_attempts c)
                      (Z.of_nat calls + 1) (running c) false
                      (on_disconnect c))
                   (S calls) (trace ++ turn (Z.of_nat calls) (ws c)))
        as (c' & Hloop & Ha & Hr).
      * exact Hrun.
      * cbn. lia.
      * cbn. lia.
      * lia.
      * intros n Hn. apply Hfail. lia.
      * exact Hok.
      * exists c'. split; [exact Hloop | split; assumption].
Qed.

End Trace.

(** C6, as stated, fails: the loop reads no base delay.  Its waits are
    2, 4, 8, 16, 32 seconds whatever is configured; the claimed formula
    gives these waits for one base delay only (2 when the attempts are
    counted from 0, 1 when they are counted from 1), and with the delay
    of the configuration, 5 seconds, it gives 5, 10, 20, 40, 60 or 10,
    20, 40, 60, 60. *)
Lemma reconnect_loop_ignores_base_delay :
  (sleeps <$> (snd <$> reconnect_loop (fun _ => Refused false) lost_client))
  = Some [2; 4; 8; 16; 32]
  /\ spec_delay retry_delay_seconds <$> [0; 1; 2; 3; 4] = [5; 10; 20; 40; 60]
  /\ spec_delay retry_delay_seconds <$> [1; 2; 3; 4; 5] = [10; 20; 40; 60; 60]
  /\ (forall base_delay,
        spec_delay base_delay <$> [0; 1; 2; 3; 4] = [2; 4; 8; 16; 32]
        <-> base_delay = 2)
  /\ (forall base_delay,
        spec_delay base_delay <$> [1; 2; 3; 4; 5] = [2; 4; 8; 16; 32]
        <-> base_delay = 1).
Proof.
  split_and!; [reflexivity | reflexivity | reflexivity | |].
  - intros base_delay. split; [| intros ->; reflexivity].
    cbn [fmap list_fmap]. intros [= H0 _]. unfold spec_delay in H0.
    change (2 ^ 0) with 1 in H0. lia.
  - intros base_delay. split; [| intros ->; reflexivity].
    cbn [fmap list_fmap]. intros [= H1 _]. unfold spec_delay in H1.
    change (2 ^ 1) with 2 in H1. lia.
Qed.

(** C6, amended.  For a run that starts with [auto_reconnect] on and the
    connection lost, the events happen in this order: for the attempt
    number [k], counted from 1, first the sleep of [min(2^k, 60)]
    seconds, with no base delay, then the closing of a socket left over,
    then the call of [connect()].  When the first
    [max_reconnect_attempts] calls all fail the run is exactly these
    attempts, followed, if an [on_disconnect] callback is set, by one
    call of it with the give-up reason, and nothing after it; when the
    call number [k + 1] is the first to succeed, with
    [k < max_reconnect_attempts], the run is exactly the first [k + 1]
    attempts, the counter is back at 0 and there is no notification. *)
Theorem reconnect_loop_contract
    (connect : nat -> connect_result) (c : client) :
  auto_reconnect c = true ->
  running c = false ->
  0 <= max_reconnect_attempts c ->
  let n := Z.to_nat (max_reconnect_attempts c) in
  ((forall i, (i < n)%nat -> connect i <> Connected) ->
   exists c',
     reconnect_loop connect c
     = Some (c', attempts connect c n
                 ++ (if on_disconnect c
                     then [Notify "max_reconnect_attempts_reached"]
                     else []))
     /\ running c' = false)
  /\ (forall k,
        (k < n)%nat ->
        (forall i, (i < k)%nat -> connect i <> Connected) ->
        connect k = Connected ->
        exists c',
          reconnect_loop connect c = Some (c', attempts connect c (S k))
          /\ reconnect_attempts c' = 0
          /\ running c' = true)
  /\ (forall m,
        attempts connect c (S m)
        = attempts connect c m
          ++ [Sleep (Z.min (2 ^ (Z.of_nat m + 1)) 60)]
          ++ (if socket_at connect (ws c) 0 m then [CloseSocket] else [])
          ++ [Connect])
  /\ (forall m,
        sleeps (attempts connect c m) = delays m
        /\ connects (attempts connect c m) = m
        /\ notifications (attempts connect c m) = []).
Proof.
  intros Hauto Hrun Hmax n. split_and!.
  - intros Hfail. unfold reconnect_loop. rewrite Hauto. cbn [negb].
    change (Z.to_nat (max_reconnect_attempts (set_attempts 0 c))) with n.
    destruct (retry_loop_fail_trace connect n n (set_attempts 0 c) 0 [])
      as (c' & Hloop & Hr & Hd);
      [exact Hrun | reflexivity | cbn; lia | lia
       | intros i Hi; apply Hfail; lia |].
    rewrite Hloop, Hr, Hd.
    cbn [negb andb app on_disconnect set_attempts ws].
    exists c'. unfold attempts.
    destruct (on_disconnect c); rewrite ?app_nil_r; split; done.
  - intros k Hk Hfail Hok. unfold reconnect_loop. rewrite Hauto. cbn [negb].
    change (Z.to_nat (max_reconnect_attempts (set_attempts 0 c))) with n.
    destruct (retry_loop_success_trace connect k n (set_attempts 0 c) 0 [])
      as (c' & Hloop & Ha & Hr);
      [exact Hrun | reflexivity | cbn; lia | lia
       | intros i Hi; apply Hfail; lia | exact Hok |].
    rewrite Hloop. cbn [app set_attempts ws].
    exists c'. unfold attempts. split_and!; done.
  - intros m. unfold attempts. rewrite attempts_from_snoc. reflexivity.
  - intros m. unfold attempts.
    destruct (attempts_from_facts connect m (ws c) 0) as (Hs & Hc & Hn).
    rewrite Hs, Hc, Hn. split_and!; reflexivity.
Qed.

Lemma reconnect_loop_contract_witness :
  (exists c',
      reconnect_loop (fun _ => Refused false) lost_client
      = Some (c', [Sleep 2; CloseSocket; Connect; Sleep 4; Connect;
                   Sleep 8; Connect; Sleep 16; Connect; Sleep 32; Connect;
                   Notify "max_reconnect_attempts_reached"])
      /\ running c' = false)
  /\ (exists c',
        reconnect_loop (fun i => if (i =? 2)%nat then Connected else Crashed)
          lost_client
        = Some (c', [Sleep 2; CloseSocket; Connect; Sleep 4; Connect;
                     Sleep 8; Connect])
        /\ reconnect_attempts c' = 0
        /\ running c' = true).
Proof.
  split.
  - destruct (reconnect_loop_contract (fun _ => Refused false) lost_client
                eq_refl eq_refl ltac:(cbn; lia)) as [Hall _].
    destruct Hall as (c' & Hloop & Hr); [discriminate |].
    exists c'. split; [exact Hloop | exact Hr].
  - destruct (reconnect_loop_contract
                (fun i => if (i =? 2)%nat then Connected else Crashed)
                lost_client eq_refl eq_refl ltac:(cbn; lia)) as (_ & Hok & _).
    destruct (Hok 2%nat) as (c' & Hloop & Ha & Hr).
    + cbn. lia.
    + intros i Hi. destruct i as [| [| i]]; [discriminate | discriminate | lia].
    + reflexivity.
    + exists c'. split_and!; [exact Hloop | exact Ha | exact Hr].
Defined.

End ReconnectFacts.

(** ** The event bus *)

Module BusFacts.
Import Bus.

(** For an event type the bus knows, the handlers are called in the
    order of the plugin list, the disabled plugins left out. *)
Lemma dispatch_order (event_type : string) (plugins : list plugin) :
  forall result_data h log,
    (forall p, is_Some (method p event_type)) ->
    callee <$> (dispatch plugins event_type result_data h log).2
    = (callee <$> log) ++ (name <$> List.filter enabled plugins).
Proof.
  induction plugins as [| p plugins IH]; intros result_data h log Hknown.
  - cbn. rewrite app_nil_r. reflexivity.
  - cbn [dispatch List.filter].
    destruct (enabled p); cbn [negb]; [| apply IH; exact Hknown].
    destruct (Hknown p) as [f ->].
    destruct (f result_data h) as [h' [[processed |] |]];
      rewrite IH by exact Hknown;
      rewrite fmap_app, <- app_assoc; reflexivity.
Qed.

(** C7, as stated, fails: a handler that changes the payload in place
    and then raises leaves its change behind.  The plugin after it gets
    the same object, and finds the mark in it. *)
Lemma raising_plugin_leaves_its_change :
  let plugins := [plugin_of "A" returns_same;
                  plugin_of "B" marks_then_raises;
                  plugin_of "C" returns_none] in
  let data : gmap string pyval := {["content" := VStr (lit "hi")]} in
  (process_event plugins "danmaku" 0%nat [data]).2
  = [mkCall "A" 1%nat (Some data);
     mkCall "B" 1%nat (Some data);
     mkCall "C" 1%nat (Some (<["filtered" := VInt 1]> data))]
  /\ <["filtered" := VInt 1]> data <> data.
Proof.
  split; [reflexivity |].
  intros Heq.
  assert (Hl : (<["filtered" := VInt 1]>
                  ({["content" := VStr (lit "hi")]} : gmap string pyval))
               !! "filtered" = Some (VInt 1)) by apply lookup_insert_eq.
  rewrite Heq in Hl. discriminate.
Qed.

(** C7, amended.  With A, B and C registered in this order, all enabled,
    for an event type the bus knows: the three handlers are called in
    this order; A gets a copy of the event; each next handler gets the
    object the handler before it returned, or, when that handler
    returned [None] or raised, the object that handler was given.  When
    B raises, C therefore gets the object B was given, the one left by A,
    with whatever B changed in it before raising: C sees A's payload
    unchanged exactly when B left that object as it was. *)
Theorem process_event_three
    (A B C : plugin) (event_type : string) (fA fB fC : handler)
    (data : loc) (h : heap) :
  enabled A = true -> enabled B = true -> enabled C = true ->
  method A event_type = Some fA ->
  method B event_type = Some fB ->
  method C event_type = Some fC ->
  let r0 := length h in
  let h0 := h ++ [default ∅ (h !! data)] in
  let rA := next r0 (fA r0 h0).2 in
  let hA := (fA r0 h0).1 in
  let rB := next rA (fB rA hA).2 in
  let hB := (fB rA hA).1 in
  let rC := next rB (fC rB hB).2 in
  let hC := (fC rB hB).1 in
  process_event [A; B; C] event_type data h
  = (hC, rC, [mkCall (name A) r0 (Some (default ∅ (h !! data)));
              mkCall (name B) rA (hA !! rA);
              mkCall (name C) rB (hB !! rB)])
  /\ ((fB rA hA).2 = Raises ->
      rB = rA /\ (hB !! rA = hA !! rA -> hB !! rB = hA !! rA)).
Proof.
  intros HA HB HC HfA HfB HfC r0 h0 rA hA rB hB rC hC.
  split.
  - assert (Hseen : (h ++ [default ∅ (h !! data)]) !! length h
                    = Some (default ∅ (h !! data))).
    { rewrite lookup_app_r, Nat.sub_diag by lia. reflexivity. }
    subst rC hC rB hB rA hA h0 r0.
    unfold process_event. cbn [dispatch].
    rewrite HA, HB, HC, HfA, HfB, HfC. cbn [negb app].
    unfold loc, heap in *. rewrite Hseen.
    destruct (fA _ _) as [hA [[pA |] |]]; cbn [fst snd next];
      (destruct (fB _ hA) as [hB [[pB |] |]]; cbn [fst snd next];
       destruct (fC _ hB) as [hC [[pC |] |]]; reflexivity).
  - intros Hraise. subst rB. rewrite Hraise. cbn [next].
    split; [reflexivity | auto].
Qed.

Lemma process_event_three_witness :
  let data : gmap string pyval := {["content" := VStr (lit "hi")]} in
  process_event [plugin_of "A" returns_same; plugin_of "B" marks_then_raises;
                 plugin_of "C" returns_none] "danmaku" 0%nat [data]
  = ([data; <["filtered" := VInt 1]> data], 1%nat,
     [mkCall "A" 1%nat (Some data);
      mkCall "B" 1%nat (Some data);
      mkCall "C" 1%nat (Some (<["filtered" := VInt 1]> data))]).
Proof.
  intros data.
  apply (process_event_three
           (plugin_of "A" returns_same) (plugin_of "B" marks_then_raises)
           (plugin_of "C" returns_none) "danmaku"
           returns_same marks_then_raises returns_none 0%nat [data]
           eq_refl eq_refl eq_refl eq_refl eq_refl eq_refl).
Defined.

End BusFacts.

(** ** User names *)

Module NormalizerFacts.
Import Normalizer.


Lemma lstrip_subseteq (s : str) : lstrip s ⊆ s.
Proof.
  induction s as [| c s IH]; cbn [lstrip]; [done |].
  destruct (is_space c); [| done].
  intros x Hx. right. apply IH. exact Hx.
Qed.

Lemma rstrip_subseteq (s : str) : rstrip s ⊆ s.
Proof.
  unfold rstrip. intros x Hx.
  rewrite elem_of_reverse in Hx. apply lstrip_subseteq in Hx.
  rewrite elem_of_reverse in Hx. exact Hx.
Qed.

Lemma strip_subseteq (s : str) : strip s ⊆ s.
Proof.
  unfold strip. intros x Hx.
  apply lstrip_subseteq, rstrip_subseteq. exact Hx.
Qed.


(** The characters of [sep.join(parts)] come from the separator or from
    a part. *)
Lemma join_chars (sep : str) (parts : list str) (c : Z) :
  c ∈ join sep parts -> c ∈ sep \/ exists p, p ∈ parts /\ c ∈ p.
Proof.
  induction parts as [| p parts IH]; cbn [join]; intros Hc; [inversion Hc |].
  destruct parts as [| q parts].
  - right. exists p. split; [left | exact Hc].
  - apply elem_of_app in Hc as [Hc | Hc].
    { right. exists p. split; [left | exact Hc]. }
    apply elem_of_app in Hc as [Hc | Hc]; [left; exact Hc |].
    destruct (IH Hc) as [Hs | (r & Hr & Hcr)]; [left; exact Hs |].
    right. exists r. split; [right; exact Hr | exact Hcr].
Qed.


Lemma remove_url_chars (cleaned : str) (c : Z) :
  c ∈ remove_url cleaned -> c ∈ cleaned \/ c = 32.
Proof.
  unfold remove_url. intros Hc.
  destruct (_ && _); [| left; exact Hc].
  destruct (find (lit "http") cleaned 0) as [http_start |]; [| left; exact Hc].
  destruct (find_url_end _ _ _) as [url_end |].
  - destruct (lstrip (drop url_end cleaned)) as [| y after] eqn:Hafter.
    + left. eapply subseteq_take, rstrip_subseteq, Hc.
    + apply elem_of_app in Hc as [Hc | Hc].
      { left. eapply subseteq_take, rstrip_subseteq, Hc. }
      apply elem_of_app in Hc as [Hc | Hc].
      { right. apply list_elem_of_singleton in Hc. exact Hc. }
      left. rewrite <- Hafter in Hc.
      eapply subseteq_drop, lstrip_subseteq, Hc.
  - destruct (find (lit " ") cleaned http_start) as [space_end |].
    + apply elem_of_app in Hc as [Hc | Hc].
      * left. eapply subseteq_take, rstrip_subseteq, Hc.
      * left. eapply subseteq_drop, Hc.
    + left. eapply subseteq_take, rstrip_subseteq, Hc.
Qed.



End NormalizerFacts.

(** ** The request signer *)

Module WbiFacts.
Import Wbi.






(** *** The order of the keys *)

Lemma str_leb_total (a : str) : forall b, str_leb a b = true \/ str_leb b a = true.
Proof.
  induction a as [| x a IH]; intros [| y b]; cbn [str_leb]; auto.
  destruct (IH b) as [H | H]; rewrite H;
    destruct (Z.ltb_spec x y), (Z.ltb_spec y x), (Z.eqb_spec x y),
             (Z.eqb_spec y x); cbn; auto; lia.
Qed.

Lemma str_leb_trans (a : str) :
  forall b c, str_leb a b = true -> str_leb b c = true -> str_leb a c = true.
Proof.
  induction a as [| x a IH]; intros [| y b] [| z c]; cbn [str_leb]; auto;
    try discriminate.
  intros Hab Hbc.
  apply orb_true_iff in Hab as [Hab | Hab], Hbc as [Hbc | Hbc];
    rewrite ?andb_true_iff in *;
    repeat match goal with
           | H : _ /\ _ |- _ => destruct H
           | H : (_ <? _) = true |- _ => apply Z.ltb_lt in H
           | H : (_ =? _) = true |- _ => apply Z.eqb_eq in H
           end;
    apply orb_true_iff.
  - left. apply Z.ltb_lt. lia.
  - left. apply Z.ltb_lt. lia.
  - left. apply Z.ltb_lt. lia.
  - right. apply andb_true_iff. split; [apply Z.eqb_eq; lia | eauto].
Qed.

Lemma insert_sorted_perm {V} (item : str * V) (l : odict V) :
  insert_sorted item l ≡ₚ item :: l.
Proof.
  induction l as [| x l IH]; cbn [insert_sorted]; [done |].
  destruct (str_leb _ _); [done |].
  rewrite IH. apply Permutation_swap.
Qed.

Lemma sorted_perm {V} (d : odict V) : sorted d ≡ₚ d.
Proof.
  unfold sorted. induction d as [| x d IH]; cbn [foldr]; [done |].
  rewrite insert_sorted_perm, IH. done.
Qed.

Lemma insert_sorted_sorted {V} (item : str * V) (l : odict V) :
  StronglySorted key_le l -> StronglySorted key_le (insert_sorted item l).
Proof.
  induction 1 as [| x l Hl IH Hx]; cbn [insert_sorted].
  - repeat constructor.
  - destruct (str_leb item.1 x.1) eqn:Hle.
    + constructor; [constructor; assumption |].
      constructor; [exact Hle |].
      eapply Forall_impl; [exact Hx |].
      intros y Hy. unfold key_le in *. eapply str_leb_trans; eassumption.
    + constructor; [exact IH |].
      rewrite insert_sorted_perm. constructor; [| exact Hx].
      unfold key_le. destruct (str_leb_total x.1 item.1) as [H | H];
        [exact H | congruence].
Qed.

Lemma sorted_sorted {V} (d : odict V) : StronglySorted key_le (sorted d).
Proof.
  unfold sorted. induction d as [| x d IH]; cbn [foldr]; [constructor |].
  apply insert_sorted_sorted, IH.
Qed.


Lemma dict_get_set {V} (key : str) (value : V) (d : odict V) :
  dict_get key (dict_set key value d) = Some value.
Proof.
  induction d as [| [k v] d IH]; cbn [dict_set dict_get].
  - rewrite bool_decide_eq_true_2 by reflexivity. reflexivity.
  - case_bool_decide as Hk; cbn [dict_get].
    + rewrite bool_decide_eq_true_2 by exact Hk. reflexivity.
    + rewrite bool_decide_eq_false_2 by exact Hk. exact IH.
Qed.


(** Setting a key of a dict: the new item, and the items of the other
    keys. *)
Lemma dict_set_perm {V} (key : str) (value : V) (d : list (str * V)) :
  NoDup (d.*1) ->
  dict_set key value d ≡ₚ (key, value) :: filter (fun kv => kv.1 <> key) d.
Proof.
  induction d as [| [k v] d IH]; intros Hnd; cbn [dict_set]; [done |].
  apply NoDup_cons in Hnd as [Hk Hnd].
  case_bool_decide as Hkey.
  - subst k. rewrite filter_cons_False by (cbn; tauto).
    constructor.
    assert (Hall : Forall (fun kv : str * V => kv.1 <> key) d).
    { apply Forall_forall. intros [k' v'] Hin Heq. cbn in Heq. subst k'.
      apply Hk. apply list_elem_of_fmap. exists (key, v'). done. }
    clear -Hall. induction Hall as [| x l Hx _ IHl]; [done |].
    rewrite filter_cons_True by exact Hx. rewrite <- IHl. reflexivity.
  - rewrite filter_cons_True by exact Hkey.
    rewrite IH by exact Hnd. apply Permutation_swap.
Qed.

Lemma dict_set_keys {V} (key : str) (value : V) (d : list (str * V)) :
  NoDup (d.*1) -> NoDup ((dict_set key value d).*1).
Proof.
  intros Hnd. rewrite (dict_set_perm key value d Hnd).
  cbn [fmap list_fmap fst]. apply NoDup_cons. split.
  - intros Hin. apply list_elem_of_fmap in Hin as ([k v] & Hk & Hin).
    apply list_elem_of_filter in Hin as [Hne _]. cbn in *. congruence.
  - eapply sublist_NoDup; [exact Hnd |].
    apply fmap_sublist, sublist_filter.
Qed.












End WbiFacts.

(** ** Serialising headers and sending packets *)

Module WireFacts.
Import Frame FrameFacts SplitterFacts Wire.

Lemma byte_of_Z_bz (b : byte) : LiteRecord.byte_of_Z (bz b) = b.
Proof.
  unfold LiteRecord.byte_of_Z, bz.
  rewrite N2Z.id, Byte.of_to_N. reflexivity.
Qed.

Lemma byte_at_value (x shift : Z) :
  0 <= shift -> bz (byte_at x shift) = (x / 2 ^ shift) mod 256.
Proof.
  intros Hs. unfold byte_at.
  change 255 with (Z.ones 8).
  rewrite Z.land_ones, Z.shiftr_div_pow2 by lia.
  change (2 ^ 8) with 256.
  apply LiteRecordFacts.bz_byte_of_Z.
  apply Z.mod_pos_bound. lia.
Qed.

(** Reading back four packed bytes. *)
Lemma u32_pack (x : Z) :
  0 <= x < 2 ^ 32 ->
  u32 (byte_at x 24) (byte_at x 16) (byte_at x 8) (byte_at x 0) = x.
Proof.
  intros Hx. rewrite u32_value, !byte_at_value by lia.
  change (2 ^ 24) with 16777216. change (2 ^ 16) with 65536.
  change (2 ^ 8) with 256. change (2 ^ 0) with 1.
  change (2 ^ 32) with 4294967296 in Hx.
  rewrite Z.div_1_r.
  pose proof (Z.div_mod x 256 ltac:(lia)) as H0.
  pose proof (Z.div_mod (x / 256) 256 ltac:(lia)) as H1.
  pose proof (Z.div_mod (x / 256 / 256) 256 ltac:(lia)) as H2.
  rewrite !Z.div_div in H1, H2 by lia.
  change (256 * 256) with 65536 in *.
  rewrite Z.div_div in H2 by lia.
  change (65536 * 256) with 16777216 in *.
  assert (H3 : (x / 16777216) mod 256 = x / 16777216).
  { apply Z.mod_small. split; [apply Z.div_pos; lia |].
    apply Z.div_lt_upper_bound; lia. }
  pose proof (Z.mod_pos_bound x 256 ltac:(lia)).
  pose proof (Z.mod_pos_bound (x / 256) 256 ltac:(lia)).
  pose proof (Z.mod_pos_bound (x / 65536) 256 ltac:(lia)).
  lia.
Qed.

Lemma u16_pack (x : Z) :
  0 <= x < 2 ^ 16 -> u16 (byte_at x 8) (byte_at x 0) = x.
Proof.
  intros Hx. rewrite u16_value, !byte_at_value by lia.
  change (2 ^ 8) with 256. change (2 ^ 0) with 1.
  change (2 ^ 16) with 65536 in Hx.
  rewrite Z.div_1_r.
  pose proof (Z.div_mod x 256 ltac:(lia)) as H0.
  assert (H1 : (x / 256) mod 256 = x / 256).
  { apply Z.mod_small. split; [apply Z.div_pos; lia |].
    apply Z.div_lt_upper_bound; lia. }
  lia.
Qed.

Lemma fits_spec (bits x : Z) : fits bits x = true <-> 0 <= x < 2 ^ bits.
Proof. unfold fits. rewrite andb_true_iff, Z.leb_le, Z.ltb_lt. tauto. Qed.

Lemma to_bytes_ok (h : PacketHeader) :
  packable h ->
  to_bytes h
  = Ok (pack_u32 (packet_length h) ++ pack_u16 (header_length h)
        ++ pack_u16 (protocol_version h) ++ pack_u32 (operation h)
        ++ pack_u32 (sequence_id h)).
Proof.
  intros (H1 & H2 & H3 & H4 & H5). unfold to_bytes.
  apply fits_spec in H1, H2, H3, H4, H5.
  rewrite H1, H2, H3, H4, H5. reflexivity.
Qed.

Lemma be_uint_u32 (a b c d : byte) : be_uint [a; b; c; d] = u32 a b c d.
Proof. rewrite u32_value. unfold be_uint. cbn [fold_left]. lia. Qed.

Lemma be_uint_u16 (a b : byte) : be_uint [a; b] = u16 a b.
Proof. rewrite u16_value. unfold be_uint. cbn [fold_left]. lia. Qed.

Lemma header_of_packed (h : PacketHeader) (rest : list byte) :
  packable h ->
  header_of ((pack_u32 (packet_length h) ++ pack_u16 (header_length h)
              ++ pack_u16 (protocol_version h) ++ pack_u32 (operation h)
              ++ pack_u32 (sequence_id h)) ++ rest) = h.
Proof.
  intros (H1 & H2 & H3 & H4 & H5).
  unfold header_of, slice, pack_u32, pack_u16.
  cbn [app firstn skipn Nat.sub].
  rewrite !be_uint_u32, !be_uint_u16.
  rewrite !u32_pack, !u16_pack by assumption.
  destruct h. reflexivity.
Qed.

Lemma from_bytes_packed (h : PacketHeader) (rest : list byte) :
  packable h ->
  exists packed,
    to_bytes h = Ok packed
    /\ length packed = 16%nat
    /\ from_bytes (packed ++ rest) = Ok h.
Proof.
  intros Hp. eexists. split; [apply to_bytes_ok; exact Hp |].
  split; [reflexivity |].
  rewrite from_bytes_ok by (cbn; lia).
  rewrite header_of_packed by exact Hp. reflexivity.
Qed.

(** X1.  Parsing what [to_bytes] wrote gives the header back, whatever
    follows the 16 bytes, for every header whose fields fit their
    unsigned widths. *)
Theorem header_round_trip (h : PacketHeader) (rest : list byte) :
  packable h ->
  exists packed,
    to_bytes h = Ok packed
    /\ length packed = 16%nat
    /\ from_bytes (packed ++ rest) = Ok h.
Proof.
  intros Hp.
  destruct (from_bytes_packed h rest Hp) as (packed & Hpack & Hlen & Hfrom).
  exists packed. split_and!; assumption.
Qed.

Lemma header_round_trip_witness :
  exists packed,
    to_bytes (mkHeader 20 16 1 3 1) = Ok packed
    /\ length packed = 16%nat
    /\ from_bytes (packed ++ [x00; x00; x00; x2a]%byte)
       = Ok (mkHeader 20 16 1 3 1).
Proof.
  apply (header_round_trip (mkHeader 20 16 1 3 1)).
  unfold packable. cbn. lia.
Defined.

Lemma byte_at_eq (x shift : Z) (b : byte) :
  0 <= shift -> (x / 2 ^ shift) mod 256 = bz b -> byte_at x shift = b.
Proof.
  intros Hs Hb. unfold byte_at.
  change 255 with (Z.ones 8).
  rewrite Z.land_ones, Z.shiftr_div_pow2 by lia.
  change (2 ^ 8) with 256. rewrite Hb. apply byte_of_Z_bz.
Qed.

Lemma digit_of (x m q r : Z) (b : byte) :
  0 <= r < m -> x = m * q + r -> q mod 256 = bz b ->
  (x / m) mod 256 = bz b.
Proof.
  intros Hr Hx Hq.
  rewrite <- (Z.div_unique_pos x m q r Hr Hx). exact Hq.
Qed.

Lemma low_digit (q : Z) (b : byte) : (256 * q + bz b) mod 256 = bz b.
Proof.
  pose proof (bz_range b).
  symmetry. apply (Z.mod_unique_pos _ 256 q); [lia | reflexivity].
Qed.

Lemma pack_u32_bytes (a b c d : byte) :
  pack_u32 (be_uint [a; b; c; d]) = [a; b; c; d].
Proof.
  pose proof (bz_range a). pose proof (bz_range b).
  pose proof (bz_range c). pose proof (bz_range d).
  unfold pack_u32, be_uint. cbn [fold_left].
  repeat f_equal; apply byte_at_eq; try lia.
  - change (2 ^ 24) with 16777216.
    apply (digit_of _ _ (bz a) ((bz b * 256 + bz c) * 256 + bz d)); [lia | lia |].
    apply Z.mod_small. lia.
  - change (2 ^ 16) with 65536.
    apply (digit_of _ _ (256 * bz a + bz b) (bz c * 256 + bz d)); [lia | lia |].
    apply low_digit.
  - change (2 ^ 8) with 256.
    apply (digit_of _ _ (256 * (bz a * 256 + bz b) + bz c) (bz d)); [lia | lia |].
    apply low_digit.
  - change (2 ^ 0) with 1.
    apply (digit_of _ _ (256 * ((bz a * 256 + bz b) * 256 + bz c) + bz d) 0);
      [lia | lia |].
    apply low_digit.
Qed.

Lemma pack_u16_bytes (a b : byte) : pack_u16 (be_uint [a; b]) = [a; b].
Proof.
  pose proof (bz_range a). pose proof (bz_range b).
  unfold pack_u16, be_uint. cbn [fold_left].
  repeat f_equal; apply byte_at_eq; try lia.
  - change (2 ^ 8) with 256.
    apply (digit_of _ _ (bz a) (bz b)); [lia | lia |].
    apply Z.mod_small. lia.
  - change (2 ^ 0) with 1.
    apply (digit_of _ _ (256 * bz a + bz b) 0); [lia | lia |].
    apply low_digit.
Qed.

Lemma be_uint_bound4 (a b c d : byte) : 0 <= be_uint [a; b; c; d] < 2 ^ 32.
Proof.
  pose proof (bz_range a). pose proof (bz_range b).
  pose proof (bz_range c). pose proof (bz_range d).
  unfold be_uint. cbn [fold_left]. change (2 ^ 32) with 4294967296. lia.
Qed.

Lemma be_uint_bound2 (a b : byte) : 0 <= be_uint [a; b] < 2 ^ 16.
Proof.
  pose proof (bz_range a). pose proof (bz_range b).
  unfold be_uint. cbn [fold_left]. change (2 ^ 16) with 65536. lia.
Qed.

(** X2.  Serialising the header parsed from a buffer gives the first 16
    bytes of the buffer back: every header [from_bytes] returns can be
    packed, and no byte of the 16 is lost in parsing. *)
Theorem header_parse_then_pack (data : list byte) :
  (16 <= length data)%nat ->
  exists h, from_bytes data = Ok h /\ to_bytes h = Ok (take 16 data).
Proof.
  intros Hlen. exists (header_of data).
  split; [apply from_bytes_ok; exact Hlen |].
  do 16 (destruct data as [| ? data]; [simpl in Hlen; lia |]).
  unfold header_of, slice. cbn [take drop Nat.sub].
  rewrite to_bytes_ok.
  - cbn [packet_length header_length protocol_version operation sequence_id].
    rewrite !pack_u32_bytes, !pack_u16_bytes. rewrite firstn_O. reflexivity.
  - unfold packable.
    cbn [packet_length header_length protocol_version operation sequence_id].
    split_and!; first [apply be_uint_bound4 | apply be_uint_bound2].
Qed.

Lemma header_parse_then_pack_witness :
  exists h,
    from_bytes heartbeat_reply_42 = Ok h
    /\ to_bytes h = Ok (take 16 heartbeat_reply_42).
Proof.
  apply (header_parse_then_pack heartbeat_reply_42). cbn. lia.
Defined.

End WireFacts.

(** ** More on the splitter and the receive loop *)

Module SplitterExtra.
Import Frame FrameFacts SplitterFacts MessageFacts Wire WireFacts.

Lemma from_bytes_header (data : list byte) (h : PacketHeader) :
  from_bytes data = Ok h -> (16 <= length data)%nat /\ h = header_of data.
Proof.
  intros Hfb.
  destruct (Nat.lt_ge_cases (length data) 16) as [Hlt | Hge].
  - rewrite from_bytes_short in Hfb by exact Hlt. discriminate.
  - rewrite from_bytes_ok in Hfb by exact Hge. inversion Hfb. auto.
Qed.

(** The frame a turn of the loop hands over lies in the buffer. *)
Lemma found_frame_in (buffer : list byte) (offset' : nat) (header : PacketHeader) :
  valid_header header = true ->
  from_bytes (drop offset' buffer) = Ok header ->
  packet_length header <= Z.of_nat (length buffer - offset') ->
  frame_in buffer
    (header,
     slice (offset' + 16) (Z.to_nat (Z.of_nat offset' + packet_length header))
       buffer).
Proof.
  intros Hv Hfb Hfull.
  apply from_bytes_header in Hfb as [H16 ->].
  pose proof (valid_header_length _ Hv) as Hpl.
  rewrite length_drop in H16.
  set (n := Z.to_nat (packet_length (header_of (drop offset' buffer)))).
  assert (Hn : Z.of_nat n = packet_length (header_of (drop offset' buffer)))
    by (unfold n; lia).
  set (f := take n (drop offset' buffer)).
  assert (Hf : length f = n) by (unfold f; rewrite length_take, length_drop; lia).
  assert (Hhead : header_of f = header_of (drop offset' buffer)).
  { pose proof (header_of_app f (drop n (drop offset' buffer))) as Happ.
    unfold f in Happ at 2. rewrite take_drop in Happ.
    symmetry. apply Happ. lia. }
  exists offset', f. split_and!.
  - unfold slice. rewrite Hf. f_equal. lia.
  - rewrite Hf. lia.
  - unfold is_frame. rewrite from_bytes_ok by lia.
    rewrite Hhead, Hv. cbn [andb]. apply Z.eqb_eq. lia.
  - unfold frame_of. rewrite Hhead. f_equal.
    unfold slice, f. rewrite skipn_firstn_comm, drop_drop.
    f_equal. lia.
Qed.

Lemma sync_scan_none (buffer : list byte) (offset : nat) :
  forall n sync_offset,
    (forall s, (sync_offset <= s < sync_offset + n)%nat ->
               valid_header (header_of (drop (offset + s) buffer)) = false) ->
    sync_scan buffer offset sync_offset n = None.
Proof.
  induction n as [| n IH]; intros sync_offset Hbad; [reflexivity |].
  cbn [sync_scan].
  destruct (from_bytes _) as [h |] eqn:Hfb.
  - apply from_bytes_header in Hfb as [_ ->].
    rewrite Hbad by lia. apply IH. intros s Hs. apply Hbad. lia.
  - apply IH. intros s Hs. apply Hbad. lia.
Qed.

(** One stray byte in front of a run of frames. *)
Lemma stray_byte_scan (c : byte) (f rest : list byte) :
  is_frame f = true ->
  (17 <= length f + length rest)%nat ->
  sync_scan (c :: f ++ rest) 0 0
    (Nat.min 16 (length (c :: f ++ rest) - 0 - 16))
  = Some (1%nat, header_of f).
Proof.
  intros Hf Hlen.
  pose proof (shifted_header_invalid c f Hf) as Hbad.
  apply is_frame_spec in Hf as (H16 & Hv & Hpl).
  cbn [length]. rewrite length_app.
  destruct (Nat.min 16 _) as [| [| n]] eqn:Hmin; [lia | lia |].
  cbn [sync_scan Nat.add drop].
  rewrite (from_bytes_ok (c :: f ++ rest))
    by (cbn [length]; rewrite length_app; lia).
  change (c :: f ++ rest) with ((c :: f) ++ rest).
  rewrite header_of_app by (cbn [length]; lia).
  rewrite Hbad. cbn [app drop].
  rewrite drop_0, from_bytes_ok by (rewrite length_app; lia).
  rewrite header_of_app, Hv by exact H16. reflexivity.
Qed.

Section Loop.

Variable zlib : list byte -> result (list byte).
Variable brotli : option (list byte -> result (list byte)).
Variable raises : list byte -> bool.
Variable online : Z -> bool.
Variable msg_fuel : nat.

(** X3.  A packet built by [_send_packet] for an operation the splitter
    accepts and a body of 1 to 9984 bytes is one well-formed frame: when
    the handler of its operation comes back (there is none to wait for
    but for the operations 3 and 5), [_handle_packet] on it hands over
    exactly that header and that body and leaves nothing in the buffer. *)
Theorem send_packet_round_trip
    (encode : str -> list byte) (op : Z) (body : str) :
  0 <= op <= 1000 ->
  1 <= Z.of_nat (length (encode body)) <= 9984 ->
  handle_frame zlib brotli raises online msg_fuel
    (send_header op (length (encode body)), encode body) = Some tt ->
  exists packet,
    send_packet encode op body = Ok packet
    /\ is_frame packet = true
    /\ handle_packet zlib brotli raises online msg_fuel packet
       = Some ([(send_header op (length (encode body)), encode body)],
               []).
Proof.
  intros Hop Hlen Hback.
  set (h := send_header op (length (encode body))) in *.
  assert (Hp : packable h).
  { unfold packable, h, send_header.
    cbn [packet_length header_length protocol_version operation sequence_id].
    change (2 ^ 32) with 4294967296. change (2 ^ 16) with 65536. lia. }
  destruct (from_bytes_packed h (encode body) Hp) as (packed & Hpack & H16 & Hfrom).
  exists (packed ++ encode body).
  unfold send_packet. fold h. rewrite Hpack.
  assert (Hframe : is_frame (packed ++ encode body) = true).
  { unfold is_frame. rewrite Hfrom.
    apply andb_true_iff. split.
    - unfold valid_header, h, send_header.
      cbn [packet_length header_length operation Z.eqb Pos.eqb andb].
      rewrite andb_true_r, !andb_true_iff, !Z.leb_le. lia.
    - apply Z.eqb_eq. rewrite length_app, H16. unfold h, send_header.
      cbn [packet_length]. lia. }
  assert (Hof : frame_of (packed ++ encode body) = (h, encode body)).
  { unfold frame_of. rewrite drop_app_length' by (symmetry; exact H16).
    rewrite from_bytes_ok in Hfrom by (rewrite length_app; lia).
    assert (Hh : header_of (packed ++ encode body) = h) by congruence.
    rewrite Hh. reflexivity. }
  split; [reflexivity |]. split; [exact Hframe |].
  pose proof (handle_packet_frames zlib brotli raises online msg_fuel
                [packed ++ encode body] auth_reply_empty 0) as Hsplit.
  cbn [concat firstn fmap list_fmap] in Hsplit. rewrite !app_nil_r in Hsplit.
  rewrite Hsplit.
  - rewrite Hof. reflexivity.
  - repeat constructor. exact Hframe.
  - repeat constructor. unfold handled. rewrite Hof, Hback. reflexivity.
  - reflexivity.
  - cbn. lia.
  - lia.
  - cbn [followed concat firstn app]. rewrite length_app, H16.
    split; [cbn [length]; lia | exact I].
Qed.

(** What the loop keeps true: the cursor only moves forward and stays
    inside the buffer, and every frame it adds lies in the buffer and
    has been through its handler. *)
Lemma handle_loop_invariant (buffer : list byte) :
  forall fuel offset error_count frames e,
    (offset <= length buffer)%nat ->
    handle_loop zlib brotli raises online msg_fuel fuel buffer offset
      error_count frames = Some e ->
    (offset <= exit_offset e <= length buffer)%nat
    /\ exists new,
         exit_frames e = frames ++ new
         /\ Forall (frame_in buffer) new
         /\ Forall (fun fr => handle_frame zlib brotli raises online msg_fuel fr
                              = Some tt) new.
Proof.
  induction fuel as [| fuel IH]; intros offset error_count frames e Hoff Hrun;
    cbn [handle_loop] in Hrun.
  - destruct (negb _); [| discriminate].
    inversion Hrun; subst. cbn. split; [lia |].
    exists []. rewrite app_nil_r. auto.
  - destruct (negb _) eqn:Hcond.
    { inversion Hrun; subst. cbn. split; [lia |].
      exists []. rewrite app_nil_r. auto. }
    apply negb_false_iff, andb_true_iff in Hcond as [Hlt _].
    apply Nat.ltb_lt in Hlt.
    destruct (_ <? 16)%nat.
    { inversion Hrun; subst. cbn. split; [lia |].
      exists []. rewrite app_nil_r. auto. }
    destruct (sync_scan _ _ _ _) as [[offset' header] |] eqn:Hscan.
    + apply sync_scan_found in Hscan as (Hv & Hfb & Hwin).
      pose proof (from_bytes_header _ _ Hfb) as [H16 _].
      rewrite length_drop in H16.
      destruct (_ <? packet_length header) eqn:Hpart.
      * inversion Hrun; subst. cbn. split; [lia |].
        exists []. rewrite app_nil_r. auto.
      * apply Z.ltb_ge in Hpart.
        pose proof (valid_header_length _ Hv) as Hpl.
        destruct (handle_frame _ _ _ _ _ _) as [[] |] eqn:Hback;
          [| discriminate].
        apply IH in Hrun as [Hexit (new & Hnew & Hall & Hdone)]; [| lia].
        split; [lia |].
        eexists. rewrite Hnew, <- app_assoc. split; [reflexivity |].
        split; constructor; try assumption.
        apply found_frame_in; assumption.
    + apply IH in Hrun as [Hexit Hnew]; [| lia].
      split; [lia | exact Hnew].
Qed.

(** With a turn for each byte left, the loop can only fail to return
    where a handler does not come back, on a frame of the buffer. *)
Lemma handle_loop_none (buffer : list byte) :
  forall fuel offset error_count frames,
    (length buffer - offset < fuel)%nat ->
    handle_loop zlib brotli raises online msg_fuel fuel buffer offset
      error_count frames = None ->
    exists fr,
      frame_in buffer fr
      /\ handle_frame zlib brotli raises online msg_fuel fr = None.
Proof.
  induction fuel as [| fuel IH]; intros offset error_count frames Hfuel Hrun;
    [lia |].
  cbn [handle_loop] in Hrun.
  destruct (negb _); [discriminate |].
  destruct (length buffer - offset <? 16)%nat eqn:Hshort; [discriminate |].
  apply Nat.ltb_ge in Hshort.
  destruct (sync_scan _ _ _ _) as [[offset' header] |] eqn:Hscan.
  - apply sync_scan_found in Hscan as (Hv & Hfb & Hwin).
    pose proof (valid_header_length _ Hv) as Hpl.
    destruct (_ <? packet_length header) eqn:Hpart; [discriminate |].
    apply Z.ltb_ge in Hpart.
    destruct (handle_frame _ _ _ _ _ _) as [[] |] eqn:Hback.
    + apply IH in Hrun; [exact Hrun | lia].
    + eexists. split; [| exact Hback].
      apply found_frame_in; assumption.
  - apply IH in Hrun; [exact Hrun | lia].
Qed.

(** X4.  [_handle_packet] is sound on every buffer.  When it returns,
    what it leaves in the buffer is an end part of the buffer, and every
    frame it gave to a handler is a well-formed frame that lies whole in
    the buffer (no partial frame and no frame with a refused header is
    ever surfaced) and whose handler came back.  Its own loop always
    ends: it can only fail to return where the handler of a well-formed
    frame of the buffer does not come back, and it returns when the
    handlers of all such frames do. *)
Theorem handle_packet_sound (buffer : list byte) :
  (forall frames rest,
      handle_packet zlib brotli raises online msg_fuel buffer
      = Some (frames, rest) ->
      rest `suffix_of` buffer
      /\ Forall (frame_in buffer) frames
      /\ Forall (fun fr => handle_frame zlib brotli raises online msg_fuel fr
                           = Some tt) frames)
  /\ (handle_packet zlib brotli raises online msg_fuel buffer = None ->
      exists fr,
        frame_in buffer fr
        /\ handle_frame zlib brotli raises online msg_fuel fr = None)
  /\ ((forall fr,
          frame_in buffer fr ->
          handle_frame zlib brotli raises online msg_fuel fr = Some tt) ->
      is_Some (handle_packet zlib brotli raises online msg_fuel buffer)).
Proof.
  assert (Hnone : handle_packet zlib brotli raises online msg_fuel buffer = None ->
                  exists fr,
                    frame_in buffer fr
                    /\ handle_frame zlib brotli raises online msg_fuel fr = None).
  { unfold handle_packet. intros Hrun.
    destruct (handle_loop _ _ _ _ _ _ _ _ _ _) as [e |] eqn:Hloop.
    - destruct (_ <=? _)%nat; [discriminate |].
      destruct (_ <? _)%nat; discriminate.
    - eapply handle_loop_none; [| exact Hloop]. lia. }
  split_and!.
  - unfold handle_packet. intros frames rest Hrun.
    destruct (handle_loop _ _ _ _ _ _ _ _ _ _) as [e |] eqn:Hloop;
      [| discriminate].
    apply handle_loop_invariant in Hloop as [_ (new & Hnew & Hall & Hdone)];
      [| lia].
    cbn [app] in Hnew. rewrite Hnew in Hrun.
    destruct (_ <=? _)%nat.
    + inversion Hrun; subst. split_and!; [apply suffix_nil | done | done].
    + destruct (_ <? _)%nat; inversion Hrun; subst.
      * split_and!; [apply suffix_drop | done | done].
      * split_and!; done.
  - exact Hnone.
  - intros Hback.
    destruct (handle_packet _ _ _ _ _ _) as [r |] eqn:Hrun; [eauto |].
    destruct (Hnone eq_refl) as (fr & Hin & Hstuck).
    rewrite (Hback fr Hin) in Hstuck. discriminate.
Qed.

(** X5.  Two reads that cut a stream of well-formed frames anywhere,
    also in the middle of a frame, when the handlers come back on all
    these frames: the first turn of the receive loop processes the whole
    frames of the first read and keeps the part, the second turn
    completes it, so that together the two turns process all the frames,
    in order, and leave the buffer empty.  (No frame start, and not the
    part either, may have exactly 16 bytes left.) *)
Theorem receive_two_reads
    (fs1 fs2 : list (list byte)) (g : list byte) (j : nat) :
  Forall (fun f => is_frame f = true) fs1 ->
  is_frame g = true ->
  Forall (fun f => is_frame f = true) fs2 ->
  Forall (fun f => handled zlib brotli raises online msg_fuel f = true)
    (fs1 ++ g :: fs2) ->
  (j < length g)%nat ->
  j <> 16%nat ->
  followed fs1 (take j g) ->
  followed (g :: fs2) [] ->
  receive zlib brotli raises online msg_fuel [] (concat fs1 ++ take j g)
  = Some (frame_of <$> fs1, take j g)
  /\ receive_all zlib brotli raises online msg_fuel []
       [concat fs1 ++ take j g; drop j g ++ concat fs2]
     = Some (frame_of <$> (fs1 ++ g :: fs2), []).
Proof.
  intros Hfs1 Hg Hfs2 Hh Hj H16 Hfol1 Hfol2.
  apply Forall_app in Hh as [Hh1 Hh2].
  assert (Hfirst : receive zlib brotli raises online msg_fuel []
                     (concat fs1 ++ take j g)
                   = Some (frame_of <$> fs1, take j g)).
  { unfold receive. cbn [app]. apply handle_packet_frames; assumption. }
  split; [exact Hfirst |].
  cbn [receive_all]. rewrite Hfirst.
  unfold receive. rewrite app_assoc, take_drop.
  pose proof (handle_packet_frames zlib brotli raises online msg_fuel
                (g :: fs2) auth_reply_empty 0) as Hsecond.
  cbn [take concat] in Hsecond. rewrite app_nil_r in Hsecond.
  rewrite Hsecond.
  - rewrite app_nil_r, fmap_app. reflexivity.
  - constructor; assumption.
  - exact Hh2.
  - reflexivity.
  - cbn. lia.
  - lia.
  - exact Hfol2.
Qed.

(** Turns of the loop that find no header skip one byte each. *)
Lemma handle_loop_skips (buffer : list byte) (n : nat) :
  forall fuel offset error_count frames,
    (error_count + n <= max_errors)%nat ->
    (offset + n + 15 <= length buffer)%nat ->
    (forall k, (k < offset + n + 15)%nat ->
               valid_header (header_of (drop k buffer)) = false) ->
    handle_loop zlib brotli raises online msg_fuel (n + fuel) buffer offset
      error_count frames
    = handle_loop zlib brotli raises online msg_fuel fuel buffer (offset + n)
        (error_count + n) frames.
Proof.
  induction n as [| n IH]; intros fuel offset error_count frames Hec Hlen Hbad.
  - rewrite !Nat.add_0_r. reflexivity.
  - cbn [Nat.add handle_loop].
    assert (Hcond : ((offset <? length buffer)%nat
                     && (error_count <? max_errors)%nat) = true).
    { apply andb_true_iff. split; apply Nat.ltb_lt; lia. }
    rewrite Hcond. cbn [negb].
    assert (Hshort : (length buffer - offset <? 16)%nat = false)
      by (apply Nat.ltb_ge; lia).
    rewrite Hshort, sync_scan_none.
    + rewrite IH.
      * f_equal; lia.
      * lia.
      * lia.
      * intros k Hk. apply Hbad. lia.
    + intros s Hs. apply Hbad. lia.
Qed.

(** X6.  A buffer of at least 20 bytes in which none of the first 20
    positions starts an accepted header: after five skips of one byte the
    splitter gives up and throws the whole buffer away, whatever follows
    in it.  No handler is reached, so this holds whatever the handlers
    do. *)
Theorem garbage_is_discarded (buffer : list byte) :
  (20 <= length buffer)%nat ->
  (forall k, (k < 20)%nat ->
             valid_header (header_of (drop k buffer)) = false) ->
  handle_packet zlib brotli raises online msg_fuel buffer = Some ([], []).
Proof.
  intros Hlen Hbad. unfold handle_packet.
  replace (S (length buffer)) with (5 + (length buffer - 4))%nat by lia.
  rewrite (handle_loop_skips buffer 5);
    [| unfold max_errors; lia | lia | intros k Hk; apply Hbad; lia].
  cbn [Nat.add].
  destruct (length buffer - 4)%nat; cbn [handle_loop];
    rewrite andb_false_r; reflexivity.
Qed.

(** X7.  One stray byte in front of a run of well-formed frames and a
    part of one more, when the handlers come back on the frames of the
    run: the byte is dropped and all the frames of the run are
    processed, in order; the part stays in the buffer.  (The first frame
    must be followed by a byte or be longer than 16 bytes, and no later
    frame start, nor the part, may have exactly 16 bytes left.) *)
Theorem resync_before_run
    (c : byte) (f : list byte) (fs : list (list byte)) (g : list byte)
    (k : nat) :
  Forall (fun f => is_frame f = true) (f :: fs) ->
  Forall (fun f => handled zlib brotli raises online msg_fuel f = true)
    (f :: fs) ->
  is_frame g = true ->
  (k < length g)%nat ->
  k <> 16%nat ->
  followed (f :: fs) (take k g) ->
  handle_packet zlib brotli raises online msg_fuel
    (c :: concat (f :: fs) ++ take k g)
  = Some (frame_of <$> (f :: fs), take k g).
Proof.
  intros Hall Hhall Hg Hk H16 [Hlen Hfol].
  inversion Hall as [| ? ? Hf Hfs]; subst.
  inversion Hhall as [| ? ? Hh Hhs]; subst.
  pose proof (is_frame_spec f Hf) as (Hf16 & Hv & Hpl).
  apply handled_spec in Hh.
  set (rest := concat fs ++ take k g) in *.
  assert (Hbuf : c :: concat (f :: fs) ++ take k g = c :: f ++ rest).
  { cbn [concat]. rewrite <- app_assoc. reflexivity. }
  pose proof (slice_frame_body [c] f rest Hf16) as Hbody.
  cbn [length app Nat.add] in Hbody.
  rewrite Hbuf. unfold handle_packet.
  rewrite (handle_loop_found zlib brotli raises online msg_fuel
             _ _ _ _ _ 1%nat (header_of f));
    [| cbn [length]; lia | unfold max_errors; lia
     | cbn [length]; rewrite length_app; lia
     | apply stray_byte_scan; assumption
     | rewrite Hpl; cbn [length]; rewrite length_app; lia
     | rewrite Hpl;
       replace (Z.to_nat (Z.of_nat 1 + Z.of_nat (length f)))
         with (S (length f)) by lia;
       cbn [Nat.add]; rewrite Hbody; exact Hh ].
  rewrite Hpl.
  replace (Z.to_nat (Z.of_nat 1 + Z.of_nat (length f))) with (S (length f))
    by lia.
  cbn [Nat.add app]. rewrite Hbody.
  fold (frame_of f).
  assert (Htail :
            handle_loop zlib brotli raises online msg_fuel
              (length (c :: f ++ rest)) (c :: f ++ rest)
              (S (length f)) 0 [frame_of f]
            = Some (mkExit (length (c :: f) + length (concat fs)) 0
                      (frame_of <$> (f :: fs)))).
  { pose proof (frames_length fs Hfs) as Hcount.
    assert (Hend : forall fuel frames,
               handle_loop zlib brotli raises online msg_fuel (S fuel)
                 ((c :: f) ++ concat fs ++ take k g)
                 (length (c :: f) + length (concat fs)) 0 frames
               = Some (mkExit (length (c :: f) + length (concat fs)) 0 frames)).
    { intros fuel frames.
      rewrite app_assoc, <- length_app.
      destruct (Nat.lt_ge_cases k 16) as [Hlt | Hge].
      - apply handle_loop_short_tail. rewrite length_take. lia.
      - apply handle_loop_long_tail; [done | lia | unfold max_errors; lia]. }
    change (c :: f ++ rest) with ((c :: f) ++ concat fs ++ take k g).
    change (S (length f)) with (length (c :: f)).
    destruct fs as [| f' fs].
    - cbn [concat length Nat.add fmap list_fmap app] in *.
      rewrite Nat.add_0_r in Hend |- *.
      rewrite length_app. cbn [length].
      replace (S (length f) + length (take k g))%nat
        with (S (length f + length (take k g))) by lia.
      apply Hend.
    - replace (length ((c :: f) ++ concat (f' :: fs) ++ take k g))
        with (length (f' :: fs)
              + S (length ((c :: f) ++ concat (f' :: fs) ++ take k g)
                   - S (length (f' :: fs))))%nat
        by (rewrite !length_app; cbn [length] in *; lia).
      rewrite (handle_loop_frames zlib brotli raises online msg_fuel
                 (f' :: fs));
        [| assumption | assumption | exact Hfol | unfold max_errors; lia
         | done].
      rewrite Hend. reflexivity. }
  match goal with
  | |- match ?X with _ => _ end = _ =>
      replace X
        with (Some (mkExit (length (c :: f) + length (concat fs)) 0
                      (frame_of <$> (f :: fs))))
        by (symmetry; exact Htail)
  end.
  cbn [exit_errors exit_offset exit_frames Nat.leb Nat.ltb max_errors].
  cbn [length Nat.add].
  f_equal. f_equal.
  change (c :: f ++ rest) with ([c] ++ f ++ rest).
  subst rest.
  rewrite !app_assoc, <- (app_assoc [c]).
  rewrite drop_app_length'; [reflexivity |].
  rewrite !length_app. cbn [length]. lia.
Qed.

(** X22.  A well-formed message-push frame whose body, once
    decompressed, starts with a header that announces a length of 0
    stalls the client: [_handle_message] does not come back on it, so
    [_handle_packet] does not return on any buffer that starts with this
    frame, whatever follows it, and neither does the turn of the receive
    loop; no later frame is processed and the buffer is not trimmed. *)
Theorem handle_packet_stalls (f rest data : list byte) :
  is_frame f = true ->
  operation (header_of f) = SEND_MSG_REPLY ->
  decompress zlib brotli (drop 16 f) (protocol_version (header_of f))
  = Ok data ->
  (16 <= length data)%nat ->
  packet_length (header_of data) = 0 ->
  (operation (header_of data) =? SEND_MSG_REPLY) && raises [] = false ->
  (17 <= length f + length rest)%nat ->
  handle_message zlib brotli raises msg_fuel (drop 16 f)
    (protocol_version (header_of f)) = None
  /\ handle_packet zlib brotli raises online msg_fuel (f ++ rest) = None
  /\ receive zlib brotli raises online msg_fuel [] (f ++ rest) = None.
Proof.
  intros Hf Hop Hdata Hlen Hzero Hquiet Hrest.
  assert (Hmsg : handle_message zlib brotli raises msg_fuel (drop 16 f)
                   (protocol_version (header_of f)) = None).
  { unfold handle_message. rewrite Hdata.
    apply parse_loop_zero_length; assumption. }
  assert (Hstuck : handled zlib brotli raises online msg_fuel f = false).
  { unfold handled, frame_of, handle_frame. rewrite Hop, Hmsg. reflexivity. }
  assert (Hpacket : handle_packet zlib brotli raises online msg_fuel (f ++ rest)
                    = None).
  { unfold handle_packet.
    rewrite (handle_loop_stuck zlib brotli raises online msg_fuel _ [] f rest
               0 []);
      [reflexivity | exact Hf | exact Hstuck | exact Hrest
       | unfold max_errors; lia]. }
  split_and!; [exact Hmsg | exact Hpacket | exact Hpacket].
Qed.

End Loop.

Lemma send_packet_round_trip_witness :
  exists packet,
    send_packet ascii_encode 2 (lit "[object Object]") = Ok packet
    /\ is_frame packet = true
    /\ handle_packet zlib_refuses None dispatch_quiet online_returns 0 packet
       = Some ([(send_header 2 (length (ascii_encode (lit "[object Object]"))),
                 ascii_encode (lit "[object Object]"))], []).
Proof.
  apply (send_packet_round_trip zlib_refuses None dispatch_quiet online_returns
           0 ascii_encode 2 (lit "[object Object]")).
  - lia.
  - unfold ascii_encode. rewrite length_fmap. cbn. lia.
  - reflexivity.
Defined.

Lemma receive_two_reads_witness :
  receive zlib_refuses None dispatch_quiet online_returns 3 []
    (concat [auth_reply_empty; message_push_json] ++ take 7 heartbeat_reply_42)
  = Some (frame_of <$> [auth_reply_empty; message_push_json],
          take 7 heartbeat_reply_42)
  /\ receive_all zlib_refuses None dispatch_quiet online_returns 3 []
       [concat [auth_reply_empty; message_push_json]
        ++ take 7 heartbeat_reply_42;
        drop 7 heartbeat_reply_42 ++ concat [heartbeat_reply_42]]
     = Some (frame_of <$> ([auth_reply_empty; message_push_json]
                           ++ heartbeat_reply_42 :: [heartbeat_reply_42]), []).
Proof.
  apply (receive_two_reads zlib_refuses None dispatch_quiet online_returns 3
           [auth_reply_empty; message_push_json] [heartbeat_reply_42]
           heartbeat_reply_42 7).
  - repeat constructor.
  - reflexivity.
  - repeat constructor.
  - repeat constructor.
  - cbn. lia.
  - lia.
  - cbn. lia.
  - cbn. lia.
Defined.

Lemma garbage_is_discarded_witness :
  handle_packet zlib_refuses None dispatch_quiet online_returns 0
    (replicate 24 x00%byte ++ heartbeat_reply_42) = Some ([], []).
Proof.
  apply garbage_is_discarded.
  - cbn. lia.
  - intros k Hk.
    do 20 (destruct k as [| k]; [reflexivity |]). lia.
Defined.

Lemma resync_before_run_witness :
  handle_packet zlib_refuses None dispatch_quiet online_returns 3
    (xff%byte :: concat [heartbeat_reply_42; message_push_json]
     ++ take 3 heartbeat_reply_42)
  = Some (frame_of <$> [heartbeat_reply_42; message_push_json],
          take 3 heartbeat_reply_42).
Proof.
  apply (resync_before_run zlib_refuses None dispatch_quiet online_returns 3
           xff%byte heartbeat_reply_42 [message_push_json]
           heartbeat_reply_42 3).
  - repeat constructor.
  - repeat constructor.
  - reflexivity.
  - cbn. lia.
  - lia.
  - cbn. lia.
Defined.

Lemma handle_packet_stalls_witness :
  handle_message zlib_refuses None dispatch_quiet 1000
    (drop 16 message_push_zeros)
    (protocol_version (header_of message_push_zeros)) = None
  /\ handle_packet zlib_refuses None dispatch_quiet online_returns 1000
       (message_push_zeros ++ heartbeat_reply_42) = None
  /\ receive zlib_refuses None dispatch_quiet online_returns 1000 []
       (message_push_zeros ++ heartbeat_reply_42) = None.
Proof.
  apply (handle_packet_stalls zlib_refuses None dispatch_quiet online_returns
           1000 message_push_zeros heartbeat_reply_42 (replicate 16 x00%byte)).
  - reflexivity.
  - reflexivity.
  - reflexivity.
  - cbn. lia.
  - reflexivity.
  - reflexivity.
  - cbn. lia.
Defined.

End SplitterExtra.

(** ** More on the nested re-split *)

Module MessageExtra.
Import Frame FrameFacts SplitterFacts.

(** X8.  A payload that starts with a header announcing a length of 0
    makes [_parse_messages] spin: the cursor does not move, so the loop
    does not return, whatever the fuel; and so does [_handle_message] on
    an uncompressed body (version 0) that starts this way. *)
Theorem parse_messages_hangs
    (zlib : list byte -> result (list byte))
    (brotli : option (list byte -> result (list byte)))
    (dispatch_raises : list byte -> bool) (data : list byte) (fuel : nat) :
  (16 <= length data)%nat ->
  packet_length (header_of data) = 0 ->
  (operation (header_of data) =? SEND_MSG_REPLY) && dispatch_raises [] = false ->
  parse_messages dispatch_raises fuel data = None
  /\ handle_message zlib brotli dispatch_raises fuel data 0 = None.
Proof.
  intros Hlen Hzero Hquiet.
  assert (Hloop : forall frames, parse_loop dispatch_raises fuel data 0 frames = None).
  { induction fuel as [| n IH]; intros frames; cbn [parse_loop].
    - assert (Hlt : (0 <? length data)%nat = true) by (apply Nat.ltb_lt; lia).
      rewrite Hlt. reflexivity.
    - assert (Hlt : (0 <? length data)%nat = true) by (apply Nat.ltb_lt; lia).
      rewrite Hlt. cbn [negb].
      rewrite drop_0, from_bytes_ok, Hzero by exact Hlen.
      change (Z.to_nat (Z.of_nat 0 + 0)) with 0%nat.
      change (slice (0 + 16) 0 data) with (@nil byte).
      rewrite Hquiet. apply IH. }
  split; [apply Hloop |].
  unfold handle_message, decompress. cbn [Z.eqb]. apply Hloop.
Qed.

Lemma parse_messages_hangs_witness :
  parse_messages (fun _ => false) 1000 (replicate 20 x00%byte) = None
  /\ handle_message (fun b => Ok b) None (fun _ => false) 1000
       (replicate 20 x00%byte) 0 = None.
Proof.
  apply (parse_messages_hangs (fun b => Ok b) None (fun _ => false)
           (replicate 20 x00%byte) 1000).
  - cbn. lia.
  - reflexivity.
  - reflexivity.
Defined.

End MessageExtra.

(** ** More on the record decoder *)

Module LiteRecordExtra.
Import LiteRecord LiteRecordFacts UserInfo.

Lemma encode_varint_length (n : nat) :
  forall v, (1 <= length (encode_varint n v) <= S n)%nat.
Proof.
  induction n as [| n IH]; intros v; cbn [encode_varint].
  - cbn. lia.
  - destruct (v <? 128); cbn [length]; [lia |].
    specialize (IH (Z.shiftr v 7)). lia.
Qed.

(** X9.  The varint loop reads back every integer below [2^64] from its
    wire encoding, wherever the encoding stands in the input and whatever
    follows it, and stops right behind it; the encoding takes at most 10
    bytes. *)
Theorem varint_round_trip (fuel : nat) (pre rest : list byte) (v : Z) :
  0 <= v < 2 ^ 64 ->
  (10 <= fuel)%nat ->
  read_varint fuel (pre ++ varint v ++ rest) (length pre) 0 0
  = Some (Ok (v, (length pre + length (varint v))%nat))
  /\ (1 <= length (varint v) <= 10)%nat.
Proof.
  intros Hv Hfuel.
  pose proof (encode_varint_length 9 v) as Hlen. fold (varint v) in Hlen.
  split; [| exact Hlen].
  unfold varint. rewrite read_varint_encode.
  - rewrite Z.shiftl_0_r, Z.lor_0_l. reflexivity.
  - change (2 ^ (7 * (Z.of_nat 9 + 1))) with (2 ^ 70).
    assert (2 ^ 64 < 2 ^ 70) by reflexivity. lia.
  - lia.
  - cbn. lia.
  - unfold varint in Hlen. lia.
Qed.

Lemma varint_round_trip_witness :
  read_varint 10 ([x08]%byte ++ varint 439367700 ++ [x12]%byte)
    (length [x08]%byte) 0 0
  = Some (Ok (439367700, (length [x08]%byte + length (varint 439367700))%nat))
  /\ (1 <= length (varint 439367700) <= 10)%nat.
Proof.
  apply (varint_round_trip 10 [x08]%byte [x12]%byte 439367700).
  - assert (439367700 < 2 ^ 64) by reflexivity. lia.
  - lia.
Defined.

Lemma group_bound (value byte_val shift : Z) :
  0 <= shift -> 0 <= value < 2 ^ shift ->
  0 <= Z.lor value (Z.shiftl (Z.land byte_val 127) shift) < 2 ^ (shift + 7).
Proof.
  intros Hs Hv.
  pose proof (land_127_range byte_val) as Hm.
  assert (Hsh : 0 <= Z.shiftl (Z.land byte_val 127) shift)
    by (apply Z.shiftl_nonneg; lia).
  split; [apply Z.lor_nonneg; lia |].
  pose proof (Z.add_lor_land value (Z.shiftl (Z.land byte_val 127) shift)) as Hadd.
  assert (Hland : 0 <= Z.land value (Z.shiftl (Z.land byte_val 127) shift))
    by (apply Z.land_nonneg; lia).
  rewrite Z.shiftl_mul_pow2 in * by lia.
  rewrite Z.pow_add_r by lia. change (2 ^ 7) with 128.
  nia.
Qed.

(** The varint loop after [k] groups: at most [10 - k] more bytes. *)
Lemma read_varint_bounded (pb : list byte) :
  forall fuel i value shift k v j,
    shift = 7 * Z.of_nat k -> (k <= 9)%nat ->
    0 <= value < 2 ^ shift ->
    read_varint fuel pb i value shift = Some (Ok (v, j)) ->
    (i <= j <= i + (10 - k))%nat /\ 0 <= v < 2 ^ 70.
Proof.
  induction fuel as [| fuel IH]; intros i value shift k v j Hsh Hk Hv Hrun;
    cbn [read_varint] in Hrun.
  - destruct (negb _); [| discriminate].
    inversion Hrun; subst. split; [lia |].
    assert (2 ^ (7 * Z.of_nat k) <= 2 ^ 70)
      by (apply Z.pow_le_mono_r; lia).
    lia.
  - destruct (negb _).
    { inversion Hrun; subst. split; [lia |].
      assert (2 ^ (7 * Z.of_nat k) <= 2 ^ 70)
        by (apply Z.pow_le_mono_r; lia).
      lia. }
    destruct (index pb i) as [byte_val | e]; [| discriminate].
    pose proof (group_bound value byte_val shift ltac:(lia) Hv) as Hg.
    assert (Htop : 2 ^ (shift + 7) <= 2 ^ 70)
      by (apply Z.pow_le_mono_r; lia).
    destruct (Z.land byte_val 128 =? 0).
    { inversion Hrun; subst. split; lia. }
    destruct (63 <? shift + 7) eqn:Hstop.
    { inversion Hrun; subst. split; lia. }
    apply Z.ltb_ge in Hstop.
    apply (IH _ _ _ (S k)) in Hrun; [| lia | lia | exact Hg].
    lia.
Qed.

(** X10.  On every input and from every position the varint loop takes
    at most 10 bytes and returns a value from 0 to [2^70 - 1]: a run of
    continuation bits cannot keep it reading or grow the value without
    bound. *)
Theorem read_varint_bounds (fuel : nat) (pb : list byte) (i : nat) :
  (length pb - i <= fuel)%nat ->
  exists v j,
    read_varint fuel pb i 0 0 = Some (Ok (v, j))
    /\ (i <= j <= i + 10)%nat /\ 0 <= v < 2 ^ 70.
Proof.
  intros Hfuel.
  destruct (read_varint_ok pb fuel i 0 0 Hfuel ltac:(lia) ltac:(lia))
    as (v & j & Hrun & _ & _).
  exists v, j. split; [exact Hrun |].
  apply (read_varint_bounded pb fuel i 0 0 0 v j) in Hrun;
    [| reflexivity | lia | cbn; lia].
  replace (i + (10 - 0))%nat with (i + 10)%nat in Hrun by lia. exact Hrun.
Qed.

Lemma read_varint_bounds_witness :
  exists v j,
    read_varint 12 (replicate 12 xff%byte) 0 0 0 = Some (Ok (v, j))
    /\ (0 <= j <= 0 + 10)%nat /\ 0 <= v < 2 ^ 70.
Proof.
  apply (read_varint_bounds 12 (replicate 12 xff%byte) 0). cbn. lia.
Defined.

(** The skipping loop of [_parse_user_info] stops on the last byte of
    an encoded varint. *)
Lemma skip_encode (n : nat) :
  forall fuel pre v rest,
    0 <= v < 2 ^ (7 * (Z.of_nat n + 1)) ->
    (length (encode_varint n v) <= fuel)%nat ->
    skip_continuation fuel (pre ++ encode_varint n v ++ rest) (length pre)
    = Some (Ok (length pre + length (encode_varint n v) - 1)%nat).
Proof.
  assert (Hlast : forall fuel pre v rest,
             0 <= v < 128 -> (1 <= fuel)%nat ->
             skip_continuation fuel (pre ++ [byte_of_Z v] ++ rest) (length pre)
             = Some (Ok (length pre + 1 - 1)%nat)).
  { intros fuel pre v rest Hv Hfuel.
    destruct fuel as [| fuel]; [lia |].
    cbn [skip_continuation]. rewrite length_app.
    assert (Hi : (length pre <? length pre + length ([byte_of_Z v] ++ rest))%nat
                 = true) by (apply Nat.ltb_lt; cbn [length app]; lia).
    rewrite Hi. cbn [negb]. unfold index.
    rewrite lookup_app_r, Nat.sub_diag by lia. cbn [app lookup list_lookup].
    rewrite bz_byte_of_Z by lia.
    destruct (last_byte v Hv) as [_ ->]. cbn [Z.eqb].
    do 2 f_equal. lia. }
  induction n as [| n IH]; intros fuel pre v rest Hv Hfuel.
  - cbn [encode_varint length] in *. apply Hlast; [| lia].
    change (2 ^ (7 * (Z.of_nat 0 + 1))) with 128 in Hv. exact Hv.
  - cbn [encode_varint] in *.
    destruct (v <? 128) eqn:Hsmall.
    + apply Z.ltb_lt in Hsmall. cbn [length] in *. apply Hlast; lia.
    + apply Z.ltb_ge in Hsmall. cbn [length] in Hfuel |- *.
      destruct fuel as [| fuel]; [lia |].
      cbn [skip_continuation]. rewrite length_app.
      assert (Hi : (length pre
                    <? length pre
                       + length ((byte_of_Z (Z.lor (Z.land v 127) 128)
                                  :: encode_varint n (Z.shiftr v 7)) ++ rest))%nat
                   = true) by (apply Nat.ltb_lt; cbn [length app]; lia).
      rewrite Hi. cbn [negb]. unfold index.
      rewrite lookup_app_r, Nat.sub_diag by lia. cbn [app lookup list_lookup].
      destruct (continuation_byte v) as (Hrange & _ & Hhigh).
      rewrite bz_byte_of_Z by exact Hrange.
      rewrite Hhigh. cbn [Z.eqb].
      specialize (IH fuel (pre ++ [byte_of_Z (Z.lor (Z.land v 127) 128)])
                    (Z.shiftr v 7) rest).
      rewrite <- app_assoc, length_app in IH. cbn [app length] in IH.
      rewrite IH.
      * pose proof (encode_varint_length n (Z.shiftr v 7)).
        do 2 f_equal. lia.
      * rewrite Z.shiftr_div_pow2 by lia. split.
        -- apply Z.div_pos; lia.
        -- apply Z.div_lt_upper_bound; [lia |].
           rewrite <- Z.pow_add_r by lia.
           replace (7 + 7 * (Z.of_nat n + 1)) with (7 * (Z.of_nat (S n) + 1))
             by lia.
           lia.
      * lia.
Qed.

(** One turn of the loop of [_parse_user_info] on an encoded field. *)
Lemma user_info_loop_field (fuel : nat) (pre rest : list byte) (fd : field)
    (res : gmap string pyval) :
  wf_field fd ->
  user_info_loop (S fuel) (pre ++ encode_field fd ++ rest) (length pre) res
  = user_info_loop fuel (pre ++ encode_field fd ++ rest)
      (length pre + length (encode_field fd)) (store_user_field res fd).
Proof.
  intros Hwf.
  assert (Hi : (length pre <? length (pre ++ encode_field fd ++ rest))%nat
               = true).
  { apply Nat.ltb_lt. rewrite !length_app.
    destruct fd; cbn [encode_field length]; lia. }
  cbn [user_info_loop]. rewrite Hi. cbn [negb]. unfold index.
  rewrite lookup_app_r, Nat.sub_diag by lia.
  destruct fd as [fn v | fn data | fn b0 b1 b2 b3];
    cbn [encode_field app lookup list_lookup wf_field store_user_field] in *.
  - destruct Hwf as [Hfn Hv].
    destruct (tag_value fn 0 Hfn ltac:(lia)) as [_ ->]. cbn [Z.eqb].
    pose proof (encode_varint_length 9 v) as Hlen. fold (varint v) in Hlen.
    set (D := pre ++ tag fn 0 :: varint v ++ rest) in *.
    assert (HD : length D = (length pre + 1 + length (varint v) + length rest)%nat).
    { subst D. rewrite length_app. cbn [length]. rewrite length_app. lia. }
    assert (Hskip : skip_continuation (length D) D (length pre + 1)
                    = Some (Ok (length pre + length (varint v))%nat)).
    { assert (Hrange : 0 <= v < 2 ^ (7 * (Z.of_nat 9 + 1))).
      { change (2 ^ (7 * (Z.of_nat 9 + 1))) with (2 ^ 70).
        assert (2 ^ 64 < 2 ^ 70) by reflexivity. lia. }
      pose proof (skip_encode 9 (length D) (pre ++ [tag fn 0]) v rest Hrange)
        as Hrun.
      fold (varint v) in Hrun.
      replace ((pre ++ [tag fn 0]) ++ varint v ++ rest) with D in Hrun
        by (subst D; rewrite <- app_assoc; reflexivity).
      replace (length (pre ++ [tag fn 0])) with (length pre + 1)%nat in Hrun
        by (rewrite length_app; reflexivity).
      rewrite Hrun by lia. do 2 f_equal. lia. }
    rewrite Hskip.
    assert (Hin : (length pre + length (varint v) <? length D)%nat = true)
      by (apply Nat.ltb_lt; lia).
    rewrite Hin. cbn [length]. f_equal. lia.
  - destruct Hwf as [Hfn Hlen].
    destruct (tag_value fn 2 Hfn ltac:(lia)) as [-> ->]. cbn [Z.eqb].
    pose proof (read_varint_field
                  (length (pre ++ (tag fn 2 :: varint (Z.of_nat (length data))
                                   ++ data) ++ rest))
                  pre (data ++ rest) (tag fn 2)
                  (Z.of_nat (length data)) ltac:(lia)) as Hread.
    cbn [app] in Hread |- *. rewrite <- app_assoc in Hread |- *.
    rewrite Hread
      by (rewrite !length_app; cbn [length]; rewrite length_app; lia).
    clear Hread.
    set (j := (length pre + 1 + length (varint (Z.of_nat (length data))))%nat).
    set (pb := pre ++ tag fn 2 :: varint (Z.of_nat (length data)) ++ data ++ rest).
    assert (Hpb : pb = (pre ++ tag fn 2 :: varint (Z.of_nat (length data)))
                       ++ data ++ rest).
    { subst pb. rewrite <- app_assoc. reflexivity. }
    assert (Hj : j = length (pre ++ tag fn 2 :: varint (Z.of_nat (length data)))).
    { subst j. rewrite length_app. cbn [length]. lia. }
    assert (Hfit : (Z.of_nat j + Z.of_nat (length data) <=? Z.of_nat (length pb))
                   = true).
    { apply Z.leb_le. rewrite Hpb, Hj, !length_app. lia. }
    rewrite Hfit.
    replace (Z.to_nat (Z.of_nat j + Z.of_nat (length data)))
      with (j + length data)%nat by lia.
    assert (Hdata : slice j (j + length data) pb = data).
    { unfold slice. rewrite Hpb, Hj, drop_app_length.
      replace (length (pre ++ tag fn 2 :: varint (Z.of_nat (length data)))
               + length data
               - length (pre ++ tag fn 2 :: varint (Z.of_nat (length data))))%nat
        with (length data) by lia.
      apply take_app_length. }
    rewrite Hdata.
    assert (Hnext : (length pre
                     + length (tag fn 2 :: varint (Z.of_nat (length data)) ++ data)
                     = j + length data)%nat).
    { subst j. cbn [length]. rewrite length_app. lia. }
    rewrite Hnext. reflexivity.
  - destruct (tag_value fn 5 Hwf ltac:(lia)) as [_ ->]. cbn [Z.eqb length].
    f_equal. lia.
Qed.

Lemma user_info_loop_fields (fields : list field) :
  forall fuel pre rest res,
    Forall wf_field fields ->
    user_info_loop (length fields + fuel) (pre ++ encode_record fields ++ rest)
      (length pre) res
    = user_info_loop fuel (pre ++ encode_record fields ++ rest)
        (length pre + length (encode_record fields))
        (foldl store_user_field res fields).
Proof.
  induction fields as [| fd fields IH]; intros fuel pre rest res Hwf.
  - cbn. rewrite Nat.add_0_r. reflexivity.
  - inversion Hwf as [| ? ? Hfd Hfields]; subst.
    unfold encode_record in *. cbn [fmap list_fmap concat length Nat.add foldl].
    rewrite <- !app_assoc.
    rewrite user_info_loop_field by exact Hfd.
    specialize (IH fuel (pre ++ encode_field fd) rest (store_user_field res fd)
                  Hfields).
    rewrite <- !app_assoc, length_app in IH.
    rewrite IH. f_equal. rewrite length_app. lia.
Qed.

Lemma user_info_loop_stops (fuel : nat) (pre rest : list byte)
    (res : gmap string pyval) :
  stops_walk rest ->
  user_info_loop (S fuel) (pre ++ rest) (length pre) res = Some (Ok res).
Proof.
  intros [-> | [(b & tail & -> & H0 & H2 & H5)
               | (fn & len & tail & -> & Hfn & Hlen)]];
    cbn [user_info_loop]; rewrite length_app.
  - cbn [length]. rewrite Nat.add_0_r, Nat.ltb_irrefl. reflexivity.
  - assert (Hi : (length pre <? length pre + length (b :: tail))%nat = true)
      by (apply Nat.ltb_lt; cbn [length]; lia).
    rewrite Hi. cbn [negb]. unfold index.
    rewrite lookup_app_r, Nat.sub_diag by lia. cbn [lookup list_lookup].
    apply Z.eqb_neq in H0, H2, H5. rewrite H0, H2, H5. reflexivity.
  - assert (Hi : (length pre
                  <? length pre + length (tag fn 2 :: varint len ++ tail))%nat
                 = true) by (apply Nat.ltb_lt; cbn [length]; lia).
    rewrite Hi. cbn [negb]. unfold index.
    rewrite lookup_app_r, Nat.sub_diag by lia. cbn [lookup list_lookup].
    destruct (tag_value fn 2 Hfn ltac:(lia)) as [_ ->]. cbn [Z.eqb].
    pose proof (read_varint_field
                  (length pre + length (tag fn 2 :: varint len ++ tail))
                  pre tail (tag fn 2) len ltac:(lia)) as Hread.
    cbn [app] in Hread. rewrite Hread
      by (cbn [length]; rewrite length_app; lia).
    assert (Hover : (Z.of_nat (length pre + 1 + length (varint len)) + len
                     <=? Z.of_nat (length pre
                                   + length (tag fn 2 :: varint len ++ tail)))
                    = false).
    { apply Z.leb_gt. cbn [length]. rewrite length_app. lia. }
    rewrite Hover. reflexivity.
Qed.

Lemma parse_user_info_fields (fields : list field) (rest : list byte) :
  Forall wf_field fields ->
  stops_walk rest ->
  parse_user_info (encode_record fields ++ rest)
  = Some (foldl store_user_field ∅ fields).
Proof.
  intros Hwf Hstop. unfold parse_user_info.
  pose proof (encode_record_length fields) as Hlen.
  replace (S (length (encode_record fields ++ rest)))
    with (length fields
          + S (length (encode_record fields ++ rest) - length fields))%nat
    by (rewrite length_app; lia).
  pose proof (user_info_loop_fields fields
                (S (length (encode_record fields ++ rest) - length fields))
                [] rest ∅ Hwf) as Hrun.
  cbn [app length Nat.add] in Hrun. rewrite Hrun.
  pose proof (user_info_loop_stops
                (length (encode_record fields ++ rest) - length fields)
                (encode_record fields) rest
                (foldl store_user_field ∅ fields) Hstop) as Hend.
  rewrite Hend. reflexivity.
Qed.

(** X11.  [_parse_user_info] never takes its [except] branch, and on a
    run of encoded fields it keeps the avatar (field 1) and the name
    (field 2) that decode as UTF-8, the last one of each, passes over the
    other fields, and ends at the end of the input, at a byte of another
    wire type or at a length that runs past the input. *)
Theorem parse_user_info_contract (data : list byte) :
  (exists res, user_info_loop (S (length data)) data 0 ∅ = Some (Ok res)
               /\ parse_user_info data = Some res)
  /\ (forall fields rest,
        data = encode_record fields ++ rest ->
        Forall wf_field fields ->
        stops_walk rest ->
        parse_user_info data = Some (foldl store_user_field ∅ fields)).
Proof.
  split.
  - destruct (user_info_loop_ok data (S (length data)) 0 ∅ ltac:(lia))
      as (r & Hr).
    exists r. split; [exact Hr |]. unfold parse_user_info. rewrite Hr.
    reflexivity.
  - intros fields rest -> Hwf Hstop.
    apply parse_user_info_fields; assumption.
Qed.

Lemma parse_user_info_contract_witness :
  parse_user_info
    (encode_record [FBytes 1 [x68; x74]%byte; FVarint 7 300;
                    FBytes 2 [x68; x69]%byte]
     ++ [x0c]%byte)
  = Some (<["face" := VStr [104; 116]]> (<["name" := VStr [104; 105]]> ∅)).
Proof.
  pose proof (parse_user_info_contract
                (encode_record [FBytes 1 [x68; x74]%byte; FVarint 7 300;
                                FBytes 2 [x68; x69]%byte]
                 ++ [x0c]%byte)) as [_ Hfields].
  rewrite (Hfields [FBytes 1 [x68; x74]%byte; FVarint 7 300;
                    FBytes 2 [x68; x69]%byte] [x0c]%byte).
  - vm_compute. reflexivity.
  - reflexivity.
  - repeat constructor; cbn; lia.
  - right. left. exists x0c%byte, []. repeat split; discriminate.
Defined.

(** X12.  The name of the nested user record (field 3) becomes the
    [uname] of the event exactly when the fields before it gave no name
    or an empty one; a name already found is kept. *)
Theorem nested_name_fills_missing_name (fields ufields : list field)
    (urest : list byte) (name : pyval) :
  Forall wf_field fields ->
  Forall wf_field ufields ->
  stops_walk urest ->
  Z.of_nat (length (encode_record ufields ++ urest)) < 2 ^ 64 ->
  foldl store_user_field ∅ ufields !! "name" = Some name ->
  exists r,
    parse_simple
      (encode_record (fields ++ [FBytes 3 (encode_record ufields ++ urest)]))
    = Some (Some r)
    /\ r !! "uname"
       = if truthy (foldl store_field ∅ fields !! "uname")
         then foldl store_field ∅ fields !! "uname"
         else Some name.
Proof.
  intros Hwf Hu Hstop Hlen Hname.
  set (data := encode_record ufields ++ urest) in *.
  assert (Hall : Forall wf_field (fields ++ [FBytes 3 data])).
  { apply Forall_app. split; [exact Hwf |].
    constructor; [| constructor]. cbn [wf_field]. lia. }
  pose proof (parse_simple_fields (fields ++ [FBytes 3 data]) [] Hall
                (or_introl eq_refl)) as Hrun.
  rewrite app_nil_r in Hrun.
  eexists. split; [exact Hrun |].
  destruct (fill_defaults_lookup (foldl store_field ∅ (fields ++ [FBytes 3 data])))
    as (_ & -> & _).
  rewrite foldl_app. cbn [foldl store_field]. cbn [Z.eqb Pos.eqb].
  subst data. rewrite (parse_user_info_fields ufields urest Hu Hstop).
  rewrite Hname.
  set (before := foldl store_field ∅ fields).
  set (user := foldl store_user_field ∅ ufields).
  assert (Hface : forall res : gmap string pyval,
             match user !! "face" with
             | Some face => <["face" := face]> res
             | None => res
             end !! "uname" = res !! "uname").
  { intros res. destruct (user !! "face"); [| reflexivity].
    apply lookup_insert_ne. discriminate. }
  rewrite Hface.
  destruct (truthy (before !! "uname")) eqn:Htruthy; cbn [negb].
  - destruct (before !! "uname") as [v |] eqn:Hbefore.
    + reflexivity.
    + discriminate.
  - rewrite lookup_insert_eq. reflexivity.
Qed.

Lemma nested_name_fills_missing_name_witness :
  exists r,
    parse_simple
      (encode_record
         ([FVarint 1 42]
          ++ [FBytes 3 (encode_record [FBytes 2 [x68; x69]%byte] ++ [])]))
    = Some (Some r)
    /\ r !! "uname" = Some (VStr [104; 105]).
Proof.
  destruct (nested_name_fills_missing_name
              [FVarint 1 42] [FBytes 2 [x68; x69]%byte] [] (VStr [104; 105]))
    as (r & Hr & Hname).
  - repeat constructor; cbn; lia.
  - repeat constructor; cbn; lia.
  - left. reflexivity.
  - vm_compute. reflexivity.
  - vm_compute. reflexivity.
  - exists r. split; [exact Hr |]. exact Hname.
Defined.

(** The four keys the callers of the decoder read. *)
Lemma fill_defaults_keys (res : gmap string pyval) :
  is_Some (fill_defaults res !! "uid")
  /\ is_Some (fill_defaults res !! "uname")
  /\ is_Some (fill_defaults res !! "msg_type")
  /\ is_Some (fill_defaults res !! "timestamp").
Proof.
  destruct (fill_defaults_lookup res) as (-> & -> & -> & ->).
  split_and!; eauto.
Qed.

Lemma parse_simple_keys (pb_bytes : list byte) :
  exists r,
    parse_simple pb_bytes = Some (Some r)
    /\ is_Some (r !! "uid") /\ is_Some (r !! "uname")
    /\ is_Some (r !! "msg_type") /\ is_Some (r !! "timestamp").
Proof.
  unfold parse_simple.
  destruct (simple_loop_ok pb_bytes (S (length pb_bytes)) 0 ∅ ltac:(lia))
    as (res & ->).
  eexists. split; [reflexivity |]. apply fill_defaults_keys.
Qed.

(** X20.  [parse] returns on every input, whichever decoder is in use
    and whatever the library decoder does: [None] exactly when the text
    is not Base64, else a dict that holds the four keys [uid], [uname],
    [msg_type] and [timestamp]; when the library decoder accepts the
    bytes the [msg_type] of the dict is never 0. *)
Theorem parse_keys
    (b64decode : str -> result (list byte))
    (read_from_bytes : option (list byte -> result InteractWordV2))
    (pb_data : str) :
  exists out,
    parse b64decode read_from_bytes pb_data = Some out
    /\ (out = None <-> exists e, b64decode pb_data = Raise e)
    /\ (forall r, out = Some r ->
                  is_Some (r !! "uid") /\ is_Some (r !! "uname")
                  /\ is_Some (r !! "msg_type") /\ is_Some (r !! "timestamp"))
    /\ (forall read pb_bytes m r,
          read_from_bytes = Some read ->
          b64decode pb_data = Ok pb_bytes ->
          read pb_bytes = Ok m ->
          out = Some r ->
          r !! "msg_type" <> Some (VInt 0)).
Proof.
  unfold parse.
  destruct (b64decode pb_data) as [pb_bytes | e] eqn:Hdecode.
  2:{ exists None. split_and!; try done. split; eauto. }
  assert (Hok : forall out : option (gmap string pyval),
             is_Some out ->
             out = None <-> exists e, Ok pb_bytes = Raise e :> result (list byte)).
  { intros out [r ->]. split; [discriminate | intros [e He]; discriminate]. }
  destruct (parse_simple_keys pb_bytes) as (rs & Hsimple & Hkeys).
  destruct read_from_bytes as [read |].
  2:{ exists (Some rs). split_and!; [exact Hsimple | apply Hok; eauto | |].
      - intros r [= <-]. exact Hkeys.
      - discriminate. }
  unfold parse_with_pure_protobuf.
  destruct (read pb_bytes) as [m | e] eqn:Hread.
  2:{ exists (Some rs). split_and!; [exact Hsimple | apply Hok; eauto | |].
      - intros r [= <-]. exact Hkeys.
      - intros read' pb' m' r [= <-] [= <-] Hm. congruence. }
  assert (Hmsg : or_int (m_msg_type m) 1 <> 0).
  { unfold or_int. destruct (m_msg_type m) as [z |]; [| discriminate].
    destruct (z =? 0) eqn:Hz; [discriminate |].
    apply Z.eqb_neq in Hz. exact Hz. }
  set (res := <["timestamp" := VInt (or_int (m_timestamp m) 0)]>
                (<["msg_type" := VInt (or_int (m_msg_type m) 1)]>
                   (<["uname" := VStr (or_str (m_uname m) [])]>
                      (<["uid" := VInt (or_int (m_uid m) 0)]> ∅)))).
  assert (Hres : res !! "uid" = Some (VInt (or_int (m_uid m) 0))
                 /\ is_Some (res !! "uname")
                 /\ res !! "msg_type" = Some (VInt (or_int (m_msg_type m) 1))
                 /\ is_Some (res !! "timestamp")).
  { subst res. split_and!;
      repeat first [rewrite lookup_insert_eq
                   | rewrite lookup_insert_ne by done]; eauto. }
  destruct Hres as (Huid & Huname & Htype & Htime).
  destruct (m_uinfo m) as [uinfo |].
  - eexists. split; [reflexivity |].
    split; [apply Hok; eauto |].
    set (with_name := if _ && _ then _ else res).
    assert (Hname : with_name !! "uid" = res !! "uid"
                    /\ is_Some (with_name !! "uname")
                    /\ with_name !! "msg_type" = res !! "msg_type"
                    /\ with_name !! "timestamp" = res !! "timestamp").
    { subst with_name. destruct (_ && _); [| done].
      split_and!;
        repeat first [rewrite lookup_insert_eq
                     | rewrite lookup_insert_ne by done]; eauto. }
    destruct Hname as (Nuid & Nuname & Ntype & Ntime).
    set (with_face := if negb _ then _ else with_name).
    assert (Hface : with_face !! "uid" = with_name !! "uid"
                    /\ with_face !! "uname" = with_name !! "uname"
                    /\ with_face !! "msg_type" = with_name !! "msg_type"
                    /\ with_face !! "timestamp" = with_name !! "timestamp").
    { subst with_face.
      destruct (negb (bool_decide (or_str (ui_face uinfo) [] = [])));
        [| done].
      split_and!; rewrite lookup_insert_ne by done; reflexivity. }
    destruct Hface as (Fuid & Funame & Ftype & Ftime).
    split.
    + intros r [= <-].
      rewrite Fuid, Funame, Ftype, Ftime, Nuid, Ntype, Ntime, Huid, Htype.
      split_and!; eauto.
    + intros read' pb' m' r _ _ _ [= <-].
      rewrite Ftype, Ntype, Htype. congruence.
  - eexists. split; [reflexivity |].
    split; [apply Hok; eauto |].
    split.
    + intros r [= <-]. rewrite Huid, Htype. split_and!; eauto.
    + intros read' pb' m' r _ _ _ [= <-]. rewrite Htype. congruence.
Qed.

End LiteRecordExtra.

(** ** More on the reconnection loop *)

Module ReconnectExtra.
Import Reconnect ReconnectFacts.

Lemma wait_time_bounds (a : Z) :
  0 <= a -> 2 <= Z.min (2 ^ (a + 1)) 60 <= 60.
Proof.
  intros Ha.
  assert (2 ^ 1 <= 2 ^ (a + 1)) by (apply Z.pow_le_mono_r; lia).
  change (2 ^ 1) with 2 in *. lia.
Qed.

Section Loop.

Variable connect : nat -> connect_result.

(** Whatever [connect()] does, the [while] loop ends within the attempts
    that are left, and waits between 2 and 60 seconds before each. *)
Lemma retry_loop_bounded (fuel : nat) :
  forall c calls trace,
    0 <= reconnect_attempts c ->
    max_reconnect_attempts c - reconnect_attempts c <= Z.of_nat fuel ->
    exists c' tr ok,
      retry_loop connect fuel c calls trace = Some (c', trace ++ tr, ok)
      /\ Z.of_nat (connects tr)
         <= Z.max 0 (max_reconnect_attempts c - reconnect_attempts c)
      /\ length (sleeps tr) = connects tr
      /\ Forall (fun s => 2 <= s <= 60) (sleeps tr)
      /\ notifications tr = []
      /\ (running c = true -> tr = [])
      /\ (ok = true -> running c' = true /\ reconnect_attempts c' = 0)
      /\ (ok = false -> running c' = running c)
      /\ on_disconnect c' = on_disconnect c.
Proof.
  induction fuel as [| fuel IH]; intros c calls trace Ha Hfuel.
  - destruct ((reconnect_attempts c <? max_reconnect_attempts c)
              && negb (running c)) eqn:Hcond.
    + apply andb_true_iff in Hcond as [Hlt _]. apply Z.ltb_lt in Hlt. lia.
    + exists c, [], false. cbn [retry_loop]. rewrite Hcond, app_nil_r.
      cbn. split_and!; try done. lia.
  - destruct ((reconnect_attempts c <? max_reconnect_attempts c)
              && negb (running c)) eqn:Hcond.
    2:{ exists c, [], false. cbn [retry_loop]. rewrite Hcond, app_nil_r.
        cbn. split_and!; try done. lia. }
    cbn [retry_loop]. rewrite Hcond. cbn [negb].
    apply andb_true_iff in Hcond as [Hlt Hrun].
    apply Z.ltb_lt in Hlt. apply negb_true_iff in Hrun.
    cbn [set_attempts set_ws reconnect_attempts ws auto_reconnect
         max_reconnect_attempts running on_disconnect].
    rewrite turn_trace.
    destruct (turn_facts (reconnect_attempts c) (ws c)) as (Hs & Hc & Hn).
    pose proof (wait_time_bounds (reconnect_attempts c) Ha) as Hwait.
    destruct (connect calls) as [| socket_left |].
    + eexists _, (turn (reconnect_attempts c) (ws c)), true.
      split; [reflexivity |].
      rewrite Hs, Hc, Hn. cbn [length].
      split_and!; try done.
      * lia.
      * constructor; [exact Hwait | constructor].
      * intros Hr. congruence.
    + edestruct (IH (set_ws socket_left
                       (mkClient (auto_reconnect c) (max_reconnect_attempts c)
                          (reconnect_attempts c + 1) (running c) false
                          (on_disconnect c)))
                    (S calls) (trace ++ turn (reconnect_attempts c) (ws c)))
        as (c' & tr & ok & Hloop & Hcount & Hlen & Hsleep & Hnote & _ & Hok
            & Hno & Hd).
      * cbn. lia.
      * cbn. lia.
      * exists c', (turn (reconnect_attempts c) (ws c) ++ tr), ok.
        split; [rewrite app_assoc; exact Hloop |].
        rewrite sleeps_app, connects_app, notifications_app, Hs, Hc, Hn, Hnote.
        cbn in Hcount, Hno, Hd |- *.
        split_and!; try done.
        -- lia.
        -- lia.
        -- constructor; [exact Hwait | exact Hsleep].
        -- intros Hr. congruence.
    + edestruct (IH (mkClient (auto_reconnect c) (max_reconnect_attempts c)
                       (reconnect_attempts c + 1) (running c) false
                       (on_disconnect c))
                    (S calls) (trace ++ turn (reconnect_attempts c) (ws c)))
        as (c' & tr & ok & Hloop & Hcount & Hlen & Hsleep & Hnote & _ & Hok
            & Hno & Hd).
      * cbn. lia.
      * cbn. lia.
      * exists c', (turn (reconnect_attempts c) (ws c) ++ tr), ok.
        split; [rewrite app_assoc; exact Hloop |].
        rewrite sleeps_app, connects_app, notifications_app, Hs, Hc, Hn, Hnote.
        cbn in Hcount, Hno, Hd |- *.
        split_and!; try done.
        -- lia.
        -- lia.
        -- constructor; [exact Hwait | exact Hsleep].
        -- intros Hr. congruence.
Qed.

End Loop.

(** X13.  Whatever the calls of [connect()] do, [_reconnect_loop] ends;
    it calls [connect()] at most [max_reconnect_attempts] times, waits
    before each call, between 2 and 60 seconds; it gives at most one
    notification, and none when the client runs at the end; with
    [auto_reconnect] off or a client that runs already it does nothing
    at all. *)
Theorem reconnect_loop_bounded
    (connect : nat -> connect_result) (c : client) :
  exists c' tr,
    reconnect_loop connect c = Some (c', tr)
    /\ Z.of_nat (connects tr) <= Z.max 0 (max_reconnect_attempts c)
    /\ length (sleeps tr) = connects tr
    /\ Forall (fun s => 2 <= s <= 60) (sleeps tr)
    /\ (length (notifications tr) <= 1)%nat
    /\ (running c' = true -> notifications tr = [])
    /\ (auto_reconnect c = false \/ running c = true -> tr = []).
Proof.
  unfold reconnect_loop.
  destruct (auto_reconnect c) eqn:Hauto; cbn [negb].
  2:{ exists c, []. cbn. split_and!; try done; lia. }
  destruct (retry_loop_bounded connect
              (Z.to_nat (max_reconnect_attempts (set_attempts 0 c)))
              (set_attempts 0 c) 0 [])
    as (c' & tr & ok & Hloop & Hcount & Hlen & Hsleep & Hnote & Hidle & Hok
        & Hno & Hd).
  { cbn. lia. }
  { cbn. lia. }
  rewrite Hloop. cbn [app].
  cbn in Hcount, Hidle, Hno, Hd.
  rewrite Z.sub_0_r in Hcount.
  destruct ok.
  - exists c', tr. rewrite Hnote. cbn [length].
    split_and!; try done; try lia.
    intros [Hoff | Hr]; [discriminate | exact (Hidle Hr)].
  - specialize (Hno eq_refl).
    destruct (running c') eqn:Hr'; cbn [negb andb].
    + exists c', tr. rewrite Hnote. cbn [length].
      split_and!; try done; try lia.
      intros [Hoff | Hr]; [discriminate | exact (Hidle Hr)].
    + destruct (on_disconnect c').
      * exists c', (tr ++ [Notify "max_reconnect_attempts_reached"]).
        rewrite sleeps_app, connects_app, notifications_app, Hnote.
        cbn. rewrite app_nil_r, Nat.add_0_r.
        split_and!; try done; try lia.
        -- intros Hr. congruence.
        -- intros [Hoff | Hr]; [discriminate | congruence].
      * exists c', tr. rewrite Hnote. cbn [length].
        split_and!; try done; try lia.
        intros [Hoff | Hr]; [discriminate | exact (Hidle Hr)].
Qed.

End ReconnectExtra.

(** ** More on the event bus *)

Module BusExtra.
Import Bus BusFacts Plugins.

Lemma known_event_method (event_type : string) (p : plugin) :
  event_type ∈ known_events -> is_Some (method p event_type).
Proof.
  unfold known_events. rewrite !elem_of_cons, elem_of_nil.
  intros [-> | [-> | [-> | [-> | [-> | [-> | []]]]]]]; cbn; eauto.
Qed.

Lemma unknown_event_method (event_type : string) (p : plugin) :
  event_type ∉ known_events -> method p event_type = None.
Proof.
  unfold known_events. rewrite !not_elem_of_cons.
  intros (H1 & H2 & H3 & H4 & H5 & H6 & _). unfold method.
  apply String.eqb_neq in H1, H2, H3, H4, H5, H6.
  rewrite H1, H2, H3, H4, H5, H6. reflexivity.
Qed.

(** The log grows at its end, and the first handler called gets the
    object the loop starts with, as it is then. *)
Lemma dispatch_log (event_type : string) (plugins : list plugin) :
  forall result_data h log,
    exists more,
      (dispatch plugins event_type result_data h log).2 = log ++ more
      /\ forall c, head more = Some c ->
                   arg c = result_data /\ seen c = h !! result_data.
Proof.
  induction plugins as [| p plugins IH]; intros result_data h log.
  - exists []. cbn. rewrite app_nil_r. split; [reflexivity | discriminate].
  - cbn [dispatch].
    destruct (enabled p); cbn [negb]; [| apply IH].
    destruct (method p event_type) as [f |]; [| apply IH].
    set (c0 := mkCall (name p) result_data (h !! result_data)).
    assert (Hgo : forall r' h',
               exists more,
                 (dispatch plugins event_type r' h' (log ++ [c0])).2
                 = log ++ more
                 /\ forall c, head more = Some c ->
                              arg c = result_data /\ seen c = h !! result_data).
    { intros r' h'.
      destruct (IH r' h' (log ++ [c0])) as (more & Hmore & _).
      exists (c0 :: more). rewrite Hmore, <- app_assoc.
      split; [reflexivity |].
      intros c [= <-]. split; reflexivity. }
    destruct (f result_data h) as [h' [[processed |] |]]; apply Hgo.
Qed.

Lemma dispatch_unknown (event_type : string) (plugins : list plugin) :
  event_type ∉ known_events ->
  forall result_data h log,
    dispatch plugins event_type result_data h log = (h, result_data, log).
Proof.
  intros Hunknown.
  induction plugins as [| p plugins IH]; intros result_data h log;
    [reflexivity |].
  cbn [dispatch]. rewrite (unknown_event_method event_type p Hunknown).
  destruct (enabled p); apply IH.
Qed.

Lemma process_event_order_known (event_type : string)
    (plugins : list plugin) (data : loc) (h : heap) :
  event_type ∈ known_events ->
  callee <$> (process_event plugins event_type data h).2
  = name <$> List.filter enabled plugins.
Proof.
  intros Hknown. unfold process_event.
  rewrite dispatch_order by (intros p; apply known_event_method, Hknown).
  reflexivity.
Qed.

(** X14.  For one of the six event types [process_event] calls the
    handlers of the enabled plugins, in the order of the plugin table,
    and no handler of a disabled plugin; the first handler called gets a
    copy of the event, a new object, not the caller's.  For any other
    event type no handler is called and the copy is returned. *)
Theorem process_event_calls (plugins : list plugin) (event_type : string)
    (data : loc) (h : heap) :
  (event_type ∈ known_events ->
   callee <$> (process_event plugins event_type data h).2
   = name <$> List.filter enabled plugins
   /\ forall c, head (process_event plugins event_type data h).2 = Some c ->
                arg c = length h
                /\ seen c = Some (default ∅ (h !! data))
                /\ h !! arg c = None)
  /\ (event_type ∉ known_events ->
      process_event plugins event_type data h
      = (h ++ [default ∅ (h !! data)], length h, [])).
Proof.
  unfold process_event. split.
  - intros Hknown. split.
    + rewrite dispatch_order by (intros p; apply known_event_method, Hknown).
      reflexivity.
    + intros c Hc.
      destruct (dispatch_log event_type plugins (length h)
                  (h ++ [default ∅ (h !! data)]) [])
        as (more & Hmore & Hhead).
      unfold loc, heap in *. rewrite Hmore in Hc. cbn [app] in Hc.
      destruct (Hhead c Hc) as [-> ->].
      rewrite lookup_app_r, Nat.sub_diag by lia.
      split_and!; [reflexivity | reflexivity |].
      apply lookup_ge_None. lia.
  - intros Hunknown. apply dispatch_unknown. exact Hunknown.
Qed.

Lemma process_event_calls_witness :
  callee <$> (process_event
                [plugin_of "A" returns_same;
                 set_enabled false (plugin_of "B" marks_then_raises);
                 plugin_of "C" returns_none] "gift" 0%nat [∅]).2
  = ["A"; "C"]
  /\ process_event [plugin_of "A" marks_then_raises] "like" 0%nat [∅]
     = ([∅; ∅], 1%nat, []).
Proof.
  split.
  - destruct (process_event_calls
                [plugin_of "A" returns_same;
                 set_enabled false (plugin_of "B" marks_then_raises);
                 plugin_of "C" returns_none] "gift" 0%nat [∅])
      as [Hknown _].
    destruct Hknown as [Horder _]; [| exact Horder].
    unfold known_events. set_solver.
  - destruct (process_event_calls [plugin_of "A" marks_then_raises]
                "like" 0%nat [∅]) as [_ Hunknown].
    apply Hunknown.
    unfold known_events. rewrite !not_elem_of_cons.
    split_and!; try discriminate. apply not_elem_of_nil.
Defined.

Lemma filter_toggled (plugin_name : string) (b : bool) (plugins : list plugin) :
  name <$> List.filter enabled
             ((fun p => if String.eqb (name p) plugin_name
                        then set_enabled b p else p) <$> plugins)
  = name <$> List.filter
               (fun p => if String.eqb (name p) plugin_name
                         then b else enabled p) plugins.
Proof.
  induction plugins as [| p plugins IH]; [reflexivity |].
  cbn [fmap list_fmap List.filter] in *.
  destruct (String.eqb (name p) plugin_name); cbn [set_enabled enabled].
  - destruct b; cbn [fmap list_fmap name]; rewrite IH; reflexivity.
  - destruct (enabled p); cbn [fmap list_fmap]; rewrite IH; reflexivity.
Qed.

Lemma get_plugin_found (plugins : list plugin) (plugin_name : string) :
  is_Some (get_plugin plugins plugin_name)
  <-> plugin_name ∈ name <$> plugins.
Proof.
  unfold get_plugin. rewrite fmap_is_Some. split.
  - intros [[i p] Hfind].
    apply list_find_Some in Hfind as (Hi & Hname & _).
    apply String.eqb_eq in Hname. subst plugin_name.
    apply list_elem_of_fmap. exists p. split; [reflexivity |].
    eapply list_elem_of_lookup_2, Hi.
  - intros Hin. apply list_elem_of_fmap in Hin as (p & -> & Hp).
    apply list_find_elem_of with (x := p); [exact Hp |].
    apply String.eqb_refl.
Qed.

(** X15.  [toggle_plugin] succeeds exactly for a plugin of the table;
    it then records the new state, and from then on the events go to
    the plugins that were enabled before, with the toggled plugin added
    or left out, in the order of the table.  For an unknown name nothing
    changes. *)
Theorem toggle_plugin_effect (plugins : list plugin)
    (plugin_states : gmap string bool) (plugin_name : string) (b : bool)
    (event_type : string) (data : loc) (h : heap) :
  event_type ∈ known_events ->
  let '(plugins', states', ok) :=
    toggle_plugin plugins plugin_states plugin_name b in
  (ok = true <-> plugin_name ∈ name <$> plugins)
  /\ (ok = true -> states' !! plugin_name = Some b)
  /\ (ok = false -> plugins' = plugins /\ states' = plugin_states)
  /\ callee <$> (process_event plugins' event_type data h).2
     = name <$> List.filter
                  (fun p => if String.eqb (name p) plugin_name
                            then b else enabled p) plugins.
Proof.
  intros Hknown. unfold toggle_plugin.
  pose proof (get_plugin_found plugins plugin_name) as Hfound.
  destruct (get_plugin plugins plugin_name) as [p |] eqn:Hget.
  - split_and!.
    + split; [intros _; apply Hfound; eauto | reflexivity].
    + intros _. apply lookup_insert_eq.
    + discriminate.
    + rewrite process_event_order_known by exact Hknown.
      apply filter_toggled.
  - split_and!.
    + split; [discriminate |].
      intros Hin. apply Hfound in Hin. destruct Hin; discriminate.
    + discriminate.
    + intros _. split; reflexivity.
    + rewrite process_event_order_known by exact Hknown.
      assert (Hnone : forall q, q ∈ plugins ->
                                String.eqb (name q) plugin_name = false).
      { intros q Hq. apply String.eqb_neq. intros Heq.
        assert (Hin : plugin_name ∈ name <$> plugins).
        { apply list_elem_of_fmap. exists q. split; [congruence | exact Hq]. }
        apply Hfound in Hin. destruct Hin; discriminate. }
      clear Hfound Hget. induction plugins as [| q plugins IH]; [reflexivity |].
      cbn [List.filter].
      rewrite (Hnone q) by left.
      destruct (enabled q); cbn [fmap list_fmap]; rewrite IH;
        try reflexivity; intros r Hr; apply Hnone; right; exact Hr.
Qed.

Lemma toggle_plugin_effect_witness :
  callee <$> (process_event
                (toggle_plugin [plugin_of "A" returns_same;
                                plugin_of "B" returns_none] ∅ "A" false).1.1
                "gift" 0%nat [∅]).2
  = ["B"]
  /\ (toggle_plugin [plugin_of "A" returns_same;
                     plugin_of "B" returns_none] ∅ "A" false).1.2 !! "A"
     = Some false.
Proof.
  assert (Hknown : "gift" ∈ known_events) by (unfold known_events; set_solver).
  pose proof (toggle_plugin_effect
                [plugin_of "A" returns_same; plugin_of "B" returns_none]
                ∅ "A" false "gift" 0%nat [∅] Hknown) as Heffect.
  unfold toggle_plugin in Heffect |- *.
  change (get_plugin [plugin_of "A" returns_same; plugin_of "B" returns_none]
            "A") with (Some (plugin_of "A" returns_same)) in Heffect |- *.
  cbv beta iota in Heffect.
  destruct Heffect as (_ & Hstate & _ & Hcalls).
  split; [exact Hcalls | exact (Hstate eq_refl)].
Defined.

End BusExtra.

(** ** More on user names *)

Module NormalizerExtra.
Import Normalizer NormalizerFacts NameShape.

Lemma lstrip_suffix (s : str) : lstrip s `suffix_of` s.
Proof.
  induction s as [| c s IH]; cbn [lstrip]; [done |].
  destruct (is_space c); [| done].
  apply suffix_cons_r, IH.
Qed.

Lemma rstrip_prefix (s : str) : rstrip s `prefix_of` s.
Proof.
  unfold rstrip. apply prefix_suffix_reverse.
  rewrite reverse_involutive. apply lstrip_suffix.
Qed.

Lemma lstrip_head (s : str) : head_ok (lstrip s).
Proof.
  induction s as [| c s IH]; cbn [lstrip]; [exact I |].
  destruct (is_space c) eqn:Hc; [exact IH | exact Hc].
Qed.

Lemma lstrip_fixed (s : str) : head_ok s -> lstrip s = s.
Proof. destruct s as [| c s]; cbn; [done |]. intros ->. reflexivity. Qed.

Lemma prefix_head (t s : str) : t `prefix_of` s -> head_ok s -> head_ok t.
Proof.
  intros [k ->] Hs. destruct t as [| c t]; [exact I | exact Hs].
Qed.

Lemma rstrip_idem (s : str) : rstrip (rstrip s) = rstrip s.
Proof.
  unfold rstrip. rewrite reverse_involutive.
  rewrite (lstrip_fixed (lstrip (reverse s))) by apply lstrip_head.
  reflexivity.
Qed.

(** A string that neither begins nor ends with white space is left as
    it is by [strip]. *)
Lemma strip_fixed (s : str) : head_ok s -> rstrip s = s -> strip s = s.
Proof. intros Hhead Hend. unfold strip. rewrite lstrip_fixed; assumption. Qed.

(** The words of [split] hold no white space. *)
Lemma split_ws_nonspace (s : str) :
  forall cur p c,
    p ∈ split_ws s cur -> c ∈ p ->
    c ∈ cur \/ (c ∈ s /\ is_space c = false).
Proof.
  induction s as [| x s IH]; intros cur p c Hp Hc; cbn [split_ws] in Hp.
  - destruct cur; [inversion Hp |].
    apply list_elem_of_singleton in Hp. subst. left. exact Hc.
  - destruct (is_space x) eqn:Hx.
    + destruct cur as [| y cur].
      * destruct (IH [] p c Hp Hc) as [Hin | [Hin Hns]]; [inversion Hin |].
        right. split; [right; exact Hin | exact Hns].
      * apply elem_of_cons in Hp as [-> | Hp]; [left; exact Hc |].
        destruct (IH [] p c Hp Hc) as [Hin | [Hin Hns]]; [inversion Hin |].
        right. split; [right; exact Hin | exact Hns].
    + destruct (IH (cur ++ [x]) p c Hp Hc) as [Hin | [Hin Hns]].
      * apply elem_of_app in Hin as [Hin | Hin]; [left; exact Hin |].
        apply list_elem_of_singleton in Hin. subst.
        right. split; [left | exact Hx].
      * right. split; [right; exact Hin | exact Hns].
Qed.

Lemma cleaned_name_chars (username : str) (c : Z) :
  c ∈ cleaned_name username -> shown_char c.
Proof.
  unfold cleaned_name.
  set (kept := List.filter _ username).
  set (joined := join (lit " ") (split (remove_url kept))).
  intros Hc.
  assert (Hj : c ∈ joined).
  { destruct (20 <? length (strip joined))%nat.
    - eapply strip_subseteq, subseteq_take, rstrip_subseteq, Hc.
    - eapply strip_subseteq, Hc. }
  subst joined. apply join_chars in Hj as [Hsep | (p & Hp & Hcp)].
  - apply list_elem_of_singleton in Hsep. subst c.
    split; [reflexivity | reflexivity].
  - unfold split in Hp.
    destruct (split_ws_nonspace _ [] p c Hp Hcp) as [Hin | [Hin Hns]];
      [inversion Hin |].
    split; [| rewrite Hns; discriminate].
    apply remove_url_chars in Hin as [Hin | ->]; [| reflexivity].
    subst kept. apply list_elem_of_In, filter_In in Hin as [_ Hkeep].
    rewrite !orb_true_iff, Z.leb_le, !Z.eqb_eq in Hkeep.
    destruct Hkeep as [[[Hge | ->] | ->] | ->]; [exact Hge | | |];
      vm_compute in Hns; discriminate.
Qed.

Lemma cleaned_name_length (username : str) :
  (length (cleaned_name username) <= 20)%nat.
Proof.
  unfold cleaned_name.
  set (joined := join (lit " ") (split (remove_url _))).
  destruct (20 <? length (strip joined))%nat eqn:Hlong.
  - pose proof (prefix_length _ _ (rstrip_prefix (take 20 (strip joined)))).
    rewrite length_take in *. lia.
  - apply Nat.ltb_ge in Hlong. exact Hlong.
Qed.

Lemma cleaned_name_stripped (username : str) :
  strip (cleaned_name username) = cleaned_name username.
Proof.
  unfold cleaned_name.
  set (joined := join (lit " ") (split (remove_url _))).
  assert (Hhead : head_ok (strip joined)).
  { unfold strip. eapply prefix_head; [apply rstrip_prefix | apply lstrip_head]. }
  assert (Hend : rstrip (strip joined) = strip joined)
    by (unfold strip; apply rstrip_idem).
  destruct (20 <? length (strip joined))%nat.
  - apply strip_fixed; [| apply rstrip_idem].
    eapply prefix_head; [apply rstrip_prefix |].
    eapply prefix_head; [apply prefix_take | exact Hhead].
  - apply strip_fixed; assumption.
Qed.

(** X16.  The name [_clean_username] gives has at most 20 characters,
    holds no control character and no white space but the plain space,
    neither begins nor ends with white space, and is empty only for the
    empty name. *)
Theorem clean_username_shape (username : str) :
  (length (clean_username username) <= 20)%nat
  /\ Forall shown_char (clean_username username)
  /\ strip (clean_username username) = clean_username username
  /\ (clean_username username = [] <-> username = []).
Proof.
  unfold clean_username. destruct username as [| c0 s]; [| set (u := c0 :: s)].
  { split_and!; try done. cbn. lia. }
  destruct (bool_decide (cleaned_name u = []) || isspace (cleaned_name u))
    eqn:Hempty.
  - split_and!.
    + cbn. lia.
    + repeat constructor; cbn; try lia; discriminate.
    + reflexivity.
    + split; discriminate.
  - apply orb_false_iff in Hempty as [Hne _].
    apply bool_decide_eq_false in Hne.
    split_and!.
    + apply cleaned_name_length.
    + apply Forall_forall. intros c. apply cleaned_name_chars.
    + apply cleaned_name_stripped.
    + split; [intros Heq; contradiction | discriminate].
Qed.

(** *** The cleaned name is normalised *)

Lemma join_cons (sep p q : str) (ps : list str) :
  join sep (p :: q :: ps) = p ++ sep ++ join sep (q :: ps).
Proof. reflexivity. Qed.

Lemma split_ws_words (s : str) :
  forall cur, nonspace cur -> Forall word_ok (split_ws s cur).
Proof.
  induction s as [| x s IH]; intros cur Hcur; cbn [split_ws].
  - destruct cur as [| y cur]; [constructor |].
    constructor; [| constructor]. split; [discriminate | exact Hcur].
  - destruct (is_space x) eqn:Hx.
    + destruct cur as [| y cur]; [apply IH; constructor |].
      constructor; [| apply IH; constructor].
      split; [discriminate | exact Hcur].
    + apply IH. apply Forall_app. split; [exact Hcur |].
      constructor; [exact Hx | constructor].
Qed.

Lemma split_ws_word (w : str) :
  forall rest cur,
    nonspace w -> split_ws (w ++ rest) cur = split_ws rest (cur ++ w).
Proof.
  induction w as [| c w IH]; intros rest cur Hw.
  - rewrite app_nil_r. reflexivity.
  - inversion Hw as [| ? ? Hc Hw']; subst.
    cbn [app split_ws]. rewrite Hc, IH by exact Hw'.
    rewrite <- app_assoc. reflexivity.
Qed.

Lemma split_ws_join (ws : list str) :
  forall cur w,
    Forall word_ok (w :: ws) ->
    split_ws (join [32] (w :: ws)) cur = (cur ++ w) :: ws.
Proof.
  induction ws as [| w2 ws IH]; intros cur w Hws;
    inversion Hws as [| ? ? [Hne Hw] Hrest]; subst.
  - cbn [join]. rewrite <- (app_nil_r w) at 1.
    rewrite split_ws_word by exact Hw. cbn [split_ws].
    destruct (cur ++ w) eqn:Heq; [| reflexivity].
    apply app_eq_nil in Heq as [_ ->]. contradiction.
  - rewrite join_cons, split_ws_word by exact Hw.
    cbn [app split_ws].
    change (is_space 32) with true. cbv iota.
    rewrite IH by exact Hrest. cbn [app].
    destruct (cur ++ w) eqn:Heq; [| reflexivity].
    apply app_eq_nil in Heq as [_ ->]. contradiction.
Qed.

Lemma normal_join_split (s : str) :
  normal s -> join (lit " ") (split s) = s.
Proof.
  intros (ws & Hws & ->). change (lit " ") with [32]. unfold split.
  destruct ws as [| w ws]; [reflexivity |].
  rewrite split_ws_join by exact Hws. reflexivity.
Qed.

Lemma lstrip_app (a b : str) :
  lstrip (a ++ b)
  = match lstrip a with [] => lstrip b | _ => lstrip a ++ b end.
Proof.
  induction a as [| c a IH]; cbn [app lstrip]; [reflexivity |].
  destruct (is_space c); [exact IH | reflexivity].
Qed.

Lemma rstrip_app_empty (a b : str) :
  rstrip b = [] -> rstrip (a ++ b) = rstrip a.
Proof.
  unfold rstrip. intros Hb.
  assert (Hl : lstrip (reverse b) = []).
  { apply (f_equal reverse) in Hb. rewrite reverse_involutive in Hb.
    exact Hb. }
  rewrite reverse_app, lstrip_app, Hl. reflexivity.
Qed.

Lemma rstrip_app_nonempty (a b : str) :
  rstrip b <> [] -> rstrip (a ++ b) = a ++ rstrip b.
Proof.
  unfold rstrip. intros Hb.
  rewrite reverse_app, lstrip_app.
  destruct (lstrip (reverse b)) as [| c l] eqn:Hl; [contradiction |].
  rewrite reverse_app, reverse_involutive. reflexivity.
Qed.

Lemma rstrip_nonspace (w : str) : nonspace w -> rstrip w = w.
Proof.
  intros Hw. unfold rstrip.
  rewrite lstrip_fixed; [apply reverse_involutive |].
  destruct (reverse w) as [| c r] eqn:Hr; [exact I |].
  cbn [head_ok]. unfold nonspace in Hw. rewrite Forall_forall in Hw.
  apply Hw. rewrite <- elem_of_reverse, Hr. left.
Qed.

Lemma join_nonempty (w : str) (ws : list str) :
  w <> [] -> join [32] (w :: ws) <> [].
Proof.
  intros Hne. destruct ws as [| q ws]; [exact Hne |].
  rewrite join_cons. destruct w; [contradiction | discriminate].
Qed.

Lemma rstrip_join (ws : list str) :
  Forall word_ok ws -> rstrip (join [32] ws) = join [32] ws.
Proof.
  induction ws as [| w ws IH]; intros Hws; [reflexivity |].
  inversion Hws as [| ? ? [Hne Hw] Hrest]; subst.
  destruct ws as [| q ws]; [apply rstrip_nonspace, Hw |].
  rewrite join_cons.
  assert (Hq : join [32] (q :: ws) <> []).
  { inversion Hrest as [| ? ? [Hqne _] _]; subst. apply join_nonempty, Hqne. }
  rewrite app_assoc, rstrip_app_nonempty; rewrite IH by exact Hrest;
    [rewrite <- app_assoc; reflexivity | exact Hq].
Qed.

Lemma head_ok_join (ws : list str) :
  Forall word_ok ws -> head_ok (join [32] ws).
Proof.
  intros Hws. destruct ws as [| w ws]; [exact I |].
  inversion Hws as [| ? ? [Hne Hw] _]; subst.
  destruct w as [| c w]; [contradiction |].
  inversion Hw; subst.
  destruct ws; [assumption | rewrite join_cons; assumption].
Qed.

Lemma normal_word_prefix (w : str) (k : nat) :
  nonspace w -> normal (rstrip (take k w)).
Proof.
  intros Hw.
  assert (Ht : nonspace (take k w)) by (apply Forall_take, Hw).
  rewrite rstrip_nonspace by exact Ht.
  destruct (take k w) as [| c t] eqn:Htake.
  - exists []. split; [constructor | reflexivity].
  - exists [c :: t]. split; [| reflexivity].
    constructor; [| constructor]. split; [discriminate | exact Ht].
Qed.

(** Cutting normalised text and removing the white space at the cut
    leaves normalised text. *)
Lemma normal_take_rstrip (ws : list str) :
  forall k, Forall word_ok ws -> normal (rstrip (take k (join [32] ws))).
Proof.
  induction ws as [| w ws IH]; intros k Hws.
  - cbn [join]. rewrite take_nil. exists []. split; [constructor | reflexivity].
  - inversion Hws as [| ? ? [Hne Hw] Hrest]; subst.
    destruct ws as [| q ws]; [apply normal_word_prefix, Hw |].
    rewrite join_cons, take_app.
    destruct (decide (k <= length w)%nat) as [Hshort | Hlong].
    + replace (k - length w)%nat with 0%nat by lia.
      rewrite take_0, app_nil_r. apply normal_word_prefix, Hw.
    + rewrite take_ge by lia.
      destruct (k - length w)%nat as [| j] eqn:Hk; [lia |].
      cbn [app take firstn].
      destruct (IH j Hrest) as (ws' & Hws' & Hcut).
      fold (take j (join [32] (q :: ws))) in *.
      destruct ws' as [| q' ws'].
      * cbn [join] in Hcut.
        rewrite (rstrip_app_empty w (32 :: take j (join [32] (q :: ws)))).
        -- rewrite rstrip_nonspace by exact Hw.
           exists [w]. split; [| reflexivity].
           constructor; [split; assumption | constructor].
        -- change (32 :: take j (join [32] (q :: ws)))
             with ([32] ++ take j (join [32] (q :: ws))).
           rewrite rstrip_app_empty by exact Hcut. reflexivity.
      * assert (Hne' : rstrip (take j (join [32] (q :: ws))) <> []).
        { rewrite Hcut. inversion Hws' as [| ? ? [Hq' _] _]; subst.
          apply join_nonempty, Hq'. }
        assert (Hsp : rstrip (32 :: take j (join [32] (q :: ws)))
                      = 32 :: rstrip (take j (join [32] (q :: ws)))).
        { change (32 :: take j (join [32] (q :: ws)))
            with ([32] ++ take j (join [32] (q :: ws))).
          rewrite rstrip_app_nonempty by exact Hne'. reflexivity. }
        rewrite rstrip_app_nonempty by (rewrite Hsp; discriminate).
        rewrite Hsp, Hcut.
        exists (w :: q' :: ws'). split.
        -- constructor; [split; assumption | exact Hws'].
        -- rewrite join_cons. reflexivity.
Qed.

Lemma cleaned_name_normal (username : str) : normal (cleaned_name username).
Proof.
  unfold cleaned_name.
  set (kept := remove_url _).
  change (lit " ") with [32].
  assert (Hws : Forall word_ok (split kept))
    by (apply split_ws_words; constructor).
  assert (Hstrip : strip (join [32] (split kept)) = join [32] (split kept)).
  { apply strip_fixed; [apply head_ok_join | apply rstrip_join]; exact Hws. }
  rewrite Hstrip.
  destruct (20 <? length (join [32%Z] (split kept)))%nat.
  - apply normal_take_rstrip, Hws.
  - exists (split kept). split; [exact Hws | reflexivity].
Qed.

Lemma clean_username_normal (username : str) :
  normal (clean_username username).
Proof.
  unfold clean_username. destruct username as [| c0 s].
  - exists []. split; [constructor | reflexivity].
  - destruct (_ || _); [| apply cleaned_name_normal].
    exists [placeholder]. split; [| reflexivity].
    constructor; [| constructor].
    split; [discriminate | repeat constructor].
Qed.

Lemma filter_all {A} (f : A -> bool) (l : list A) :
  Forall (fun x => f x = true) l -> List.filter f l = l.
Proof.
  induction 1 as [| x l Hx _ IH]; cbn [List.filter]; [reflexivity |].
  rewrite Hx, IH. reflexivity.
Qed.

(** A name of the shape [_clean_username] gives, with no avatar URL left
    in it, is a fixed point of [_clean_username]. *)
Lemma clean_username_fixed (name : str) :
  (length name <= 20)%nat ->
  Forall shown_char name ->
  normal name ->
  contains (lit "http") name && contains (lit "bfs/face/") name = false ->
  clean_username name = name.
Proof.
  intros Hlen Hchars Hnormal Hurl.
  assert (Hclean : cleaned_name name = name).
  { unfold cleaned_name.
    rewrite filter_all.
    2:{ eapply Forall_impl; [exact Hchars |].
        intros c [Hge _]. apply Z.leb_le in Hge. rewrite Hge. reflexivity. }
    unfold remove_url. rewrite Hurl.
    rewrite normal_join_split by exact Hnormal.
    destruct Hnormal as (ws & Hws & Hjoin).
    change (lit " ") with [32] in Hjoin.
    rewrite strip_fixed;
      [| rewrite Hjoin; apply head_ok_join, Hws
       | rewrite Hjoin; apply rstrip_join, Hws].
    assert (Hfit : (20 <? length name)%nat = false) by (apply Nat.ltb_ge; lia).
    rewrite Hfit. reflexivity. }
  assert (Hhead : head_ok name).
  { destruct Hnormal as (ws & Hws & ->).
    change (lit " ") with [32]. apply head_ok_join, Hws. }
  unfold clean_username. destruct name as [| c0 s]; [reflexivity |].
  cbv zeta. rewrite Hclean.
  rewrite bool_decide_eq_false_2 by discriminate.
  cbn [head_ok] in Hhead.
  unfold isspace. cbn [forallb]. rewrite Hhead, andb_false_r. reflexivity.
Qed.

Lemma clean_username_cases (username : str) :
  clean_username username = []
  \/ clean_username username = placeholder
  \/ clean_username username = cleaned_name username.
Proof.
  unfold clean_username. destruct username as [| c0 s]; [left; reflexivity |].
  destruct (_ || _); [right; left | right; right]; reflexivity.
Qed.

Lemma clean_username_length (username : str) :
  (length (clean_username username) <= 20)%nat.
Proof.
  destruct (clean_username_cases username) as [-> | [-> | ->]];
    [cbn; lia | cbn; lia | apply cleaned_name_length].
Qed.

Lemma clean_username_chars (username : str) :
  Forall shown_char (clean_username username).
Proof.
  destruct (clean_username_cases username) as [-> | [-> | ->]].
  - constructor.
  - repeat constructor; cbn; try lia; discriminate.
  - apply Forall_forall. intros c. apply cleaned_name_chars.
Qed.

(** X17.  In the name [_clean_username] gives, the words are separated
    by exactly one plain space; and cleaning a cleaned name again, as
    [_trigger_user_enter] does with the name [_handle_interact_v2] has
    cleaned, changes nothing, unless the cleaned name still holds an
    avatar URL. *)
Theorem clean_username_again (username : str) :
  join (lit " ") (split (clean_username username)) = clean_username username
  /\ (contains (lit "http") (clean_username username)
      && contains (lit "bfs/face/") (clean_username username) = false ->
      clean_username (clean_username username) = clean_username username).
Proof.
  split.
  - apply normal_join_split, clean_username_normal.
  - intros Hurl. apply clean_username_fixed.
    + apply clean_username_length.
    + apply clean_username_chars.
    + apply clean_username_normal.
    + exact Hurl.
Qed.

Lemma clean_username_again_witness :
  clean_username (clean_username [32; 65; 9; 9; 66; 32])
  = clean_username [32; 65; 9; 9; 66; 32]
  /\ clean_username [32; 65; 9; 9; 66; 32] = [65; 32; 66].
Proof.
  destruct (clean_username_again [32; 65; 9; 9; 66; 32]) as [_ Hagain].
  split; [apply Hagain |]; vm_compute; reflexivity.
Defined.

(** X18.  [_trigger_user_enter] sends at most one event for a user id
    and a cleaned name: the history only grows, an event is sent exactly
    when the key was not in it, and after a call any further call with
    the same user id and a name that cleans to the same name sends
    nothing and leaves the history as it is. *)
Theorem trigger_user_enter_once (user_enter_history : gset str)
    (user_name user_name' : str) (user_uid : Z) (source source' : str) :
  clean_username user_name' = clean_username user_name ->
  let after :=
    (trigger_user_enter user_enter_history user_name user_uid source).1 in
  user_enter_history ⊆ after
  /\ ((trigger_user_enter user_enter_history user_name user_uid source).2 = None
      <-> str_of_Z user_uid ++ lit ":" ++ clean_username user_name
          ∈ user_enter_history)
  /\ trigger_user_enter after user_name' user_uid source' = (after, None).
Proof.
  intros Hsame after. subst after. unfold trigger_user_enter.
  rewrite Hsame.
  set (key := str_of_Z user_uid ++ lit ":" ++ clean_username user_name).
  destruct (bool_decide (key ∈ user_enter_history)) eqn:Hkey; cbn [fst snd].
  - apply bool_decide_eq_true in Hkey.
    split_and!; [done | done |].
    rewrite bool_decide_eq_true_2 by exact Hkey. reflexivity.
  - apply bool_decide_eq_false in Hkey.
    split_and!; [set_solver | split; [discriminate | contradiction] |].
    rewrite bool_decide_eq_true_2 by set_solver. reflexivity.
Qed.

Lemma trigger_user_enter_once_witness :
  trigger_user_enter
    (trigger_user_enter ∅ [32; 65; 9; 9; 66; 32] 7 (lit "gift")).1
    [65; 32; 66] 7 (lit "danmaku")
  = ((trigger_user_enter ∅ [32; 65; 9; 9; 66; 32] 7 (lit "gift")).1, None).
Proof.
  destruct (trigger_user_enter_once ∅ [32; 65; 9; 9; 66; 32] [65; 32; 66] 7
              (lit "gift") (lit "danmaku")) as (_ & _ & Hsecond).
  - vm_compute. reflexivity.
  - exact Hsecond.
Defined.

End NormalizerExtra.

(** ** The name an event shows *)

Module NormalizerContract.
Import Normalizer NormalizerFacts NameShape NormalizerExtra.




End NormalizerContract.

(** ** More on the request signer *)

Module WbiExtra.
Import Wbi WbiFacts.

Lemma str_leb_antisym (a : str) :
  forall b, str_leb a b = true -> str_leb b a = true -> a = b.
Proof.
  induction a as [| x a IH]; intros [| y b]; cbn [str_leb]; try done.
  intros Hab Hba.
  apply orb_true_iff in Hab as [Hab | Hab], Hba as [Hba | Hba];
    rewrite ?andb_true_iff in *;
    repeat match goal with
           | H : _ /\ _ |- _ => destruct H
           | H : (_ <? _) = true |- _ => apply Z.ltb_lt in H
           | H : (_ =? _) = true |- _ => apply Z.eqb_eq in H
           end; try lia.
  subst. f_equal. apply IH; assumption.
Qed.

Lemma sorted_keys_sorted {V} (d : odict V) :
  StronglySorted (fun a b => str_leb a b = true) ((sorted d).*1).
Proof.
  pose proof (sorted_sorted d) as Hs.
  induction Hs as [| x l Hl IH Hx]; cbn [fmap list_fmap]; constructor.
  - exact IH.
  - apply Forall_fmap. eapply Forall_impl; [exact Hx |]. intros y Hy. exact Hy.
Qed.

(** Two sorted lists with the same keys, each key once, and the same
    items are the same list. *)
Lemma same_keys_same_items {V} (l1 : odict V) :
  forall l2, NoDup (l1.*1) -> l1 ≡ₚ l2 -> l1.*1 = l2.*1 -> l1 = l2.
Proof.
  induction l1 as [| [k v1] l1 IH]; intros [| [k' v2] l2] Hnd Hperm Hkeys;
    try done.
  cbn [fmap list_fmap fst] in Hkeys. injection Hkeys as <- Hkeys.
  assert (Hv : v1 = v2).
  { assert (Hin : (k, v2) ∈ (k, v1) :: l1) by (rewrite Hperm; left).
    apply elem_of_cons in Hin as [Heq | Hin]; [congruence |].
    apply NoDup_cons in Hnd as [Hk _]. exfalso. apply Hk.
    apply list_elem_of_fmap. exists (k, v2). split; [reflexivity | exact Hin]. }
  subst v2. f_equal. apply IH.
  - apply NoDup_cons in Hnd as [_ Hnd]. exact Hnd.
  - eapply Permutation_cons_inv, Hperm.
  - exact Hkeys.
Qed.

Lemma sorted_unique {V} (d1 d2 : odict V) :
  NoDup (d1.*1) -> d1 ≡ₚ d2 -> sorted d1 = sorted d2.
Proof.
  intros Hnd Hperm.
  assert (Hsp : sorted d1 ≡ₚ sorted d2) by (rewrite !sorted_perm; exact Hperm).
  apply same_keys_same_items.
  - rewrite sorted_perm. exact Hnd.
  - exact Hsp.
  - assert (Hanti : AntiSymm eq (fun a b : str => str_leb a b = true)).
    { intros a b Hab Hba. apply str_leb_antisym; assumption. }
    eapply (StronglySorted_unique (fun a b : str => str_leb a b = true)).
    + apply sorted_keys_sorted.
    + apply sorted_keys_sorted.
    + rewrite Hsp. reflexivity.
Qed.

Lemma signed_params_order
    (params params' : odict pyval) (curr_time : Z) :
  NoDup (params.*1) ->
  params ≡ₚ params' ->
  signed_params params curr_time = signed_params params' curr_time.
Proof.
  intros Hnd Hperm. unfold signed_params. f_equal.
  assert (Hnd' : NoDup (params'.*1)) by (rewrite <- Hperm; exact Hnd).
  apply sorted_unique.
  - apply dict_set_keys, Hnd.
  - rewrite !dict_set_perm by assumption. rewrite Hperm. reflexivity.
Qed.

(** X19.  The signature does not depend on the order in which the
    caller put the parameters into the dict: two dicts with the same
    items are signed alike, whatever the URL encoding and the digest. *)
Theorem sign_params_order_independent
    (urlencode : odict str -> str) (md5_hexdigest : str -> str)
    (img_key sub_key : str) (curr_time : Z) (params params' : odict pyval) :
  NoDup (params.*1) ->
  params ≡ₚ params' ->
  sign_params urlencode md5_hexdigest img_key sub_key curr_time params
  = sign_params urlencode md5_hexdigest img_key sub_key curr_time params'.
Proof.
  intros Hnd Hperm. unfold sign_params.
  rewrite (signed_params_order params params' curr_time Hnd Hperm).
  reflexivity.
Qed.

Lemma sign_params_order_independent_witness :
  sign_params plain_urlencode plain_digest sample_img_key sample_sub_key 1700
    [(lit "foo", VInt 114); (lit "bar", VStr (lit "a!b"))]
  = sign_params plain_urlencode plain_digest sample_img_key sample_sub_key 1700
      [(lit "bar", VStr (lit "a!b")); (lit "foo", VInt 114)].
Proof.
  apply sign_params_order_independent.
  - cbn [fmap list_fmap fst]. apply NoDup_cons. split.
    + rewrite list_elem_of_singleton. discriminate.
    + apply NoDup_singleton.
  - apply Permutation_swap.
Defined.

End WbiExtra.

(** ** The ids of the bot's own messages *)

Module BotMessagesFacts.
Import BotMessages.

(** X21.  [mark_as_bot_message] keeps the set of ids within 1000: in
    whatever order the interpreter lists the set, a set of at most 1000
    ids has at most 1000 ids after a call, all of them ids it had or the
    new one; as long as it had fewer than 1000 the new id is kept, and
    [is_bot_message] recognises it exactly when it is not the empty
    text: an empty id is stored and never recognised. *)
Theorem mark_as_bot_message_bounded (enumerate : gset str -> list str)
    (bot_messages : gset str) (msg_id : str) :
  (forall s, enumerate s ≡ₚ elements s) ->
  (size bot_messages <= 1000)%nat ->
  let after := mark_as_bot_message enumerate bot_messages msg_id in
  (size after <= 1000)%nat
  /\ after ⊆ {[msg_id]} ∪ bot_messages
  /\ ((size bot_messages < 1000)%nat ->
      after = {[msg_id]} ∪ bot_messages
      /\ is_bot_message after (Some msg_id) None
         = negb (bool_decide (msg_id = []))).
Proof.
  intros Henum Hsize after. subst after. unfold mark_as_bot_message.
  assert (Hgrow : (size ({[msg_id]} ∪ bot_messages) <= 1 + size bot_messages)%nat).
  { rewrite size_union_alt, size_singleton.
    assert (Hsub : bot_messages ∖ {[msg_id]} ⊆ bot_messages)
      by (apply subseteq_difference_l; reflexivity).
    apply subseteq_size in Hsub. lia. }
  destruct (1000 <? size ({[msg_id]} ∪ bot_messages))%nat eqn:Hfull.
  - apply Nat.ltb_lt in Hfull.
    assert (Hlen : length (enumerate ({[msg_id]} ∪ bot_messages))
                   = size ({[msg_id]} ∪ bot_messages)).
    { rewrite Henum. reflexivity. }
    split_and!.
    + rewrite size_list_to_set, length_drop; [lia |].
      eapply sublist_NoDup; [| apply sublist_drop].
      rewrite Henum. apply NoDup_elements.
    + intros x Hx. apply elem_of_list_to_set in Hx.
      apply subseteq_drop in Hx. rewrite Henum in Hx.
      apply elem_of_elements in Hx. exact Hx.
    + intros Hroom. lia.
  - apply Nat.ltb_ge in Hfull.
    split_and!; [exact Hfull | done |].
    intros _. split; [reflexivity |].
    unfold is_bot_message, or_text.
    destruct msg_id as [| c s]; [reflexivity |].
    rewrite (bool_decide_eq_false_2 (c :: s = [])) by discriminate.
    apply bool_decide_eq_true. set_solver.
Qed.

Lemma mark_as_bot_message_bounded_witness :
  (size (mark_as_bot_message elements ∅ [49%Z; 50%Z]) <= 1000)%nat
  /\ is_bot_message (mark_as_bot_message elements ∅ [49; 50])
       (Some [49; 50]) None = true.
Proof.
  destruct (mark_as_bot_message_bounded elements ∅ [49; 50])
    as (Hsize & _ & Hkept).
  - intros s. reflexivity.
  - rewrite size_empty. lia.
  - split; [exact Hsize |].
    destruct Hkept as [_ Hbot]; [rewrite size_empty; lia |].
    exact Hbot.
Defined.

End BotMessagesFacts.
